(** * Remote index discovery and the multi-type block vector norm

    A shallow embedding of [istl/remoteindices.hh] (the classes
    [ParallelLocalIndex], [RemoteIndex], [RemoteIndices] and the two
    [MPITraits] specialisations) and of the infinity-norm helper of
    [dune/istl/multitypeblockvector.hh], followed by the properties that
    the specification states about them.

    Layout of the development: first the model (machine integers, the
    message-passing transport, the data classes, the algorithms of
    [RemoteIndices], the ring collective, the norm helper), then the
    lemmas and theorems. *)

From Stdlib Require Import ZArith List Lia Bool.
From Stdlib Require Import SpecFloat.
From stdpp Require Import base option list gmap sorting.

Open Scope Z_scope.
Set Warnings "-register-all".

(** ** Machine integers and bytes *)

(** A byte is a [Z] in [0, 256); a [char] member is stored as its byte. *)
Definition byte_ok (b : Z) : Prop := 0 <= b < 256.

(** [static_cast<char>(x)]. *)
Definition to_char (x : Z) : Z := x mod 256.

(** [T(c)] for a [char] member [c]: the value of the [char], which is a
    signed type here, so that the bytes from 128 on are the values from
    -128 on. *)
Definition of_char (b : Z) : Z := if b <? 128 then b else b - 256.

(** Conversion to [uint32_t] and to [int] (32 bit, two's complement). *)
Definition to_uint32 (x : Z) : Z := x mod 2 ^ 32.
Definition to_int (x : Z) : Z := (x + 2 ^ 31) mod 2 ^ 32 - 2 ^ 31.

Definition int_ok (x : Z) : Prop := - 2 ^ 31 <= x < 2 ^ 31.
Definition uint32_ok (x : Z) : Prop := 0 <= x < 2 ^ 32.

(** Little-endian byte image of an integer on [n] bytes, and its value. *)
Fixpoint le_bytes (n : nat) (x : Z) : list Z :=
  match n with
  | O => []
  | S k => x mod 256 :: le_bytes k (x / 256)
  end.

Fixpoint le_value (bs : list Z) : Z :=
  match bs with
  | [] => 0
  | b :: bs' => b + 256 * le_value bs'
  end.

(** ** Outcomes of fallible steps

    The transport aborts the program on an error (the default handler),
    an array access out of range and a second [delete] of the same list
    are faults of the process. *)

Inductive fault : Type :=
| MPI_ERR_TRUNCATE   (* pack or unpack beyond the size of the buffer *)
| OUT_OF_RANGE       (* array index or pointer outside its object *)
| INVALID_DELETE     (* delete of a list that is not allocated *)
| LOOP_BOUND.        (* iteration bound of the model exhausted *)

Inductive outcome (A : Type) : Type :=
| Done (a : A)
| Fault (f : fault).
Arguments Done {A} a.
Arguments Fault {A} f.

#[global] Instance outcome_ret : MRet outcome := fun A a => Done a.
#[global] Instance outcome_bind : MBind outcome := fun A B f m =>
  match m with
  | Done a => f a
  | Fault e => Fault e
  end.

Definition or_fault {A} (f : fault) (o : option A) : outcome A :=
  match o with
  | Some a => Done a
  | None => Fault f
  end.

(** ** The transport: datatypes, pack and unpack *)

Module Mpi.

(** Datatype handles.  [MPI_Type_struct] carries the block lengths, the
    displacements and the member types it was built from. *)
Inductive MPI_Datatype : Type :=
| MPI_LB
| MPI_UB
| MPI_CHAR
| MPI_INT
| MPI_PACKED
| MPI_Type_struct (count : nat) (length disp : list Z) (types : list MPI_Datatype).

Inductive basic : Type := B_CHAR | B_INT.

Definition basic_size (b : basic) : Z :=
  match b with
  | B_CHAR => 1
  | B_INT => 4
  end.

(** [MPI_Address]: the address of a member is the address of the object
    plus the offset of the member. *)
Definition MPI_Address (object offset : Z) : Z := object + offset.

Definition shift_map (d : Z) (tm : list (basic * Z)) : list (basic * Z) :=
  map (fun e => (fst e, snd e + d)) tm.

(** Distance between the lower-bound and the upper-bound marker of a
    struct type; the stride between the elements of a block. *)
Fixpoint marker (want_ub : bool) (disp : list Z) (types : list MPI_Datatype) : option Z :=
  match disp, types with
  | d :: disp', t :: types' =>
    match t, want_ub with
    | MPI_LB, false => Some d
    | MPI_UB, true => Some d
    | _, _ => marker want_ub disp' types'
    end
  | _, _ => None
  end.

Definition extent (t : MPI_Datatype) : Z :=
  match t with
  | MPI_CHAR => 1
  | MPI_INT => 4
  | MPI_Type_struct _ _ disp types =>
    match marker false disp types, marker true disp types with
    | Some lb, Some ub => ub - lb
    | _, _ => 0
    end
  | _ => 0
  end.

(** The type map: the basic members a datatype transmits, each with its
    displacement from the start of the object.  The two markers occupy
    no bytes. *)
Fixpoint typemap (t : MPI_Datatype) : list (basic * Z) :=
  match t with
  | MPI_LB | MPI_UB | MPI_PACKED => []
  | MPI_CHAR => [(B_CHAR, 0)]
  | MPI_INT => [(B_INT, 0)]
  | MPI_Type_struct count length disp types =>
    (fix members (n : nat) (ls ds : list Z) (ts : list MPI_Datatype) {struct ts} :=
       match n, ls, ds, ts with
       | S n', l :: ls', d :: ds', ty :: ts' =>
         flat_map (fun k => shift_map (d + Z.of_nat k * extent ty) (typemap ty))
                  (seq 0 (Z.to_nat l))
         ++ members n' ls' ds' ts'
       | _, _, _, _ => []
       end) count length disp types
  end.

(** Number of bytes one element of the datatype occupies when packed. *)
Definition packed_size (t : MPI_Datatype) : Z :=
  fold_right (fun e acc => basic_size (fst e) + acc) 0 (typemap t).

(** [MPI_Pack_size(incount, datatype, comm, &size)]. *)
Definition MPI_Pack_size (incount : Z) (t : MPI_Datatype) : Z :=
  incount * packed_size t.

(** Bytes [off .. off+n) of an object image. *)
Definition slice (off n : Z) (mem : list Z) : list Z :=
  take (Z.to_nat n) (drop (Z.to_nat off) mem).

(** Overwrite the bytes of [mem] from offset [off] on by [bs]. *)
Definition blit (off : Z) (bs mem : list Z) : list Z :=
  take (Z.to_nat off) mem ++ bs ++ drop (Z.to_nat off + List.length bs) mem.

(** The members selected by a type map, gathered from an object image. *)
Definition gather (tm : list (basic * Z)) (object : list Z) : list Z :=
  flat_map (fun e => slice (snd e) (basic_size (fst e)) object) tm.

(** The inverse movement: consecutive packed bytes stored at the
    displacements of the type map. *)
Fixpoint scatter (tm : list (basic * Z)) (bs object : list Z) : list Z :=
  match tm with
  | [] => object
  | e :: tm' =>
    let n := Z.to_nat (basic_size (fst e)) in
    scatter tm' (drop n bs) (blit (snd e) (take n bs) object)
  end.

(** [MPI_Pack(inbuf, 1, datatype, outbuf, outsize, &position, comm)]:
    the resulting buffer and position.  Every call in the program packs
    one element. *)
Definition MPI_Pack (inbuf : list Z) (t : MPI_Datatype)
           (outbuf : list Z) (outsize position : Z) : outcome (list Z * Z) :=
  let bs := gather (typemap t) inbuf in
  if decide (0 <= position ∧ position + packed_size t <= outsize
             ∧ outsize <= Z.of_nat (List.length outbuf))
  then Done (blit position bs outbuf, position + packed_size t)
  else Fault MPI_ERR_TRUNCATE.

(** [MPI_Unpack(inbuf, insize, &position, outbuf, 1, datatype, comm)]:
    the object image after the call and the new position. *)
Definition MPI_Unpack (inbuf : list Z) (insize position : Z)
           (outbuf : list Z) (t : MPI_Datatype) : outcome (list Z * Z) :=
  if decide (0 <= position ∧ position + packed_size t <= insize
             ∧ insize <= Z.of_nat (List.length inbuf))
  then Done (scatter (typemap t) (slice position (packed_size t) inbuf) outbuf,
             position + packed_size t)
  else Fault MPI_ERR_TRUNCATE.

(** An [int] variable as an object image, and back. *)
Definition int_image (x : Z) : list Z := le_bytes 4 x.
Definition int_of_image (bs : list Z) : Z := to_int (le_value (take 4 bs)).

Definition pack_int (x : Z) (outbuf : list Z) (outsize position : Z) :=
  MPI_Pack (int_image x) MPI_INT outbuf outsize position.

Definition unpack_int (inbuf : list Z) (insize position : Z) : outcome (Z * Z) :=
  '(img, position') ← MPI_Unpack inbuf insize position (int_image 0) MPI_INT;
  mret (int_of_image img, position').

End Mpi.
Export Mpi.

(** ** The data classes *)

(** Modelled from the spec: [LocalIndexState] of [indexset.hh], the state
    of a local index, [{VALID, DELETED}]; the enumerators are numbered in
    this order. *)
Inductive LocalIndexState : Type := VALID | DELETED.

Definition state_code (s : LocalIndexState) : Z :=
  match s with
  | VALID => 0
  | DELETED => 1
  end.

(** The attribute type [T] is an enumeration; an attribute is stored as
    a [char] and read as the value of that [char]. *)
Module ParallelLocalIndex.

Record t : Type := mk {
  localIndex_ : Z;   (* uint32_t *)
  attribute_ : Z;    (* char *)
  public_ : Z;       (* char *)
  state_ : Z         (* char *)
}.

(** [ParallelLocalIndex(attribute, isPublic)]. *)
Definition make2 (attribute : Z) (isPublic : bool) : t :=
  mk 0 (to_char attribute) (to_char (Z.b2z isPublic)) (to_char (state_code VALID)).

(** [ParallelLocalIndex(localIndex, attribute, isPublic)]. *)
Definition make3 (localIndex : Z) (attribute : Z) (isPublic : bool) : t :=
  mk (to_uint32 localIndex) (to_char attribute) (to_char (Z.b2z isPublic))
     (to_char (state_code VALID)).

(** [ParallelLocalIndex()]. *)
Definition make0 : t :=
  mk 0 0 (to_char (Z.b2z false)) (to_char (state_code VALID)).

Definition attribute (x : t) : Z := of_char (attribute_ x).
Definition setAttribute (attribute : Z) (x : t) : t :=
  mk (localIndex_ x) (to_char attribute) (public_ x) (state_ x).
Definition local (x : t) : Z := localIndex_ x.
Definition isPublic (x : t) : bool := negb (public_ x =? 0).
Definition state (x : t) : LocalIndexState :=
  if state_ x =? 0 then VALID else DELETED.
Definition setState (s : LocalIndexState) (x : t) : t :=
  mk (localIndex_ x) (attribute_ x) (public_ x) (to_char (state_code s)).

Definition ok (x : t) : Prop :=
  uint32_ok (localIndex_ x) ∧ byte_ok (attribute_ x)
  ∧ byte_ok (public_ x) ∧ byte_ok (state_ x).

(** Object layout: the members in declaration order, one byte of
    padding at the end. *)
Definition sizeof : Z := 8.
Definition offset_localIndex_ : Z := 0.
Definition offset_attribute_ : Z := 4.
Definition offset_public_ : Z := 5.
Definition offset_state_ : Z := 6.

Definition image (x : t) : list Z :=
  le_bytes 4 (localIndex_ x) ++ [attribute_ x; public_ x; state_ x; 0].

Definition of_image (bs : list Z) : t :=
  mk (le_value (take 4 bs)) (nth 4 bs 0) (nth 5 bs 0) (nth 6 bs 0).

(** [operator uint32_t()]. *)
Definition to_uint32_t (x : t) : Z := localIndex_ x.

(** [operator=(uint32_t index)]. *)
Definition assign (index : Z) (x : t) : t :=
  mk (to_uint32 index) (attribute_ x) (public_ x) (state_ x).

End ParallelLocalIndex.

(** Modelled from the spec: [IndexPair] of [indexset.hh], a global index
    with its local index, [(global: G, tag: LocalTag)]; the global index
    type of [RemoteIndices::IndexSetType] is [int]. *)
Module IndexPair.

Record t : Type := mk {
  global_ : Z;                     (* int *)
  local_ : ParallelLocalIndex.t
}.

Definition make0 : t := mk 0 ParallelLocalIndex.make0.

Definition global (p : t) : Z := global_ p.
Definition local (p : t) : ParallelLocalIndex.t := local_ p.

Definition ok (p : t) : Prop :=
  int_ok (global_ p) ∧ ParallelLocalIndex.ok (local_ p).

Definition sizeof : Z := 12.
Definition offset_global_ : Z := 0.
Definition offset_local_ : Z := 4.

Definition image (p : t) : list Z :=
  le_bytes 4 (global_ p) ++ ParallelLocalIndex.image (local_ p).

Definition of_image (bs : list Z) : t :=
  mk (to_int (le_value (take 4 bs))) (ParallelLocalIndex.of_image (drop 4 bs)).

End IndexPair.

(** Modelled from the spec: [IndexSet] of [indexset.hh], an ordered
    sequence of index pairs with forward iteration, [size], the count of
    public pairs and a sequence number that changes when the set does. *)
Module IndexSet.

Record t : Type := mk {
  pairs : list IndexPair.t;
  seqNo_ : Z
}.

Definition size (s : t) : Z := Z.of_nat (List.length (pairs s)).
Definition noPublic (s : t) : Z :=
  Z.of_nat (List.length
    (filter (fun p => ParallelLocalIndex.isPublic (IndexPair.local p) = true) (pairs s))).
Definition seqNo (s : t) : Z := seqNo_ s.

(** Strictly increasing in the global index. *)
Definition ascending (s : t) : Prop :=
  StronglySorted Z.lt (map IndexPair.global (pairs s)).

End IndexSet.

(** A [const PairType*]: the address of the index set the pair lives in
    and the position of the pair in it. *)
Record pointer : Type := Pointer { object : Z; element : nat }.

(** The index sets of a process, by address. *)
Definition memory : Type := Z -> IndexSet.t.

Definition deref (mem : memory) (p : pointer) : option IndexPair.t :=
  IndexSet.pairs (mem (object p)) !! element p.

Module RemoteIndex.

Record t : Type := mk {
  localIndex_ : pointer;   (* const PairType* *)
  attribute_ : Z           (* char *)
}.

(** [RemoteIndex(attribute, local)]. *)
Definition make (attribute : Z) (local : pointer) : t :=
  mk local (to_char attribute).

Definition attribute (r : t) : Z := of_char (attribute_ r).
Definition localIndexPair (mem : memory) (r : t) : option IndexPair.t :=
  deref mem (localIndex_ r).

End RemoteIndex.

(** ** The committed datatypes of [MPITraits] *)

Module MPITraits.

(** [for(int i=n-1; i >= 0; --i) disp[i] -= disp[0];] *)
Definition rebase (n : nat) (disp : list Z) : list Z :=
  fold_left (fun d i => <[i := nth i d 0 - nth 0 d 0]> d) (rev (seq 0 n)) disp.

(** [MPITraits<char>::getType()] and [MPITraits<int>::getType()] of
    [mpitraits.hh] are the transport's own handles. *)
Definition getType_char : MPI_Datatype := MPI_CHAR.
Definition getType_int : MPI_Datatype := MPI_INT.

(** [MPITraits<ParallelLocalIndex<T> >::getType()].  [rep] is the
    address of the local array [rep[2]].  The handle is built on the
    first call and kept in a static member; later calls return it. *)
Definition getType_ParallelLocalIndex (rep : Z) : MPI_Datatype :=
  let length := [1; 1; 1] in
  let types := [MPI_LB; getType_char; MPI_UB] in
  let disp :=
    [ MPI_Address rep 0;
      MPI_Address rep ParallelLocalIndex.offset_attribute_;
      MPI_Address rep ParallelLocalIndex.sizeof ] in
  let disp := rebase 3 disp in
  MPI_Type_struct 3 length disp types.

(** [MPITraits<IndexPair<TG,ParallelLocalIndex<TA> > >::getType()]. *)
Definition getType_IndexPair (rep rep' : Z) : MPI_Datatype :=
  let length := [1; 1; 1; 1] in
  let types := [MPI_LB; getType_int; getType_ParallelLocalIndex rep'; MPI_UB] in
  let disp :=
    [ MPI_Address rep 0;
      MPI_Address rep IndexPair.offset_global_;
      MPI_Address rep IndexPair.offset_local_;
      MPI_Address rep IndexPair.sizeof ] in
  let disp := rebase 4 disp in
  MPI_Type_struct 4 length disp types.

(** The handle does not depend on where [rep] was placed; this is the
    one every process commits. *)
Definition PairType_type : MPI_Datatype := getType_IndexPair 0 0.

(** The two static members [type], [None] for [MPI_DATATYPE_NULL]. *)
Record statics : Type := Statics {
  type_ParallelLocalIndex : option MPI_Datatype;
  type_IndexPair : option MPI_Datatype
}.

Definition no_type : statics := Statics None None.

(** [MPITraits<ParallelLocalIndex<T> >::getType()] with its static
    member: the handle returned and the statics after the call. *)
Definition getType_ParallelLocalIndex_static (rep : Z) (s : statics)
  : MPI_Datatype * statics :=
  match type_ParallelLocalIndex s with
  | None =>
    let type := getType_ParallelLocalIndex rep in
    (type, Statics (Some type) (type_IndexPair s))
  | Some type => (type, s)
  end.

(** [MPITraits<IndexPair<TG,ParallelLocalIndex<TA> > >::getType()] with
    its static member; the handle of the local index is asked for when
    the array [types] is built. *)
Definition getType_IndexPair_static (rep rep' : Z) (s : statics)
  : MPI_Datatype * statics :=
  match type_IndexPair s with
  | None =>
    let '(local_type, s) := getType_ParallelLocalIndex_static rep' s in
    let length := [1; 1; 1; 1] in
    let types := [MPI_LB; getType_int; local_type; MPI_UB] in
    let disp :=
      [ MPI_Address rep 0;
        MPI_Address rep IndexPair.offset_global_;
        MPI_Address rep IndexPair.offset_local_;
        MPI_Address rep IndexPair.sizeof ] in
    let disp := rebase 4 disp in
    let type := MPI_Type_struct 4 length disp types in
    (type, Statics (type_ParallelLocalIndex s) (Some type))
  | Some type => (type, s)
  end.

(** Statics that hold no handle or the handle of the type. *)
Definition statics_ok (s : statics) : Prop :=
  (type_ParallelLocalIndex s = None
   ∨ type_ParallelLocalIndex s = Some (getType_ParallelLocalIndex 0))
  ∧ (type_IndexPair s = None ∨ type_IndexPair s = Some PairType_type).

End MPITraits.

(** Packing one index pair and unpacking one into an existing pair. *)
Definition pack_pair (p : IndexPair.t) (t : MPI_Datatype)
           (outbuf : list Z) (outsize position : Z) : outcome (list Z * Z) :=
  MPI_Pack (IndexPair.image p) t outbuf outsize position.

Definition unpack_pair (inbuf : list Z) (insize position : Z)
           (index : IndexPair.t) (t : MPI_Datatype) : outcome (IndexPair.t * Z) :=
  '(img, position') ← MPI_Unpack inbuf insize position (IndexPair.image index) t;
  mret (IndexPair.of_image img, position').

(** ** RemoteIndices *)

(** [SLList<RemoteIndex<GlobalIndexType,AttributeType> >]; [push_back]
    appends at the end. *)
Abbreviation RemoteIndexList := (list RemoteIndex.t).

(** The free store of a process: the lists made by [new RemoteIndexList()],
    by address.  A deleted list leaves an empty cell behind. *)
Abbreviation store := (list (option (list RemoteIndex.t))).

Definition new_list (h : store) : nat * store :=
  (List.length h, h ++ [Some []]).

Definition delete_list (a : nat) (h : store) : outcome store :=
  match h !! a with
  | Some (Some _) => Done (<[a := None]> h)
  | _ => Fault INVALID_DELETE
  end.

Definition list_at (h : store) (a : nat) : option RemoteIndexList :=
  match h !! a with
  | Some (Some l) => Some l
  | _ => None
  end.

(** [std::map::insert]: the entry is added when the key is new. *)
Definition std_map_insert {V} (k : Z) (v : V) (m : gmap Z V) : gmap Z V :=
  match m !! k with
  | Some _ => m
  | None => <[k := v]> m
  end.

(** [new char[n]] and [new PairType*[n]]: storage with whatever the
    process finds there. *)
Definition new_chars (stale : nat -> Z) (n : Z) : list Z :=
  map stale (seq 0 (Z.to_nat n)).

Definition new_pointers (n : Z) : list pointer :=
  replicate (Z.to_nat n) (Pointer 0 0).

(** [a[i] = v] on an array of fixed length. *)
Definition array_store {A} (a : list A) (i : nat) (v : A) : outcome (list A) :=
  if decide (i < List.length a)%nat then Done (<[i := v]> a) else Fault OUT_OF_RANGE.

Module RemoteIndices.

Record t : Type := mk {
  source_ : Z;          (* const IndexSetType&, as the address of the set *)
  dest_ : Z;            (* const IndexSetType& *)
  comm_ : Z;            (* const MPI_Comm& *)
  sourceSeqNo_ : Z;
  destSeqNo_ : Z;
  (* std::map<int, std::pair<RemoteIndexList*,RemoteIndexList*> > *)
  remoteIndices_ : gmap Z (nat * nat);
  copyLocal_ : list (Z * Z)
}.

Definition commTag_ : Z := 333.

(** [RemoteIndices(source, destination, comm)]. *)
Definition make (source destination comm : Z) : t :=
  mk source destination comm (-1) (-1) ∅ [].

Definition set_remoteIndices_ (m : gmap Z (nat * nat)) (x : t) : t :=
  mk (source_ x) (dest_ x) (comm_ x) (sourceSeqNo_ x) (destSeqNo_ x) m (copyLocal_ x).

Definition set_copyLocal_ (c : list (Z * Z)) (x : t) : t :=
  mk (source_ x) (dest_ x) (comm_ x) (sourceSeqNo_ x) (destSeqNo_ x)
     (remoteIndices_ x) c.

(** *** packEntries *)

(** The loop over the index set; [k] is the position of the iterator,
    [i] the number of entries stored in [pairs] so far. *)
Fixpoint packEntries_loop (ignorePublic : bool) (indexSet : Z) (k : nat)
         (rest : list IndexPair.t) (pairs : list pointer) (i : nat)
         (p_out : list Z) (type : MPI_Datatype) (bufferSize position : Z)
  : outcome (list pointer * list Z * Z) :=
  match rest with
  | [] => Done (pairs, p_out, position)
  | index :: rest' =>
    if ignorePublic || ParallelLocalIndex.isPublic (IndexPair.local index) then
      '(p_out, position) ← pack_pair index type p_out bufferSize position;
      pairs ← array_store pairs i (Pointer indexSet k);
      packEntries_loop ignorePublic indexSet (S k) rest' pairs (S i)
                       p_out type bufferSize position
    else
      packEntries_loop ignorePublic indexSet (S k) rest' pairs i
                       p_out type bufferSize position
  end.

Definition packEntries (ignorePublic : bool) (mem : memory)
           (pairs : list pointer) (indexSet : Z)
           (p_out : list Z) (type : MPI_Datatype) (bufferSize position : Z)
  : outcome (list pointer * list Z * Z) :=
  packEntries_loop ignorePublic indexSet 0 (IndexSet.pairs (mem indexSet))
                   pairs 0 p_out type bufferSize position.

(** *** buildLocal *)

(** The two-iterator loop; the lists are what is left of the source and
    of the destination index set. *)
Fixpoint buildLocal_loop (ignorePublic : bool)
         (sourceIndex destIndex : list IndexPair.t) : list (Z * Z) :=
  match sourceIndex with
  | [] => []
  | s :: sourceIndex' =>
    (fix dest_loop (destIndex : list IndexPair.t) : list (Z * Z) :=
       match destIndex with
       | [] => []
       | d :: destIndex' =>
         if (IndexPair.global d =? IndexPair.global s)
            && (ignorePublic
                || ParallelLocalIndex.isPublic (IndexPair.local d)
                   && ParallelLocalIndex.isPublic (IndexPair.local s))
         then
           (to_int (ParallelLocalIndex.local (IndexPair.local s)),
            to_int (ParallelLocalIndex.local (IndexPair.local d)))
             :: buildLocal_loop ignorePublic sourceIndex' destIndex'
         else if IndexPair.global d <? IndexPair.global s then
           dest_loop destIndex'
         else
           buildLocal_loop ignorePublic sourceIndex' destIndex
       end) destIndex
  end.

Definition buildLocal (ignorePublic : bool) (mem : memory) (x : t) : t :=
  set_copyLocal_
    (buildLocal_loop ignorePublic
       (IndexSet.pairs (mem (source_ x))) (IndexSet.pairs (mem (dest_ x))))
    x.

(** *** unpackIndices *)

(** The [while(localIndex<localEntries)] loop.  [index] is the pair last
    unpacked, [n_in] the number of received pairs dealt with. *)
Fixpoint unpackIndices_loop (bound : nat) (mem : memory)
         (remote : RemoteIndexList) (remoteEntries : Z)
         (local : list pointer) (localEntries : Z)
         (p_in : list Z) (type : MPI_Datatype) (position bufferSize : Z)
         (index : IndexPair.t) (n_in localIndex : Z)
  : outcome (RemoteIndexList * Z) :=
  if localIndex <? localEntries then
    match bound with
    | O => Fault LOOP_BOUND
    | S bound' =>
      ptr ← or_fault OUT_OF_RANGE
            (if 0 <=? localIndex then local !! Z.to_nat localIndex else None);
      here ← or_fault OUT_OF_RANGE (deref mem ptr);
      if IndexPair.global here =? IndexPair.global index then
        let remote :=
          remote ++ [RemoteIndex.make
                       (ParallelLocalIndex.attribute (IndexPair.local index)) ptr] in
        let localIndex := localIndex + 1 in
        let n_in := n_in + 1 in
        if n_in <? remoteEntries then
          '(index, position) ← unpack_pair p_in bufferSize position index type;
          unpackIndices_loop bound' mem remote remoteEntries local localEntries
                             p_in type position bufferSize index n_in localIndex
        else Done (remote, position)
      else if IndexPair.global here <? IndexPair.global index then
        unpackIndices_loop bound' mem remote remoteEntries local localEntries
                           p_in type position bufferSize index n_in (localIndex + 1)
      else
        let n_in := n_in + 1 in
        if n_in <? remoteEntries then
          '(index, position) ← unpack_pair p_in bufferSize position index type;
          unpackIndices_loop bound' mem remote remoteEntries local localEntries
                             p_in type position bufferSize index n_in localIndex
        else Done (remote, position)
    end
  else Done (remote, position).

(** Every turn of the loop advances [localIndex] or [n_in]; this many
    turns are never exceeded. *)
Definition unpackIndices_bound (remoteEntries localEntries : Z) : nat :=
  (Z.to_nat localEntries + Z.to_nat remoteEntries + 1)%nat.

(** The list [remote] after the call and the position. *)
Definition unpackIndices (mem : memory)
           (remote : RemoteIndexList) (remoteEntries : Z)
           (local : list pointer) (localEntries : Z)
           (p_in : list Z) (type : MPI_Datatype) (position bufferSize : Z)
  : outcome (RemoteIndexList * Z) :=
  if remoteEntries =? 0 then Done (remote, position)
  else
    '(index, position) ←
      unpack_pair p_in bufferSize position IndexPair.make0 type;
    unpackIndices_loop (unpackIndices_bound remoteEntries localEntries) mem
                       remote remoteEntries local localEntries
                       p_in type position bufferSize index 0 0.

End RemoteIndices.

(** ** buildRemote: the part each process runs, and the ring *)

(** A process: its index sets, its free store, the [RemoteIndices]
    object, the bytes it finds in fresh [char] arrays, and the bytes that
    lie behind the [bool sendTwo] where [buildRemote] keeps it. *)
Record process : Type := Process {
  mem : memory;
  heap : store;
  this : RemoteIndices.t;
  stale : nat -> Z;
  behind : nat -> Z
}.

Definition set_heap (h : store) (p : process) : process :=
  Process (mem p) h (this p) (stale p) (behind p).

Definition set_this (x : RemoteIndices.t) (p : process) : process :=
  Process (mem p) (heap p) x (stale p) (behind p).

(** The local variables of [buildRemote] that live across the hops.
    [destPairs_new] is the array of [new PairType*[destPublish]], made
    only when two index sets are sent. *)
Record locals : Type := Locals {
  rank : Z;
  procs : Z;
  sendTwo : bool;
  sourcePublish : Z;
  destPublish : Z;
  sourcePairs : list pointer;
  destPairs_new : list pointer;
  buffer0 : list Z;
  buffer1 : list Z;
  bufferSize : Z;
  position : Z;
  type : MPI_Datatype
}.

(** [destPairs]: its own array, or [sourcePairs] itself. *)
Definition destPairs (l : locals) : list pointer :=
  if sendTwo l then destPairs_new l else sourcePairs l.

(** [buffer[1-(proc%2)]] and [buffer[proc%2]]. *)
Definition p_out (proc : Z) (l : locals) : list Z :=
  if Z.rem proc 2 =? 0 then buffer1 l else buffer0 l.
Definition p_in (proc : Z) (l : locals) : list Z :=
  if Z.rem proc 2 =? 0 then buffer0 l else buffer1 l.

Definition set_p_out (proc : Z) (b : list Z) (l : locals) : locals :=
  if Z.rem proc 2 =? 0
  then Locals (rank l) (procs l) (sendTwo l) (sourcePublish l) (destPublish l)
              (sourcePairs l) (destPairs_new l) (buffer0 l) b
              (bufferSize l) (position l) (type l)
  else Locals (rank l) (procs l) (sendTwo l) (sourcePublish l) (destPublish l)
              (sourcePairs l) (destPairs_new l) b (buffer1 l)
              (bufferSize l) (position l) (type l).

Definition set_p_in (proc : Z) (b : list Z) (l : locals) : locals :=
  if Z.rem proc 2 =? 0
  then Locals (rank l) (procs l) (sendTwo l) (sourcePublish l) (destPublish l)
              (sourcePairs l) (destPairs_new l) b (buffer1 l)
              (bufferSize l) (position l) (type l)
  else Locals (rank l) (procs l) (sendTwo l) (sourcePublish l) (destPublish l)
              (sourcePairs l) (destPairs_new l) (buffer0 l) b
              (bufferSize l) (position l) (type l).

Definition set_position (pos : Z) (l : locals) : locals :=
  Locals (rank l) (procs l) (sendTwo l) (sourcePublish l) (destPublish l)
         (sourcePairs l) (destPairs_new l) (buffer0 l) (buffer1 l)
         (bufferSize l) pos (type l).

Definition set_pairs (src dst : list pointer) (l : locals) : locals :=
  Locals (rank l) (procs l) (sendTwo l) (sourcePublish l) (destPublish l)
         src dst (buffer0 l) (buffer1 l)
         (bufferSize l) (position l) (type l).

Module BuildRemote.
Import RemoteIndices.

(** [sendTwo], [sourcePublish] and [destPublish]. *)
Definition to_publish (ignorePublic : bool) (p : process) : bool * Z * Z :=
  let source := mem p (source_ (this p)) in
  let dest := mem p (dest_ (this p)) in
  let sendTwo := negb (source_ (this p) =? dest_ (this p)) in
  let sourcePublish :=
    if ignorePublic then IndexSet.size source else IndexSet.noPublic source in
  let destPublish :=
    if sendTwo
    then (if ignorePublic then IndexSet.size dest else IndexSet.noPublic dest)
    else 0 in
  (sendTwo, sourcePublish, destPublish).

(** [publish], the contribution of the process to the reduction. *)
Definition publish (ignorePublic : bool) (p : process) : Z :=
  let '(_, sourcePublish, destPublish) := to_publish ignorePublic p in
  to_int (sourcePublish + destPublish).

(** [MPI_Allreduce(&publish, &maxPublish, 1, MPI_INT, MPI_MAX, comm_)]. *)
Definition MPI_Allreduce_MAX (xs : list Z) : Z :=
  match xs with
  | [] => 0
  | x :: xs' => fold_left Z.max xs' x
  end.

(** From the processor configuration to the allocation of the two
    buffers. *)
Definition prepare (ignorePublic : bool) (rank procs maxPublish : Z)
           (p : process) : locals :=
  let '(sendTwo, sourcePublish, destPublish) := to_publish ignorePublic p in
  let sourcePairs := new_pointers sourcePublish in
  let destPairs_new := if sendTwo then new_pointers destPublish else [] in
  let type := MPITraits.PairType_type in
  let bufferSize := MPI_Pack_size maxPublish type in
  let intSize := MPI_Pack_size 1 MPI_INT in
  let bufferSize := to_int (bufferSize + 3 * intSize) in
  Locals rank procs sendTwo sourcePublish destPublish
         sourcePairs destPairs_new
         (new_chars (stale p) bufferSize) (new_chars (stale p) bufferSize)
         bufferSize 0 type.

(** The object [MPI_Pack(&sendTwo, 1, MPI_INT, ...)] reads: four bytes
    from the address of the [bool] on, the [bool] itself, which is one
    byte, and the three bytes that lie behind it. *)
Definition sendTwo_int (p : process) (sendTwo : bool) : list Z :=
  Z.b2z sendTwo :: map (behind p) (seq 0 3).

(** The body of [if(proc==1)]: the header, the source pairs and, when
    two sets are sent, the destination pairs.  The flag is packed as an
    [int] read at the address of the [bool]. *)
Definition hop_pack (ignorePublic : bool) (proc : Z) (p : process) (l : locals)
  : outcome locals :=
  if proc =? 1 then
    let out := p_out proc l in
    '(out, position) ←
      MPI_Pack (sendTwo_int p (sendTwo l)) MPI_INT out (bufferSize l) (position l);
    '(out, position) ← pack_int (sourcePublish l) out (bufferSize l) position;
    '(out, position) ← pack_int (destPublish l) out (bufferSize l) position;
    '(sourcePairs, out, position) ←
      packEntries ignorePublic (mem p) (sourcePairs l) (source_ (this p))
                  out (type l) (bufferSize l) position;
    '(destPairs_new, out, position) ←
      (if sendTwo l
       then packEntries ignorePublic (mem p) (destPairs_new l) (dest_ (this p))
                        out (type l) (bufferSize l) position
       else Done (destPairs_new l, out, position));
    mret (set_position position
            (set_p_out proc out (set_pairs sourcePairs destPairs_new l)))
  else Done l.

(** [MPI_Ssend(p_out, position, MPI_PACKED, (rank+1)%procs, ...)]: the
    message that leaves the process. *)
Definition hop_send (proc : Z) (l : locals) : list Z :=
  take (Z.to_nat (position l)) (p_out proc l).

(** [MPI_Recv(p_in, bufferSize, MPI_PACKED, (rank+procs-1)%procs, ...)]. *)
Definition hop_recv (proc : Z) (message : list Z) (l : locals) : outcome locals :=
  if decide (Z.of_nat (List.length message) <= bufferSize l)
  then Done (set_p_in proc (blit 0 message (p_in proc l)) l)
  else Fault MPI_ERR_TRUNCATE.

(** From the unpacking of the header to the two lists: the locals, the
    store, the pointers [send] and [receive], and the flag received. *)
Definition hop_lists (proc : Z) (p : process) (l : locals)
  : outcome (locals * store * nat * nat * Z) :=
  let inb := p_in proc l in
  let position := 0 in
  '(twoIndexSets, position) ← unpack_int inb (bufferSize l) position;
  '(noReceive, position) ← unpack_int inb (bufferSize l) position;
  '(noSend, position) ← unpack_int inb (bufferSize l) position;
  let '(receive, h) := new_list (heap p) in
  '(received, position) ←
    unpackIndices (mem p) [] noReceive (destPairs l) (destPublish l)
                  inb (type l) position (bufferSize l);
  let h := <[receive := Some received]> h in
  if negb (twoIndexSets =? 0) || sendTwo l then
    let '(send, h) := new_list h in
    '(sent, position) ←
      unpackIndices (mem p) [] noSend (sourcePairs l) (sourcePublish l)
                    inb (type l) position (bufferSize l);
    let h := <[send := Some sent]> h in
    mret (set_position position l, h, send, receive, twoIndexSets)
  else
    mret (set_position position l, h, receive, receive, twoIndexSets).

(** [if(send->empty() && receive->empty()) ... else insert]. *)
Definition hop_store (remoteProc : Z) (send receive : nat)
           (h : store) (x : RemoteIndices.t) : outcome (store * RemoteIndices.t) :=
  sent ← or_fault OUT_OF_RANGE (list_at h send);
  received ← or_fault OUT_OF_RANGE (list_at h receive);
  if bool_decide (sent = []) && bool_decide (received = []) then
    if bool_decide (send = receive) then
      h ← delete_list send h;
      mret (h, x)
    else
      h ← delete_list send h;
      h ← delete_list receive h;
      mret (h, x)
  else
    mret (h, set_remoteIndices_
               (std_map_insert remoteProc (send, receive) (remoteIndices_ x)) x).

(** The process these indices are from. *)
Definition remoteProc (proc : Z) (l : locals) : Z :=
  Z.rem (rank l + procs l - proc) (procs l).

(** What a process does in one turn of the ring loop once the message
    has arrived. *)
Definition hop_unpack (proc : Z) (st : process * locals) : outcome (process * locals) :=
  let '(p, l) := st in
  '(l, h, send, receive, _) ← hop_lists proc p l;
  '(h, x) ← hop_store (remoteProc proc l) send receive h (this p);
  mret (set_this x (set_heap h p), l).

(** One turn of the loop on every process: pack on the first turn, pass
    the messages one place along the ring, unpack.  A process of even
    rank sends and then receives, one of odd rank receives and then
    sends; every process leaves the exchange with the same buffers in
    either order. *)
Definition hop_pack_all (ignorePublic : bool) (proc : Z)
           (sts : list (process * locals)) : outcome (list (process * locals)) :=
  mapM (fun st => l ← hop_pack ignorePublic proc (fst st) (snd st);
                  mret (fst st, l)) sts.

(** The messages handed to [MPI_Ssend], by rank of the sender. *)
Definition hop_messages (proc : Z) (sts : list (process * locals)) : list (list Z) :=
  map (fun st => hop_send proc (snd st)) sts.

Definition hop_recv_all (proc : Z) (messages : list (list Z))
           (sts : list (process * locals)) : outcome (list (process * locals)) :=
  mapM (fun st =>
          let l := snd st in
          message ← or_fault OUT_OF_RANGE
            (messages !! Z.to_nat (Z.rem (rank l + procs l - 1) (procs l)));
          l ← hop_recv proc message l;
          mret (fst st, l)) sts.

Definition hop (ignorePublic : bool) (proc : Z) (sts : list (process * locals))
  : outcome (list (process * locals)) :=
  sts ← hop_pack_all ignorePublic proc sts;
  sts ← hop_recv_all proc (hop_messages proc sts) sts;
  mapM (hop_unpack proc) sts.

(** [for(int proc=1; proc<procs; proc++)]: [turns] turns from [proc] on. *)
Fixpoint ring_from (ignorePublic : bool) (turns : nat) (proc : Z)
         (sts : list (process * locals)) : outcome (list (process * locals)) :=
  match turns with
  | O => Done sts
  | S turns' =>
    sts ← hop ignorePublic proc sts;
    ring_from ignorePublic turns' (proc + 1) sts
  end.

Definition ring (ignorePublic : bool) (sts : list (process * locals))
  : outcome (list (process * locals)) :=
  ring_from ignorePublic (List.length sts - 1) 1 sts.

(** Every process with its locals at the entry of the loop. *)
Definition prepare_all (ignorePublic : bool) (ps : list process)
  : list (process * locals) :=
  let procs := Z.of_nat (List.length ps) in
  let maxPublish := MPI_Allreduce_MAX (map (publish ignorePublic) ps) in
  imap (fun r p => (p, prepare ignorePublic (Z.of_nat r) procs maxPublish p)) ps.

(** [remoteIndices_.clear()]. *)
Definition clear (p : process) : process :=
  set_this (set_remoteIndices_ ∅ (this p)) p.

(** [buildRemote<ignorePublic>()] entered by all the processes of the
    communicator, in rank order. *)
Definition buildRemote (ignorePublic : bool) (ps : list process)
  : outcome (list process) :=
  let ps := map clear ps in
  let procs := Z.of_nat (List.length ps) in
  if procs =? 1 then Done ps
  else
    sts ← ring ignorePublic (prepare_all ignorePublic ps);
    mret (map fst sts).

End BuildRemote.

(** *** rebuild and isSynced *)

(** [rebuild<ignorePublic>()], entered by all the processes.  The call of
    [buildLocal] is commented out in the source. *)
Definition rebuild (ignorePublic : bool) (ps : list process) : outcome (list process) :=
  BuildRemote.buildRemote ignorePublic ps.

Definition isSynced (p : process) : bool :=
  let x := this p in
  (RemoteIndices.sourceSeqNo_ x =? IndexSet.seqNo (mem p (RemoteIndices.source_ x)))
  && (RemoteIndices.destSeqNo_ x =? IndexSet.seqNo (mem p (RemoteIndices.dest_ x))).

(** ** Scenarios *)

Module Scenario.

(** [enum Attributes{owner, border, overlap}]. *)
Definition owner : Z := 0.
Definition border : Z := 1.
Definition overlap : Z := 2.

Definition entry (global localIndex attribute : Z) (isPublic : bool) : IndexPair.t :=
  IndexPair.mk global (ParallelLocalIndex.make3 localIndex attribute isPublic).

Definition empty_set : IndexSet.t := IndexSet.mk [] 0.

(** A memory with one index set at address 100 and another at 200. *)
Definition two_sets (a b : IndexSet.t) : memory :=
  fun address =>
    if address =? 100 then a else if address =? 200 then b else empty_set.

(** A process whose object was just constructed on the sets at
    [source] and [destination]; the storage it has not written holds
    zeros. *)
Definition fresh_process (m : memory) (source destination : Z) : process :=
  Process m [] (RemoteIndices.make source destination 0) (fun _ => 0) (fun _ => 0).

Definition S1_rank0 : IndexSet.t :=
  IndexSet.mk [entry 10 0 owner true; entry 20 1 owner true; entry 30 2 border true] 0.
Definition S1_rank1 : IndexSet.t :=
  IndexSet.mk [entry 30 0 border true; entry 40 1 owner true; entry 50 2 owner true] 0.

Definition S1 : list process :=
  [ fresh_process (two_sets S1_rank0 empty_set) 100 100;
    fresh_process (two_sets S1_rank1 empty_set) 100 100 ].

(** Three processes, each with a source set of three public pairs and
    a destination set of its own that is a copy of it. *)
Definition S_ring3 : list process :=
  [ fresh_process (two_sets S1_rank0 S1_rank0) 100 200;
    fresh_process (two_sets S1_rank1 S1_rank1) 100 200;
    fresh_process (two_sets S1_rank0 S1_rank0) 100 200 ].

(** One process, source and destination the same set with one public
    pair. *)
Definition one_public : IndexSet.t := IndexSet.mk [entry 5 0 border true] 0.

Definition S_single : list process :=
  [ fresh_process (two_sets one_public empty_set) 100 100 ].

(** Rank 0 uses one index set for both directions; rank 1 has an empty
    source set and a destination set of its own. *)
Definition S_mixed : list process :=
  [ fresh_process (two_sets one_public empty_set) 100 100;
    fresh_process (two_sets empty_set one_public) 100 200 ].

(** As [S1], with a destination set of its own (a copy of the source
    set) on both ranks. *)
Definition S_two_sets : list process :=
  [ fresh_process (two_sets S1_rank0 S1_rank0) 100 200;
    fresh_process (two_sets S1_rank1 S1_rank1) 100 200 ].

(** The processes of a scenario when the message of the first hop has
    arrived and is about to be unpacked. *)
Definition first_message (ignorePublic : bool) (ps : list process)
  : outcome (list (process * locals)) :=
  sts ← BuildRemote.hop_pack_all ignorePublic 1
        (BuildRemote.prepare_all ignorePublic (map BuildRemote.clear ps));
  BuildRemote.hop_recv_all 1 (BuildRemote.hop_messages 1 sts) sts.

(** Process [r] of a scenario at that moment. *)
Definition arrived (ignorePublic : bool) (ps : list process) (r : nat)
  : process * locals :=
  let idle := fresh_process (two_sets empty_set empty_set) 100 100 in
  match first_message ignorePublic ps with
  | Done sts => nth r sts (idle, BuildRemote.prepare ignorePublic 0 1 0 idle)
  | Fault _ => (idle, BuildRemote.prepare ignorePublic 0 1 0 idle)
  end.

(** Scenario S4: distinct source and destination sets on one process. *)
Definition S4_source : IndexSet.t :=
  IndexSet.mk [entry 1 0 owner true; entry 2 1 owner true] 0.
Definition S4_destination : IndexSet.t :=
  IndexSet.mk [entry 2 0 owner true; entry 3 1 owner true] 0.

End Scenario.

(** ** The merge as the specification words it

    Both streams ascend in the global index.  The next received pair is
    compared with the local pair at [j]: equal, a match is emitted and
    both streams advance; received smaller, the received pair is dropped;
    received larger, [j] advances.  The merge ends with the received
    stream (and has nothing left to emit once the local pairs are used
    up).  A received pair is its global index and its attribute, a local
    pair its address and its global index. *)
Fixpoint merge_spec (received : list (Z * Z)) (local : list (pointer * Z))
  : RemoteIndexList :=
  match received with
  | [] => []
  | r :: received' =>
    (fix against (local : list (pointer * Z)) : RemoteIndexList :=
       match local with
       | [] => []
       | l :: local' =>
         if fst r =? snd l then
           RemoteIndex.make (snd r) (fst l) :: merge_spec received' local'
         else if fst r <? snd l then merge_spec received' local
         else against local'
       end) local
  end.

(** The packed form of a received pair. *)
Definition record_bytes (r : Z * Z) : list Z := le_bytes 4 (fst r) ++ [snd r].

Definition record_ok (r : Z * Z) : Prop := int_ok (fst r) ∧ byte_ok (snd r).

(** A local array of pointers with the global index each points to. *)
Definition with_globals (m : memory) (local : list pointer) : option (list (pointer * Z)) :=
  mapM (fun ptr => g ← IndexPair.global <$> deref m ptr; Some (ptr, g)) local.

(** The global indices of the entries of a list of remote indices. *)
Definition globals_of (m : memory) (l : RemoteIndexList) : option (list Z) :=
  mapM (fun r => IndexPair.global <$> RemoteIndex.localIndexPair m r) l.

(** The buffer holds the packed pairs [rs] one after the other from
    [position] on. *)
Fixpoint holds_records (buffer : list Z) (position : Z) (rs : list (Z * Z)) : Prop :=
  match rs with
  | [] => True
  | r :: rs' =>
    slice position 5 buffer = record_bytes r
    ∧ holds_records buffer (position + 5) rs'
  end.

(** What [MPI_Unpack] leaves in the pair [index]: the global index and the
    attribute come from the buffer, the other members stay (the local
    index passes through its four bytes). *)
Definition unpacked (index : IndexPair.t) (g a : Z) : IndexPair.t :=
  IndexPair.mk g
    (ParallelLocalIndex.mk
       (le_value (le_bytes 4 (ParallelLocalIndex.localIndex_ (IndexPair.local_ index))))
       a
       (ParallelLocalIndex.public_ (IndexPair.local_ index))
       (ParallelLocalIndex.state_ (IndexPair.local_ index))).

(** The global indices of the entries of a list ascend strictly. *)
Definition list_ascending (m : memory) (l : RemoteIndexList) : Prop :=
  ∃ gs, globals_of m l = Some gs ∧ StronglySorted Z.lt gs.

(** The pointers [packEntries] stores for an index set: one for every
    published pair, in the order of the set. *)
Fixpoint published (ignorePublic : bool) (indexSet : Z) (k : nat)
         (rest : list IndexPair.t) : list pointer :=
  match rest with
  | [] => []
  | index :: rest' =>
    if ignorePublic || ParallelLocalIndex.isPublic (IndexPair.local index)
    then Pointer indexSet k :: published ignorePublic indexSet (S k) rest'
    else published ignorePublic indexSet (S k) rest'
  end.

(** *** The statement about buildLocal *)

(** Two pairs that belong together: the same global index, and both
    public unless [ignorePublic]. *)
Definition copies (ignorePublic : bool) (s d : IndexPair.t) : Prop :=
  IndexPair.global s = IndexPair.global d
  ∧ (ignorePublic = true
     ∨ (ParallelLocalIndex.isPublic (IndexPair.local s) = true
        ∧ ParallelLocalIndex.isPublic (IndexPair.local d) = true)).

(** The test of the loop of [buildLocal]. *)
Definition copy_test (ignorePublic : bool) (s d : IndexPair.t) : bool :=
  (IndexPair.global d =? IndexPair.global s)
  && (ignorePublic
      || ParallelLocalIndex.isPublic (IndexPair.local d)
         && ParallelLocalIndex.isPublic (IndexPair.local s)).

(** The entry of [copyLocal_] made of two pairs: their local indices as
    [int]. *)
Definition copy_of (s d : IndexPair.t) : Z * Z :=
  (to_int (ParallelLocalIndex.local (IndexPair.local s)),
   to_int (ParallelLocalIndex.local (IndexPair.local d))).

Definition ascending_pairs (l : list IndexPair.t) : Prop :=
  StronglySorted Z.lt (map IndexPair.global l).

(** The outcome is not the fault of the iteration bound. *)
Definition within_bound {A} (o : outcome A) : Prop := o ≠ Fault LOOP_BOUND.

(** *** The invariant of the ring loop *)

(** The arrays hold the pointers to the published pairs. *)
Definition arrays_ok (ignorePublic : bool) (p : process) (l : locals) : Prop :=
  sourcePairs l
  = published ignorePublic (RemoteIndices.source_ (this p)) 0
              (IndexSet.pairs (mem p (RemoteIndices.source_ (this p))))
  ∧ (sendTwo l = true ->
     destPairs_new l
     = published ignorePublic (RemoteIndices.dest_ (this p)) 0
                 (IndexSet.pairs (mem p (RemoteIndices.dest_ (this p))))).

(** Every entry of [remoteIndices_] points to two live lists whose global
    indices ascend. *)
Definition entries_ok (p : process) : Prop :=
  ∀ q send receive,
    RemoteIndices.remoteIndices_ (this p) !! q = Some (send, receive) ->
    ∃ sent received,
      list_at (heap p) send = Some sent
      ∧ list_at (heap p) receive = Some received
      ∧ list_ascending (mem p) sent
      ∧ list_ascending (mem p) received.

Definition sets_ascending (p : process) : Prop :=
  ∀ a, IndexSet.ascending (mem p a).

(** A process at the entry of the ring loop, and after a hop. *)
Definition at_entry (ignorePublic : bool) (st : process * locals) : Prop :=
  sets_ascending (fst st) ∧ entries_ok (fst st)
  ∧ ∃ rank procs maxPublish,
      snd st = BuildRemote.prepare ignorePublic rank procs maxPublish (fst st).

Definition after_hop (ignorePublic : bool) (st : process * locals) : Prop :=
  sets_ascending (fst st) ∧ entries_ok (fst st)
  ∧ arrays_ok ignorePublic (fst st) (snd st).

(** ** MultiTypeBlockVector: the infinity norm *)

Module MultiTypeBlockVector.

(** [field_type] is [double]: IEEE 754 binary64. *)
Definition prec : Z := 53.
Definition emax : Z := 1024.
Definition real_type : Type := spec_float.

Definition add : real_type -> real_type -> real_type := SFadd prec emax.
Definition mul : real_type -> real_type -> real_type := SFmul prec emax.
Definition div : real_type -> real_type -> real_type := SFdiv prec emax.

(** [std::max(a, b)] is [(a < b) ? b : a]. *)
Definition max (a b : real_type) : real_type := if SFltb a b then b else a.

(** The literals [0.0] and [1.0]. *)
Definition zero : real_type := S754_zero false.
Definition one : real_type := S754_finite false 4503599627370496 (-52).

(** A vector is represented by the values [std::get<i>(a).infinity_norm()]
    of its blocks, in the order of the tuple. *)
Definition vector : Type := list real_type.

(** [MultiTypeBlockVector_InfinityNorm<count,T,true>::resultHelper]. *)
Fixpoint resultHelper (count : nat) (a : vector) : real_type * real_type :=
  match count with
  | O => (zero, one)
  | S count' =>
    let rest := resultHelper count' a in
    let norm := nth count' a zero in
    (max norm (fst rest), add norm (snd rest))
  end.

(** [MultiTypeBlockVector_InfinityNorm<count,T,true>::result]; the
    specialisation for [count = 0] returns [0.0]. *)
Definition result (count : nat) (a : vector) : real_type :=
  match count with
  | O => zero
  | S _ =>
    let ret := resultHelper count a in
    mul (fst ret) (div (snd ret) (snd ret))
  end.

(** [MultiTypeBlockVector::infinity_norm()]. *)
Definition infinity_norm (a : vector) : real_type :=
  result (List.length a) a.

(** The two quantities the specification names: the maximum of the
    norms of the blocks and 1 plus their sum, both taken block after
    block. *)
Definition maximum (a : vector) : real_type :=
  fold_left (fun m norm => max norm m) a zero.
Definition one_plus_sum (a : vector) : real_type :=
  fold_left (fun s norm => add norm s) a one.

Definition is_nan (x : real_type) : Prop := x = S754_nan.

Definition is_finite (x : real_type) : Prop :=
  match x with
  | S754_zero _ | S754_finite _ _ _ => True
  | _ => False
  end.

(** A finite value that is not negative, in its binary64 form. *)
Definition finite_nonneg (x : real_type) : Prop :=
  match x with
  | S754_zero _ => True
  | S754_finite false m e => bounded prec emax m e = true
  | _ => False
  end.

(** [DBL_MAX]. *)
Definition DBL_MAX : real_type := SFmax_float prec emax.

(** What the running sum is as long as the norms are finite and not
    negative: a positive finite value, or positive infinity after an
    overflow. *)
Definition grown (x : real_type) : Prop :=
  match x with
  | S754_finite false _ e => emin prec emax <= e
  | S754_infinity false => True
  | _ => False
  end.

(** [MultiTypeBlockVector_Norm<count,T>::result]; here a vector is
    represented by the values [std::get<i>(a).two_norm2()] of its
    blocks. *)
Fixpoint Norm_result (count : nat) (a : vector) : real_type :=
  match count with
  | O => zero
  | S count' => add (nth count' a zero) (Norm_result count' a)
  end.

(** [MultiTypeBlockVector::two_norm2()] and [two_norm()]. *)
Definition two_norm2 (a : vector) : real_type := Norm_result (List.length a) a.

Definition sqrt : real_type -> real_type := SFsqrt prec emax.

Definition two_norm (a : vector) : real_type := sqrt (two_norm2 a).

(** [MultiTypeBlockVector_InfinityNorm<count,T,false>::result] for
    [count] at least 1, here [S count']: the specialisation without NaN
    tracking.  Its call for the blocks before the last names the class
    with two arguments, so that the third is again [has_nan] of the
    field type, which is [double]: the call is to [result]. *)
Definition InfinityNorm_false_result (count' : nat) (a : vector) : real_type :=
  max (nth count' a zero) (result count' a).

(** [operator*] and [dot]: [result] starts at 0 and the product of each
    pair of blocks is added, in the order of the tuple.  The two vectors
    are represented by the products of their blocks, the values added to
    [result]. *)
Definition dot (products : vector) : real_type :=
  fold_left (fun result product => add result product) products zero.

(** Zero, a positive finite value or positive infinity. *)
Definition not_negative (x : real_type) : Prop :=
  match x with
  | S754_zero false | S754_finite false _ _ | S754_infinity false => True
  | _ => False
  end.

End MultiTypeBlockVector.

(** ** What unpackIndices reads

    The global index of the last local pair, and the number of received
    pairs that are not beyond it. *)
Definition last_global (located : list (pointer * Z)) : option Z :=
  snd <$> last located.

Definition count_le (g : option Z) (received : list (Z * Z)) : nat :=
  match g with
  | None => 0%nat
  | Some g => List.length (List.filter (fun r => fst r <=? g) received)
  end.

(** The number of pairs [unpackIndices] unpacks from a stream: the pairs
    that are not beyond the last local pair and one more, as far as the
    stream has them. *)
Definition records_read (received : list (Z * Z)) (located : list (pointer * Z)) : nat :=
  Nat.min (List.length received) (1 + count_le (last_global located) received).

(** The entries of the received pairs that have a local pair of their
    global index: one entry for each such received pair, in the order
    received, made of the attribute received and the pointer to the
    local pair. *)
Definition common_entries (received : list (Z * Z)) (located : list (pointer * Z))
  : RemoteIndexList :=
  omap (fun r => (fun l => RemoteIndex.make (snd r) (fst l))
                   <$> List.find (fun l => snd l =? fst r) located)
       received.

(** ** What packEntries packs

    The pairs of an index set that are published, in the order of the
    set, and what is packed of a pair: its global index and its
    attribute. *)
Definition published_pairs (ignorePublic : bool) (rest : list IndexPair.t)
  : list IndexPair.t :=
  List.filter
    (fun index => ignorePublic || ParallelLocalIndex.isPublic (IndexPair.local index))
    rest.

Definition pair_record (p : IndexPair.t) : Z * Z :=
  (IndexPair.global p, ParallelLocalIndex.attribute_ (IndexPair.local p)).

Definition packed_pairs (l : list IndexPair.t) : list Z :=
  flat_map (fun p => record_bytes (pair_record p)) l.

(** ** What the ring loop keeps

    The members of a process that [buildRemote] does not write. *)
Definition same_frame (p p' : process) : Prop :=
  mem p' = mem p ∧ stale p' = stale p
  ∧ RemoteIndices.source_ (this p') = RemoteIndices.source_ (this p)
  ∧ RemoteIndices.dest_ (this p') = RemoteIndices.dest_ (this p)
  ∧ RemoteIndices.comm_ (this p') = RemoteIndices.comm_ (this p)
  ∧ RemoteIndices.sourceSeqNo_ (this p') = RemoteIndices.sourceSeqNo_ (this p)
  ∧ RemoteIndices.destSeqNo_ (this p') = RemoteIndices.destSeqNo_ (this p)
  ∧ RemoteIndices.copyLocal_ (this p') = RemoteIndices.copyLocal_ (this p).

(** Every key of [remoteIndices_] is the peer of a hop before [proc]. *)
Definition peers_before (proc : Z) (l : locals) (x : RemoteIndices.t) : Prop :=
  ∀ q v, RemoteIndices.remoteIndices_ x !! q = Some v ->
         ∃ j, 1 <= j < proc ∧ q = BuildRemote.remoteProc j l.

(** The two lists of an entry: made after address [base], live, not both
    empty, the receive list of pointers to published pairs of the
    destination set, the send list of pointers to published pairs of
    the source set. *)
Definition entry_ok (ignorePublic : bool) (base : nat) (p : process)
           (send receive : nat) : Prop :=
  (base <= send)%nat ∧ (base <= receive)%nat
  ∧ ∃ sent received,
      list_at (heap p) send = Some sent
      ∧ list_at (heap p) receive = Some received
      ∧ (sent ≠ [] ∨ received ≠ [])
      ∧ map RemoteIndex.localIndex_ received
        `sublist_of` published ignorePublic (RemoteIndices.dest_ (this p)) 0
                       (IndexSet.pairs (mem p (RemoteIndices.dest_ (this p))))
      ∧ map RemoteIndex.localIndex_ sent
        `sublist_of` published ignorePublic (RemoteIndices.source_ (this p)) 0
                       (IndexSet.pairs (mem p (RemoteIndices.source_ (this p)))).

(** Every live list from address [base] on belongs to an entry of
    [remoteIndices_], and two entries have no list in common. *)
Definition owned (base : nat) (p : process) : Prop :=
  (∀ a l, (base <= a)%nat -> list_at (heap p) a = Some l ->
          ∃ q s r, RemoteIndices.remoteIndices_ (this p) !! q = Some (s, r)
                   ∧ (a = s ∨ a = r))
  ∧ (∀ q q' s r s' r',
        q ≠ q' ->
        RemoteIndices.remoteIndices_ (this p) !! q = Some (s, r) ->
        RemoteIndices.remoteIndices_ (this p) !! q' = Some (s', r') ->
        s ≠ s' ∧ s ≠ r' ∧ r ≠ s' ∧ r ≠ r').

(** A process in the ring loop before the hop [proc], against the process
    at the entry of the loop. *)
Definition ring_inv (ignorePublic : bool) (proc : Z) (st0 st : process * locals) : Prop :=
  same_frame (fst st0) (fst st)
  ∧ rank (snd st) = rank (snd st0)
  ∧ procs (snd st) = procs (snd st0)
  ∧ sendTwo (snd st)
    = negb (RemoteIndices.source_ (this (fst st)) =? RemoteIndices.dest_ (this (fst st)))
  ∧ (proc = 1 ->
     ∃ maxPublish,
       snd st = BuildRemote.prepare ignorePublic (rank (snd st0)) (procs (snd st0))
                                    maxPublish (fst st))
  ∧ (proc ≠ 1 -> arrays_ok ignorePublic (fst st) (snd st))
  ∧ 0 <= rank (snd st0) < procs (snd st0)
  ∧ (∃ cells, heap (fst st) = heap (fst st0) ++ cells)
  ∧ peers_before proc (snd st) (this (fst st))
  ∧ (∀ q s r,
        RemoteIndices.remoteIndices_ (this (fst st)) !! q = Some (s, r) ->
        entry_ok ignorePublic (List.length (heap (fst st0))) (fst st) s r)
  ∧ owned (List.length (heap (fst st0))) (fst st).

(** ** The message of the first hop

    The header: the four bytes of the flag, the number of source pairs
    and the number of destination pairs, each an [int] of four bytes. *)
Definition header (flag : list Z) (sourcePublish destPublish : Z) : list Z :=
  flag ++ int_image sourcePublish ++ int_image destPublish.

(** The header, whose flag is the [bool] followed by the three bytes
    that lie behind it on the process, the published pairs of the source
    index set and, when two index sets are sent, those of the
    destination index set. *)
Definition first_message_bytes (ignorePublic : bool) (p : process) : list Z :=
  let '(sendTwo, sourcePublish, destPublish) := BuildRemote.to_publish ignorePublic p in
  header (BuildRemote.sendTwo_int p sendTwo) sourcePublish destPublish
  ++ packed_pairs (published_pairs ignorePublic
                     (IndexSet.pairs (mem p (RemoteIndices.source_ (this p)))))
  ++ (if sendTwo
      then packed_pairs (published_pairs ignorePublic
                           (IndexSet.pairs (mem p (RemoteIndices.dest_ (this p)))))
      else []).

(** The index sets of a process are small enough for the size of the
    buffer and the counts of the header to be [int]s. *)
Definition sizes_fit (p : process) : Prop :=
  5 * (IndexSet.size (mem p (RemoteIndices.source_ (this p)))
       + IndexSet.size (mem p (RemoteIndices.dest_ (this p)))) + 12 < 2 ^ 31.

(** ** One index set for both directions

    A message that begins with the header of a process that sends one
    index set, of [n] published pairs, whatever the four bytes of the
    flag are, and is long enough for the first pair when there is one;
    [B] is the size of the buffers. *)
Definition one_set_message (B : Z) (m : list Z) : Prop :=
  ∃ n flag, 0 <= n ∧ 5 * n + 12 <= B
            ∧ List.length flag = 4%nat
            ∧ take 12 m = header flag n 0
            ∧ 12 <= Z.of_nat (List.length m) <= B
            ∧ (n ≠ 0 -> 17 <= Z.of_nat (List.length m)).

(** A process of a communicator of [P] processes that sends one index
    set and has found no remote index. *)
Definition one_set_state (P B : Z) (st : process * locals) : Prop :=
  RemoteIndices.remoteIndices_ (this (fst st)) = ∅
  ∧ sendTwo (snd st) = false
  ∧ destPublish (snd st) = 0
  ∧ type (snd st) = MPITraits.PairType_type
  ∧ bufferSize (snd st) = B
  ∧ List.length (buffer0 (snd st)) = Z.to_nat B
  ∧ List.length (buffer1 (snd st)) = Z.to_nat B
  ∧ 0 <= rank (snd st) < procs (snd st)
  ∧ procs (snd st) = P.

(** ** Two processes with a source and a destination index set each

    The pointers to the published pairs of an index set, each with the
    global index of its pair: the local pairs as [unpackIndices] meets
    them. *)
Definition located_published (ignorePublic : bool) (m : memory) (indexSet : Z)
  : list (pointer * Z) :=
  zip (published ignorePublic indexSet 0 (IndexSet.pairs (m indexSet)))
      (map IndexPair.global
           (published_pairs ignorePublic (IndexSet.pairs (m indexSet)))).

(** The stream of the pairs [sent] is unpacked to its end against the
    published pairs of the index set: at most one pair of the stream
    lies beyond the last of them. *)
Definition stream_read (ignorePublic : bool) (sent : list IndexPair.t)
           (m : memory) (indexSet : Z) : Prop :=
  records_read (map pair_record sent) (located_published ignorePublic m indexSet)
  = List.length sent.

(** The list [l] has an entry for exactly the pairs of [sent] whose
    global index a published pair of the index set has: the attribute of
    the pair sent with the pointer to the pair of the set. *)
Definition entries_of (ignorePublic : bool) (sent : list IndexPair.t)
           (m : memory) (indexSet : Z) (l : RemoteIndexList) : Prop :=
  ∀ e, In e l
       ↔ ∃ s k d,
           In s sent
           ∧ IndexSet.pairs (m indexSet) !! k = Some d
           ∧ ignorePublic || ParallelLocalIndex.isPublic (IndexPair.local d) = true
           ∧ IndexPair.global d = IndexPair.global s
           ∧ e = RemoteIndex.make (ParallelLocalIndex.attribute (IndexPair.local s))
                                  (Pointer indexSet k).

(** A process with two index sets whose pairs can be packed and ascend
    in the global index. *)
Definition two_sets_ok (p : process) : Prop :=
  RemoteIndices.source_ (this p) ≠ RemoteIndices.dest_ (this p)
  ∧ Forall IndexPair.ok (IndexSet.pairs (mem p (RemoteIndices.source_ (this p))))
  ∧ IndexSet.ascending (mem p (RemoteIndices.source_ (this p)))
  ∧ Forall IndexPair.ok (IndexSet.pairs (mem p (RemoteIndices.dest_ (this p))))
  ∧ IndexSet.ascending (mem p (RemoteIndices.dest_ (this p))).

(** What the process [p] holds of its peer [q], of rank [peer], when it
    has become [p']: a receive list of the source pairs of [q] that its
    destination set has and a send list of the destination pairs of [q]
    that its source set has, under the key [peer]; nothing when both
    lists are empty. *)
Definition found (ignorePublic : bool) (q p : process) (peer : Z) (p' : process) : Prop :=
  ∃ sent received,
    entries_of ignorePublic
               (published_pairs ignorePublic
                  (IndexSet.pairs (mem q (RemoteIndices.source_ (this q)))))
               (mem p) (RemoteIndices.dest_ (this p)) received
    ∧ entries_of ignorePublic
                 (published_pairs ignorePublic
                    (IndexSet.pairs (mem q (RemoteIndices.dest_ (this q)))))
                 (mem p) (RemoteIndices.source_ (this p)) sent
    ∧ if bool_decide (sent = []) && bool_decide (received = [])
      then RemoteIndices.remoteIndices_ (this p') = ∅
      else ∃ send receive,
          send ≠ receive
          ∧ RemoteIndices.remoteIndices_ (this p') = {[ peer := (send, receive) ]}
          ∧ list_at (heap p') send = Some sent
          ∧ list_at (heap p') receive = Some received.

(** * Properties *)

(** * The codec *)

Section Codec.

Lemma le_value_le_bytes (n : nat) (x : Z) :
  le_value (le_bytes n x) = x mod 256 ^ Z.of_nat n.
Proof.
  revert x. induction n as [|n IH]; intros x.
  - simpl. symmetry. apply Z.mod_1_r.
  - cbn [le_bytes le_value]. rewrite IH.
    rewrite Nat2Z.inj_succ, Z.pow_succ_r by lia.
    rewrite (Z.rem_mul_r x 256 (256 ^ Z.of_nat n)) by lia.
    reflexivity.
Qed.

Lemma length_le_bytes (n : nat) (x : Z) : List.length (le_bytes n x) = n.
Proof. revert x. induction n; intros; simpl; auto. Qed.

Lemma to_int_uint32 (x : Z) : int_ok x -> to_int (x mod 2 ^ 32) = x.
Proof.
  unfold int_ok, to_int. intros Hx.
  rewrite Z.add_mod_idemp_l by lia.
  rewrite Z.mod_small; lia.
Qed.

Lemma int_roundtrip (x : Z) : int_ok x -> to_int (le_value (le_bytes 4 x)) = x.
Proof.
  intros Hx. rewrite le_value_le_bytes.
  change (256 ^ Z.of_nat 4) with (2 ^ 32). apply to_int_uint32, Hx.
Qed.

(** A byte read as a [char] and cast back is the byte. *)
Lemma to_char_of_char (b : Z) : byte_ok b -> to_char (of_char b) = b.
Proof.
  unfold byte_ok, to_char, of_char. intros Hb.
  destruct (Z.ltb_spec b 128).
  - apply Z.mod_small. lia.
  - replace (b - 256) with (b + (-1) * 256) by lia.
    rewrite Z.mod_add by lia. apply Z.mod_small. lia.
Qed.

Lemma make_of_char (b : Z) (ptr : pointer) :
  byte_ok b -> RemoteIndex.make (of_char b) ptr = RemoteIndex.make b ptr.
Proof.
  intros Hb. unfold RemoteIndex.make. rewrite to_char_of_char by assumption.
  unfold to_char, byte_ok in *. rewrite Z.mod_small by lia. reflexivity.
Qed.

Lemma make_attribute (s : IndexPair.t) (ptr : pointer) :
  IndexPair.ok s ->
  RemoteIndex.make (ParallelLocalIndex.attribute (IndexPair.local s)) ptr
  = RemoteIndex.make (ParallelLocalIndex.attribute_ (IndexPair.local s)) ptr.
Proof. intros (_ & _ & Ha & _). apply make_of_char, Ha. Qed.

Lemma typemap_PairType : typemap MPITraits.PairType_type = [(B_INT, 0); (B_CHAR, 8)].
Proof. reflexivity. Qed.

Lemma packed_size_PairType : packed_size MPITraits.PairType_type = 5.
Proof. reflexivity. Qed.

(** The handle does not depend on the addresses of the two [rep] arrays. *)
Lemma getType_IndexPair_rep (rep rep' : Z) :
  MPITraits.getType_IndexPair rep rep' = MPITraits.PairType_type.
Proof.
  unfold MPITraits.PairType_type, MPITraits.getType_IndexPair,
    MPITraits.getType_ParallelLocalIndex, MPITraits.rebase, MPI_Address.
  cbn -[Z.add Z.sub].
  assert (Hd : ∀ a off, a + off - (a + 0) = off) by (intros; lia).
  rewrite !Hd. reflexivity.
Qed.

Lemma gather_pair (p : IndexPair.t) :
  gather (typemap MPITraits.PairType_type) (IndexPair.image p)
  = le_bytes 4 (IndexPair.global_ p)
    ++ [ParallelLocalIndex.attribute_ (IndexPair.local_ p)].
Proof. reflexivity. Qed.

Lemma slice_length (off n : Z) (l : list Z) :
  0 <= off -> 0 <= n -> off + n <= Z.of_nat (List.length l) ->
  List.length (slice off n l) = Z.to_nat n.
Proof.
  intros. unfold slice. rewrite length_take, length_drop. lia.
Qed.

Lemma slice_blit (off : Z) (bs l : list Z) :
  0 <= off -> off + Z.of_nat (List.length bs) <= Z.of_nat (List.length l) ->
  slice off (Z.of_nat (List.length bs)) (blit off bs l) = bs.
Proof.
  intros Hoff Hlen. unfold slice, blit.
  rewrite drop_app_length'.
  2:{ rewrite length_take. lia. }
  rewrite Nat2Z.id. rewrite take_app_length. reflexivity.
Qed.

Lemma blit_length (off : Z) (bs l : list Z) :
  0 <= off -> off + Z.of_nat (List.length bs) <= Z.of_nat (List.length l) ->
  List.length (blit off bs l) = List.length l.
Proof.
  intros. unfold blit. rewrite !length_app, length_take, length_drop. lia.
Qed.

Lemma MPI_Pack_pair (p : IndexPair.t) (outbuf : list Z) (outsize position : Z) :
  0 <= position -> position + 5 <= outsize ->
  outsize <= Z.of_nat (List.length outbuf) ->
  pack_pair p MPITraits.PairType_type outbuf outsize position
  = Done (blit position
            (le_bytes 4 (IndexPair.global_ p)
             ++ [ParallelLocalIndex.attribute_ (IndexPair.local_ p)]) outbuf,
          position + 5).
Proof.
  intros H0 H1 H2. unfold pack_pair, MPI_Pack.
  rewrite packed_size_PairType, gather_pair.
  rewrite decide_True by lia. reflexivity.
Qed.

Lemma list_of_length_5 (l : list Z) :
  List.length l = 5%nat -> ∃ b0 b1 b2 b3 b4, l = [b0; b1; b2; b3; b4].
Proof.
  destruct l as [|b0 [|b1 [|b2 [|b3 [|b4 [|]]]]]]; simpl; try discriminate.
  intros _. eauto 6.
Qed.

Lemma unpack_pair_bytes (inbuf : list Z) (insize position : Z)
      (index : IndexPair.t) (b0 b1 b2 b3 b4 : Z) :
  0 <= position -> position + 5 <= insize ->
  insize <= Z.of_nat (List.length inbuf) ->
  slice position 5 inbuf = [b0; b1; b2; b3; b4] ->
  unpack_pair inbuf insize position index MPITraits.PairType_type
  = Done (unpacked index (to_int (le_value [b0; b1; b2; b3])) b4, position + 5).
Proof.
  intros H0 H1 H2 Hs. unfold unpack_pair, MPI_Unpack.
  rewrite packed_size_PairType, typemap_PairType.
  rewrite decide_True by lia. rewrite Hs.
  destruct index as [g [li a pu st]]. reflexivity.
Qed.

Lemma unpack_pair_total (inbuf : list Z) (insize position : Z) (index : IndexPair.t) :
  0 <= position -> position + 5 <= insize ->
  insize <= Z.of_nat (List.length inbuf) ->
  ∃ g a, unpack_pair inbuf insize position index MPITraits.PairType_type
         = Done (unpacked index g a, position + 5).
Proof.
  intros H0 H1 H2.
  destruct (list_of_length_5 (slice position 5 inbuf)) as (b0 & b1 & b2 & b3 & b4 & Hs).
  { rewrite slice_length; lia. }
  eexists _, _. eapply unpack_pair_bytes; eassumption.
Qed.

Lemma unpack_pair_record (inbuf : list Z) (insize position : Z)
      (index : IndexPair.t) (r : Z * Z) :
  0 <= position -> position + 5 <= insize ->
  insize <= Z.of_nat (List.length inbuf) ->
  int_ok (fst r) ->
  slice position 5 inbuf = record_bytes r ->
  unpack_pair inbuf insize position index MPITraits.PairType_type
  = Done (unpacked index (fst r) (snd r), position + 5).
Proof.
  intros H0 H1 H2 Hr Hs.
  rewrite (unpack_pair_bytes inbuf insize position index
             (fst r mod 256) (fst r / 256 mod 256) (fst r / 256 / 256 mod 256)
             (fst r / 256 / 256 / 256 mod 256) (snd r)); try assumption.
  change [fst r mod 256; fst r / 256 mod 256; fst r / 256 / 256 mod 256;
          fst r / 256 / 256 / 256 mod 256] with (le_bytes 4 (fst r)).
  rewrite int_roundtrip by assumption. reflexivity.
Qed.

End Codec.

(** C7.  Packing an index pair with the datatype that [getType] commits
    (wherever its [rep] arrays lie) and unpacking the bytes gives back its
    global index and its attribute exactly.  The
    packed bytes are the four bytes of the global index and the attribute
    byte, nothing else; the public flag and the state of the pair that
    comes out are those the receiving pair had before, not those of the
    original. *)
Theorem pack_unpack_IndexPair
        (rep rep' : Z) (p index : IndexPair.t)
        (buffer : list Z) (bufferSize position : Z) :
  IndexPair.ok p ->
  0 <= position -> position + 5 <= bufferSize ->
  bufferSize <= Z.of_nat (List.length buffer) ->
  ∃ packed q,
    pack_pair p (MPITraits.getType_IndexPair rep rep') buffer bufferSize position
    = Done (packed, position + 5)
    ∧ slice position 5 packed
      = le_bytes 4 (IndexPair.global p)
        ++ [to_char (ParallelLocalIndex.attribute (IndexPair.local p))]
    ∧ unpack_pair packed bufferSize position index
                  (MPITraits.getType_IndexPair rep rep')
      = Done (q, position + 5)
    ∧ IndexPair.global q = IndexPair.global p
    ∧ ParallelLocalIndex.attribute (IndexPair.local q)
      = ParallelLocalIndex.attribute (IndexPair.local p)
    ∧ ParallelLocalIndex.isPublic (IndexPair.local q)
      = ParallelLocalIndex.isPublic (IndexPair.local index)
    ∧ ParallelLocalIndex.state (IndexPair.local q)
      = ParallelLocalIndex.state (IndexPair.local index).
Proof.
  rewrite getType_IndexPair_rep.
  intros [Hg (_ & Ha & _)] H0 H1 H2.
  unfold ParallelLocalIndex.attribute at 1. unfold IndexPair.local at 1.
  rewrite (to_char_of_char _ Ha).
  set (bs := le_bytes 4 (IndexPair.global_ p)
             ++ [ParallelLocalIndex.attribute_ (IndexPair.local_ p)]).
  assert (Hlen : List.length bs = 5%nat) by reflexivity.
  assert (Hs : slice position 5 (blit position bs buffer) = bs).
  { change 5 with (Z.of_nat 5). rewrite <- Hlen. apply slice_blit; lia. }
  exists (blit position bs buffer),
         (unpacked index (IndexPair.global_ p)
                   (ParallelLocalIndex.attribute_ (IndexPair.local_ p))).
  split; [apply MPI_Pack_pair; assumption|].
  split; [exact Hs|].
  split.
  - apply (unpack_pair_record _ _ _ _
             (IndexPair.global_ p, ParallelLocalIndex.attribute_ (IndexPair.local_ p)));
      try assumption.
    rewrite blit_length; lia.
  - repeat split.
Qed.

(** C7 at a public border pair with global index -7, unpacked into a
    default-constructed pair: the result is not public. *)
Lemma pack_unpack_IndexPair_witness :
  let p := Scenario.entry (-7) 3 Scenario.border true in
  ∃ packed q,
    pack_pair p MPITraits.PairType_type (replicate 8 0) 8 2 = Done (packed, 7)
    ∧ slice 2 5 packed = [249; 255; 255; 255; 1]
    ∧ unpack_pair packed 8 2 IndexPair.make0 MPITraits.PairType_type = Done (q, 7)
    ∧ IndexPair.global q = -7
    ∧ ParallelLocalIndex.attribute (IndexPair.local q) = Scenario.border
    ∧ ParallelLocalIndex.isPublic (IndexPair.local q) = false
    ∧ ParallelLocalIndex.state (IndexPair.local q) = VALID.
Proof.
  cbv zeta.
  apply (pack_unpack_IndexPair 0 0 (Scenario.entry (-7) 3 Scenario.border true)
           IndexPair.make0 (replicate 8 0) 8 2).
  - vm_compute. intuition discriminate.
  - lia.
  - lia.
  - simpl. lia.
Defined.

(** * buildLocal *)

Section BuildLocal.
Import RemoteIndices.
Variable ignorePublic : bool.

Lemma copy_test_spec (s d : IndexPair.t) :
  copy_test ignorePublic s d = true ↔ copies ignorePublic s d.
Proof.
  unfold copy_test, copies.
  rewrite andb_true_iff, orb_true_iff, andb_true_iff, Z.eqb_eq.
  intuition.
Qed.

Lemma buildLocal_loop_nil_r (ss : list IndexPair.t) :
  buildLocal_loop ignorePublic ss [] = [].
Proof. destruct ss; reflexivity. Qed.

Lemma buildLocal_loop_cons (s d : IndexPair.t) (ss ds : list IndexPair.t) :
  buildLocal_loop ignorePublic (s :: ss) (d :: ds) =
  if copy_test ignorePublic s d then copy_of s d :: buildLocal_loop ignorePublic ss ds
  else if IndexPair.global d <? IndexPair.global s
       then buildLocal_loop ignorePublic (s :: ss) ds
       else buildLocal_loop ignorePublic ss (d :: ds).
Proof. reflexivity. Qed.

Lemma ascending_pairs_cons (x : IndexPair.t) (l : list IndexPair.t) :
  ascending_pairs (x :: l) ->
  (∀ y, In y l -> IndexPair.global x < IndexPair.global y) ∧ ascending_pairs l.
Proof.
  unfold ascending_pairs. cbn [map]. intros H.
  apply StronglySorted_inv in H as [Hl Hx]. split; [|assumption].
  intros y Hy. rewrite List.Forall_forall in Hx. apply Hx, in_map, Hy.
Qed.

Lemma buildLocal_loop_In (ss ds : list IndexPair.t) (c : Z * Z) :
  ascending_pairs ss -> ascending_pairs ds ->
  In c (buildLocal_loop ignorePublic ss ds)
  ↔ ∃ s d, In s ss ∧ In d ds ∧ copies ignorePublic s d ∧ c = copy_of s d.
Proof.
  revert ds. induction ss as [|s ss IHs]; intros ds Hss Hds.
  { cbn. split; [tauto|]. intros (s & d & [] & _). }
  apply ascending_pairs_cons in Hss as Hs. destruct Hs as [Hs Hss'].
  induction ds as [|d ds IHd].
  { rewrite buildLocal_loop_nil_r. split; [intros []|]. intros (s0 & d0 & _ & [] & _). }
  apply ascending_pairs_cons in Hds as Hd. destruct Hd as [Hd Hds'].
  rewrite buildLocal_loop_cons.
  destruct (copy_test ignorePublic s d) eqn:Htest.
  - apply copy_test_spec in Htest as Hc. pose proof Hc as [Hg _].
    cbn [In]. rewrite (IHs ds Hss' Hds'). split.
    + intros [<-|(s0 & d0 & Hs0 & Hd0 & Hc0 & ->)].
      * exists s, d. cbn [In]. auto.
      * exists s0, d0. cbn [In]. auto.
    + intros (s0 & d0 & [<-|Hs0] & [<-|Hd0] & Hc0 & ->).
      * left. reflexivity.
      * destruct Hc0 as [Hg0 _]. specialize (Hd _ Hd0). lia.
      * destruct Hc0 as [Hg0 _]. specialize (Hs _ Hs0). lia.
      * right. exists s0, d0. auto.
  - assert (Hn : ¬ copies ignorePublic s d).
    { rewrite <- copy_test_spec, Htest. discriminate. }
    destruct (Z.ltb_spec (IndexPair.global d) (IndexPair.global s)) as [Hlt|Hge].
    + rewrite (IHd Hds'). split.
      * intros (s0 & d0 & Hs0 & Hd0 & Hc0 & ->).
        exists s0, d0. cbn [In]. auto.
      * intros (s0 & d0 & Hs0 & [<-|Hd0] & Hc0 & ->).
        -- destruct Hc0 as [Hg0 _]. destruct Hs0 as [<-|Hs0]; [lia|].
           specialize (Hs _ Hs0). lia.
        -- exists s0, d0. auto.
    + rewrite (IHs (d :: ds) Hss' Hds). split.
      * intros (s0 & d0 & Hs0 & Hd0 & Hc0 & ->).
        exists s0, d0. cbn [In]. auto.
      * intros (s0 & d0 & [<-|Hs0] & Hd0 & Hc0 & ->).
        -- destruct Hd0 as [<-|Hd0]; [contradiction|].
           destruct Hc0 as [Hg0 _]. specialize (Hd _ Hd0). lia.
        -- exists s0, d0. auto.
Qed.

(** The copies come out with their global indices ascending. *)
Lemma buildLocal_loop_ascending (ss ds : list IndexPair.t) :
  ascending_pairs ss -> ascending_pairs ds ->
  ∃ gs, StronglySorted Z.lt gs
        ∧ Forall2 (fun g c => ∃ s d, In s ss ∧ In d ds
                                     ∧ IndexPair.global s = g
                                     ∧ IndexPair.global d = g
                                     ∧ c = copy_of s d)
                  gs (buildLocal_loop ignorePublic ss ds).
Proof.
  revert ds. induction ss as [|s ss IHs]; intros ds Hss Hds.
  { exists []. split; constructor. }
  apply ascending_pairs_cons in Hss as Hs. destruct Hs as [Hs Hss'].
  induction ds as [|d ds IHd].
  { rewrite buildLocal_loop_nil_r. exists []. split; constructor. }
  apply ascending_pairs_cons in Hds as Hd. destruct Hd as [Hd Hds'].
  rewrite buildLocal_loop_cons.
  destruct (copy_test ignorePublic s d) eqn:Htest.
  - apply copy_test_spec in Htest as [Hg _].
    destruct (IHs ds Hss' Hds') as (gs & Hsorted & Hall).
    exists (IndexPair.global s :: gs). split.
    + constructor; [assumption|].
      clear Hsorted. induction Hall as [|g c gs cs (s0 & d0 & Hs0 & _ & <- & _) _ IH];
        constructor; auto.
    + constructor.
      * exists s, d. cbn [In]. auto.
      * eapply Forall2_impl; [exact Hall|].
        intros g c (s0 & d0 & ? & ? & ? & ? & ?). exists s0, d0. cbn [In]. auto.
  - destruct (Z.ltb_spec (IndexPair.global d) (IndexPair.global s)) as [Hlt|Hge].
    + destruct (IHd Hds') as (gs & Hsorted & Hall).
      exists gs. split; [assumption|].
      eapply Forall2_impl; [exact Hall|].
      intros g c (s0 & d0 & ? & ? & ? & ? & ?). exists s0, d0. cbn [In]. auto.
    + destruct (IHs (d :: ds) Hss' Hds) as (gs & Hsorted & Hall).
      exists gs. split; [assumption|].
      eapply Forall2_impl; [exact Hall|].
      intros g c (s0 & d0 & ? & ? & ? & ? & ?). exists s0, d0. cbn [In]. auto.
Qed.

End BuildLocal.

(** X19.  After [buildLocal<ignorePublic>()] on a source and a
    destination index set that ascend strictly in the global index,
    [copyLocal_] contains a pair exactly when it is made of the local
    indices (as [int]) of a source pair and a destination pair that have
    the same global index and are both public unless [ignorePublic]; and
    the global indices of its entries ascend. *)
Theorem buildLocal_copyLocal (ignorePublic : bool) (m : memory) (x : RemoteIndices.t) :
  IndexSet.ascending (m (RemoteIndices.source_ x)) ->
  IndexSet.ascending (m (RemoteIndices.dest_ x)) ->
  let source := IndexSet.pairs (m (RemoteIndices.source_ x)) in
  let dest := IndexSet.pairs (m (RemoteIndices.dest_ x)) in
  let copyLocal := RemoteIndices.copyLocal_ (RemoteIndices.buildLocal ignorePublic m x) in
  (∀ c, In c copyLocal
        ↔ ∃ s d, In s source ∧ In d dest ∧ copies ignorePublic s d ∧ c = copy_of s d)
  ∧ ∃ gs, StronglySorted Z.lt gs
          ∧ Forall2 (fun g c => ∃ s d, In s source ∧ In d dest
                                       ∧ IndexPair.global s = g
                                       ∧ IndexPair.global d = g
                                       ∧ c = copy_of s d)
                    gs copyLocal.
Proof.
  intros Hs Hd. cbv zeta. unfold RemoteIndices.buildLocal. cbn [RemoteIndices.copyLocal_ RemoteIndices.set_copyLocal_].
  split.
  - intros c. apply buildLocal_loop_In; assumption.
  - apply buildLocal_loop_ascending; assumption.
Qed.

(** * unpackIndices against the merge of the specification *)

Ltac run_outcome :=
  unfold mbind, outcome_bind, mret, outcome_ret; cbn [or_fault].

Section Merge.
Import RemoteIndices.

Variable m : memory.
Variable local : list pointer.
Variable localEntries : Z.
Variable located : list (pointer * Z).
Variable p_in : list Z.
Variable bufferSize : Z.

Hypothesis Hsize : bufferSize <= Z.of_nat (List.length p_in).
Hypothesis Hentries : 0 <= localEntries <= Z.of_nat (List.length local).
Hypothesis Hlocated :
  with_globals m (take (Z.to_nat localEntries) local) = Some located.

Lemma located_length : List.length located = Z.to_nat localEntries.
Proof.
  unfold with_globals in Hlocated. apply length_mapM in Hlocated.
  rewrite length_take in Hlocated. lia.
Qed.

Lemma located_lookup (j : nat) (l : pointer * Z) :
  located !! j = Some l ->
  local !! j = Some (fst l)
  ∧ ∃ here, deref m (fst l) = Some here ∧ IndexPair.global here = snd l.
Proof.
  intros Hj. unfold with_globals in Hlocated.
  apply mapM_Some in Hlocated.
  destruct (Forall2_lookup_r _ _ _ _ _ Hlocated Hj) as (ptr & Hptr & Hf).
  apply lookup_take_Some in Hptr as [Hptr _].
  destruct (deref m ptr) as [here|] eqn:Hd; simpl in Hf; [|discriminate].
  injection Hf as <-. simpl. split; [assumption|]. eauto.
Qed.

Lemma unpackIndices_loop_merge (bound : nat) :
  ∀ (remote : RemoteIndexList) (r : Z * Z) (rs : list (Z * Z))
    (index : IndexPair.t) (n_in j position : Z),
    IndexPair.global index = fst r ->
    ParallelLocalIndex.attribute_ (IndexPair.local_ index) = snd r ->
    byte_ok (snd r) ->
    Forall record_ok rs ->
    holds_records p_in position rs ->
    0 <= position ->
    position + 5 * Z.of_nat (List.length rs) <= bufferSize ->
    0 <= j <= localEntries ->
    (List.length (drop (Z.to_nat j) located) + List.length rs <= bound)%nat ->
    ∃ position',
      unpackIndices_loop bound m remote (n_in + 1 + Z.of_nat (List.length rs))
        local localEntries p_in MPITraits.PairType_type position bufferSize
        index n_in j
      = Done (remote ++ merge_spec (r :: rs) (drop (Z.to_nat j) located), position')
      ∧ position <= position' <= position + 5 * Z.of_nat (List.length rs).
Proof.
  pose proof located_length as Hlen.
  induction bound as [|bound IH];
    intros remote r rs index n_in j position Hg Ha Hb Hok Hrs Hpos Hfit Hj Hbound.
  - (* no turn left: the local pairs are used up *)
    assert (Hnil : drop (Z.to_nat j) located = []).
    { apply length_zero_iff_nil. lia. }
    assert (j = localEntries).
    { apply (f_equal List.length) in Hnil. rewrite length_drop in Hnil. simpl in Hnil. lia. }
    subst j. cbn [unpackIndices_loop]. rewrite Z.ltb_irrefl.
    rewrite Hnil. exists position. split; [|lia].
    destruct r; cbn [merge_spec]. rewrite app_nil_r. reflexivity.
  - cbn [unpackIndices_loop].
    destruct (Z.ltb_spec j localEntries) as [Hlt|Hge].
    + destruct (lookup_lt_is_Some_2 located (Z.to_nat j)) as [l Hl]; [lia|].
      destruct (located_lookup _ _ Hl) as (Hptr & here & Hhere & Hglobal).
      rewrite (drop_S _ _ _ Hl).
      replace (0 <=? j) with true by (symmetry; apply Z.leb_le; lia).
      rewrite Hptr. run_outcome.
      rewrite Hhere. run_outcome.
      rewrite Hglobal, Hg.
      replace (S (Z.to_nat j)) with (Z.to_nat (j + 1)) by lia.
      cbn [merge_spec].
      rewrite (Z.eqb_sym (fst r) (snd l)).
      destruct (Z.eqb_spec (snd l) (fst r)) as [Heq|Hne].
      * (* a match *)
        unfold ParallelLocalIndex.attribute, IndexPair.local.
        rewrite Ha, (make_of_char _ _ Hb).
        destruct rs as [|r' rs'].
        -- replace (n_in + 1 <? n_in + 1 + Z.of_nat (List.length (@nil (Z * Z))))
             with false by (symmetry; apply Z.ltb_ge; simpl; lia).
           exists position. split; [|simpl; lia]. reflexivity.
        -- replace (n_in + 1 <? n_in + 1 + Z.of_nat (List.length (r' :: rs')))
             with true by (symmetry; apply Z.ltb_lt; simpl; lia).
           destruct Hrs as [Hr' Hrs'].
           apply Forall_cons in Hok as [[Hr'ok Hr'b] Hok].
           cbn [List.length] in Hfit.
           rewrite (unpack_pair_record p_in bufferSize position index r')
             by (try assumption; lia).
           run_outcome.
           destruct (IH (remote ++ [RemoteIndex.make (snd r) (fst l)]) r' rs'
                       (unpacked index (fst r') (snd r')) (n_in + 1) (j + 1)
                       (position + 5))
             as (position' & Hrun & Hposition'); try reflexivity; try assumption; try lia.
           { rewrite (drop_S _ _ _ Hl) in Hbound. cbn [List.length] in Hbound.
             replace (Z.to_nat (j + 1)) with (S (Z.to_nat j)) by lia. lia. }
           exists position'. split; [|cbn [List.length]; lia].
           replace (n_in + 1 + Z.of_nat (List.length (r' :: rs')))
             with (n_in + 1 + 1 + Z.of_nat (List.length rs'))
             by (cbn [List.length]; lia).
           rewrite Hrun. rewrite <- app_assoc. reflexivity.
      * destruct (Z.ltb_spec (snd l) (fst r)) as [Hlt'|Hge'].
        -- (* the local pair is smaller: next local pair *)
           replace (fst r <? snd l) with false by (symmetry; apply Z.ltb_ge; lia).
           destruct (IH remote r rs index n_in (j + 1) position)
             as (position' & Hrun & Hposition'); try assumption; try lia.
           { rewrite (drop_S _ _ _ Hl) in Hbound. cbn [List.length] in Hbound.
             replace (Z.to_nat (j + 1)) with (S (Z.to_nat j)) by lia. lia. }
           exists position'. split; [|lia].
           rewrite Hrun. reflexivity.
        -- (* the received pair is smaller: it is dropped *)
           replace (fst r <? snd l) with true by (symmetry; apply Z.ltb_lt; lia).
           destruct rs as [|r' rs'].
           ++ replace (n_in + 1 <? n_in + 1 + Z.of_nat (List.length (@nil (Z * Z))))
                with false by (symmetry; apply Z.ltb_ge; simpl; lia).
              exists position. split; [|simpl; lia].
              cbn [merge_spec]. rewrite app_nil_r. reflexivity.
           ++ replace (n_in + 1 <? n_in + 1 + Z.of_nat (List.length (r' :: rs')))
                with true by (symmetry; apply Z.ltb_lt; simpl; lia).
              destruct Hrs as [Hr' Hrs'].
              apply Forall_cons in Hok as [[Hr'ok Hr'b] Hok].
              cbn [List.length] in Hfit.
              rewrite (unpack_pair_record p_in bufferSize position index r')
                by (try assumption; lia).
              run_outcome.
              destruct (IH remote r' rs'
                          (unpacked index (fst r') (snd r')) (n_in + 1) j
                          (position + 5))
                as (position' & Hrun & Hposition'); try reflexivity; try assumption; try lia.
              { cbn [List.length] in Hbound. lia. }
              exists position'. split; [|cbn [List.length]; lia].
              replace (n_in + 1 + Z.of_nat (List.length (r' :: rs')))
                with (n_in + 1 + 1 + Z.of_nat (List.length rs'))
                by (cbn [List.length]; lia).
              rewrite Hrun.
              rewrite (drop_S _ _ _ Hl).
              replace (S (Z.to_nat j)) with (Z.to_nat (j + 1)) by lia.
              reflexivity.
    + assert (Hnil : drop (Z.to_nat j) located = []).
      { apply drop_ge. lia. }
      rewrite Hnil. exists position. split; [|lia].
      destruct r; cbn [merge_spec]. rewrite app_nil_r. reflexivity.
Qed.

End Merge.

(** * Invariants of the ring *)

Lemma bind_Done {A B} (e : outcome A) (k : A -> outcome B) (b : B) :
  e ≫= k = Done b -> ∃ a, e = Done a ∧ k a = Done b.
Proof. destruct e as [a|f]; [eauto|discriminate]. Qed.

Lemma or_fault_Done {A} (f : fault) (o : option A) (a : A) :
  or_fault f o = Done a -> o = Some a.
Proof. destruct o; simpl; congruence. Qed.

Lemma mapM_Done {A B} (f : A -> outcome B) (l : list A) (k : list B) :
  mapM f l = Done k -> Forall2 (fun x y => f x = Done y) l k.
Proof.
  revert k. induction l as [|x l IH]; intros k H.
  - injection H as <-. constructor.
  - cbn [mapM] in H.
    apply bind_Done in H as (y & Hy & H).
    apply bind_Done in H as (k' & Hk' & H).
    injection H as <-. constructor; auto.
Qed.

Tactic Notation "bind_inv" hyp(H) "as" ident(a) ident(Ha) :=
  apply bind_Done in H as (a & Ha & H).

Tactic Notation "bind_inv" hyp(H) :=
  let a := fresh "a" in
  let Ha := fresh "H" a in
  apply bind_Done in H as (a & Ha & H).

Section Unpack.
Import RemoteIndices.
Variable m : memory.

Lemma unpackIndices_loop_entries (bound : nat) :
  ∀ remote remoteEntries local localEntries p_in type position bufferSize
    index n_in j remote' position',
    0 <= j ->
    unpackIndices_loop bound m remote remoteEntries local localEntries
                       p_in type position bufferSize index n_in j
    = Done (remote', position') ->
    ∃ new, remote' = remote ++ new
           ∧ map RemoteIndex.localIndex_ new
             `sublist_of` drop (Z.to_nat j) (take (Z.to_nat localEntries) local)
           ∧ Forall (fun e => is_Some (deref m (RemoteIndex.localIndex_ e))) new.
Proof.
  induction bound as [|bound IH];
    intros remote remoteEntries local localEntries p_in type position bufferSize
           index n_in j remote' position' Hj H; cbn [unpackIndices_loop] in H.
  - destruct (j <? localEntries); [discriminate|].
    injection H as <- <-. exists []. rewrite app_nil_r.
    split; [reflexivity|]. split; [apply sublist_nil_l|constructor].
  - destruct (Z.ltb_spec j localEntries) as [Hlt|Hge].
    2:{ injection H as <- <-. exists []. rewrite app_nil_r.
        split; [reflexivity|]. split; [apply sublist_nil_l|constructor]. }
    replace (0 <=? j) with true in H by (symmetry; apply Z.leb_le; lia).
    bind_inv H. apply or_fault_Done in Ha.
    bind_inv H. apply or_fault_Done in Ha0.
    assert (Hdrop : drop (Z.to_nat j) (take (Z.to_nat localEntries) local)
                    = a :: drop (Z.to_nat (j + 1)) (take (Z.to_nat localEntries) local)).
    { replace (Z.to_nat (j + 1)) with (S (Z.to_nat j)) by lia.
      apply drop_S. apply lookup_take_Some. split; [assumption|lia]. }
    rewrite Hdrop.
    destruct (IndexPair.global a0 =? IndexPair.global index).
    + destruct (n_in + 1 <? remoteEntries).
      * bind_inv H. destruct a1 as [index1 position1].
        apply IH in H as (new & -> & Hsub & Hall); [|lia].
        eexists (_ :: new). rewrite <- app_assoc. split; [reflexivity|].
        split.
        -- cbn [map RemoteIndex.make RemoteIndex.localIndex_]. apply sublist_skip, Hsub.
        -- constructor; [|assumption]. cbn. rewrite Ha0. eauto.
      * injection H as <- <-. eexists [_]. split; [reflexivity|]. split.
        -- cbn [map RemoteIndex.make RemoteIndex.localIndex_].
           apply sublist_skip, sublist_nil_l.
        -- constructor; [|constructor]. cbn. rewrite Ha0. eauto.
    + destruct (IndexPair.global a0 <? IndexPair.global index).
      * apply IH in H as (new & -> & Hsub & Hall); [|lia].
        exists new. split; [reflexivity|]. split; [|assumption].
        apply sublist_cons, Hsub.
      * destruct (n_in + 1 <? remoteEntries).
        -- bind_inv H. destruct a1 as [index1 position1].
           apply IH in H as (new & -> & Hsub & Hall); [|lia].
           exists new. split; [reflexivity|]. split; [|assumption].
           rewrite <- Hdrop. exact Hsub.
        -- injection H as <- <-. exists []. rewrite app_nil_r.
           split; [reflexivity|]. split; [apply sublist_nil_l|constructor].
Qed.

Lemma unpackIndices_entries remote remoteEntries local localEntries
      p_in type position bufferSize remote' position' :
  unpackIndices m remote remoteEntries local localEntries
                p_in type position bufferSize
  = Done (remote', position') ->
  ∃ new, remote' = remote ++ new
         ∧ map RemoteIndex.localIndex_ new `sublist_of` local
         ∧ Forall (fun e => is_Some (deref m (RemoteIndex.localIndex_ e))) new.
Proof.
  unfold unpackIndices. intros H.
  destruct (remoteEntries =? 0).
  - injection H as <- <-. exists []. rewrite app_nil_r.
    split; [reflexivity|]. split; [apply sublist_nil_l|constructor].
  - bind_inv H. destruct a as [index position1].
    apply unpackIndices_loop_entries in H as (new & -> & Hsub & Hall); [|lia].
    exists new. split; [reflexivity|]. split; [|assumption].
    etransitivity; [exact Hsub|]. cbn [Z.to_nat drop].
    apply sublist_take.
Qed.
End Unpack.

(** ** The arrays of pointers *)

Section Published.
Import RemoteIndices.
Variable ignorePublic : bool.
Variable indexSet : Z.

Lemma published_length (k : nat) (rest : list IndexPair.t) :
  List.length (published ignorePublic indexSet k rest)
  = if ignorePublic then List.length rest
    else List.length
           (filter (fun p => ParallelLocalIndex.isPublic (IndexPair.local p) = true) rest).
Proof.
  revert k. induction rest as [|x rest IH]; intros k; cbn [published].
  - destruct ignorePublic; reflexivity.
  - destruct ignorePublic; cbn [orb].
    + cbn [List.length]. rewrite IH. reflexivity.
    + rewrite filter_cons.
      destruct (ParallelLocalIndex.isPublic (IndexPair.local x)) eqn:Hx.
      * rewrite decide_True by reflexivity. cbn [List.length]. rewrite IH. reflexivity.
      * rewrite decide_False by discriminate. apply IH.
Qed.

Lemma published_sublist (k : nat) (rest : list IndexPair.t) :
  published ignorePublic indexSet k rest
  `sublist_of` map (Pointer indexSet) (seq k (List.length rest)).
Proof.
  revert k. induction rest as [|x rest IH]; intros k; cbn [published List.length seq map].
  - constructor.
  - destruct (ignorePublic || ParallelLocalIndex.isPublic (IndexPair.local x)).
    + apply sublist_skip, IH.
    + apply sublist_cons, IH.
Qed.

Lemma packEntries_loop_pairs (rest : list IndexPair.t) :
  ∀ k pairs i p_out type bufferSize position pairs' p_out' position',
    packEntries_loop ignorePublic indexSet k rest pairs i
                     p_out type bufferSize position
    = Done (pairs', p_out', position') ->
    pairs' = take i pairs ++ published ignorePublic indexSet k rest
             ++ drop (i + List.length (published ignorePublic indexSet k rest)) pairs.
Proof.
  induction rest as [|x rest IH];
    intros k pairs i p_out type bufferSize position pairs' p_out' position' H;
    cbn [packEntries_loop published] in *.
  - injection H as <- <- <-. cbn [app List.length].
    rewrite Nat.add_0_r, take_drop. reflexivity.
  - destruct (ignorePublic || ParallelLocalIndex.isPublic (IndexPair.local x)).
    + bind_inv H. destruct a as [out1 position1].
      bind_inv H. unfold array_store in Ha0.
      destruct (decide (i < List.length pairs)%nat) as [Hi|]; [|discriminate].
      injection Ha0 as <-.
      apply IH in H. rewrite H. cbn [List.length].
      rewrite take_S_r with (x := Pointer indexSet k)
        by (apply list_lookup_insert_eq; assumption).
      rewrite take_insert_ge by lia.
      replace (S i + List.length (published ignorePublic indexSet (S k) rest))%nat
        with (i + S (List.length (published ignorePublic indexSet (S k) rest)))%nat by lia.
      rewrite drop_insert_lt by lia.
      rewrite <- app_assoc. reflexivity.
    + apply IH in H. exact H.
Qed.

Lemma packEntries_pairs (m : memory) (n : Z)
      p_out type bufferSize position pairs' p_out' position' :
  Z.to_nat n = List.length (published ignorePublic indexSet 0 (IndexSet.pairs (m indexSet))) ->
  packEntries ignorePublic m (new_pointers n) indexSet p_out type bufferSize position
  = Done (pairs', p_out', position') ->
  pairs' = published ignorePublic indexSet 0 (IndexSet.pairs (m indexSet)).
Proof.
  intros Hn H. unfold packEntries in H.
  apply packEntries_loop_pairs in H. rewrite H.
  cbn [take app]. rewrite drop_ge.
  - apply app_nil_r.
  - unfold new_pointers. rewrite length_replicate. lia.
Qed.
End Published.

(** ** Sortedness carried by the pointers *)

Lemma map_fmap {A B} (f : A -> B) (l : list A) : map f l = f <$> l.
Proof. reflexivity. Qed.

Lemma StronglySorted_sublist {A} (R : relation A) (l k : list A) :
  l `sublist_of` k -> StronglySorted R k -> StronglySorted R l.
Proof.
  induction 1 as [|x l k Hsub IH|x l k Hsub IH]; intros Hk.
  - constructor.
  - apply StronglySorted_inv in Hk as [Hk Hx]. constructor; [auto|].
    rewrite List.Forall_forall in *. intros y Hy. apply Hx.
    apply list_elem_of_In. eapply sublist_subseteq; [exact Hsub|].
    apply list_elem_of_In, Hy.
  - apply StronglySorted_inv in Hk as [Hk _]. auto.
Qed.

Lemma mapM_sublist {A B} (f : A -> option B) (l l' : list A) (k : list B) :
  l' `sublist_of` l -> mapM f l = Some k ->
  ∃ k', mapM f l' = Some k' ∧ k' `sublist_of` k.
Proof.
  intros Hsub. revert k.
  induction Hsub as [|x l' l Hsub IH|x l' l Hsub IH]; intros k Hk.
  - exists []. split; [reflexivity|apply sublist_nil_l].
  - cbn [mapM] in *. destruct (f x) as [y|]; [|discriminate]. cbn in *.
    destruct (mapM f l) as [k0|]; [|discriminate]. cbn in Hk. injection Hk as <-.
    destruct (IH k0 eq_refl) as (k' & -> & Hk'). cbn.
    exists (y :: k'). split; [reflexivity|apply sublist_skip, Hk'].
  - cbn [mapM] in Hk. destruct (f x) as [y|]; [|discriminate]. cbn in Hk.
    destruct (mapM f l) as [k0|]; [|discriminate]. cbn in Hk. injection Hk as <-.
    destruct (IH k0 eq_refl) as (k' & -> & Hk').
    exists k'. split; [reflexivity|apply sublist_cons, Hk'].
Qed.

Lemma mapM_map {A B C} (f : B -> option C) (g : A -> B) (l : list A) :
  mapM f (map g l) = mapM (fun x => f (g x)) l.
Proof.
  induction l as [|x l IH]; [reflexivity|].
  cbn [map mapM]. rewrite IH. reflexivity.
Qed.

Lemma globals_of_all_pointers (m : memory) (indexSet : Z) :
  mapM (fun p => IndexPair.global <$> deref m p)
       (map (Pointer indexSet) (seq 0 (List.length (IndexSet.pairs (m indexSet)))))
  = Some (map IndexPair.global (IndexSet.pairs (m indexSet))).
Proof.
  apply mapM_Some_2.
  apply Forall2_same_length_lookup_2.
  - rewrite !length_map, length_seq. reflexivity.
  - intros i x y Hx Hy.
    rewrite map_fmap, list_lookup_fmap in Hx.
    rewrite map_fmap, list_lookup_fmap in Hy.
    destruct (seq 0 (List.length (IndexSet.pairs (m indexSet))) !! i) as [j|] eqn:Hj;
      [|discriminate].
    apply lookup_seq in Hj as [-> _]. injection Hx as <-.
    unfold deref. cbn [object element].
    destruct (IndexSet.pairs (m indexSet) !! i) as [pr|]; [|discriminate].
    injection Hy as <-. reflexivity.
Qed.

Lemma published_list_ascending (ignorePublic : bool) (m : memory) (indexSet : Z)
      (l : RemoteIndexList) :
  IndexSet.ascending (m indexSet) ->
  map RemoteIndex.localIndex_ l
  `sublist_of` published ignorePublic indexSet 0 (IndexSet.pairs (m indexSet)) ->
  list_ascending m l.
Proof.
  intros Hasc Hsub.
  assert (Hall : map RemoteIndex.localIndex_ l
                 `sublist_of` map (Pointer indexSet)
                                  (seq 0 (List.length (IndexSet.pairs (m indexSet))))).
  { etransitivity; [exact Hsub|apply published_sublist]. }
  destruct (mapM_sublist _ _ _ _ Hall (globals_of_all_pointers m indexSet))
    as (gs & Hgs & Hsubgs).
  exists gs. split.
  - unfold globals_of, RemoteIndex.localIndexPair.
    rewrite mapM_map in Hgs. exact Hgs.
  - eapply StronglySorted_sublist; [exact Hsubgs|exact Hasc].
Qed.

(** ** One hop on one process *)

Section Hop.
Import RemoteIndices BuildRemote.

Lemma insert_at_end {A} (h : list A) (x y : A) :
  <[List.length h := y]> (h ++ [x]) = h ++ [y].
Proof.
  rewrite insert_app_r_alt by lia. rewrite Nat.sub_diag. reflexivity.
Qed.

Lemma hop_lists_shape (proc : Z) (p : process) (l l' : locals)
      (h : store) (send receive : nat) (twoIndexSets : Z) :
  hop_lists proc p l = Done (l', h, send, receive, twoIndexSets) ->
  receive = List.length (heap p)
  ∧ l' = set_position (position l') l
  ∧ ∃ received,
      map RemoteIndex.localIndex_ received `sublist_of` destPairs l
      ∧ if negb (twoIndexSets =? 0) || sendTwo l
        then send = S (List.length (heap p))
             ∧ ∃ sent, h = heap p ++ [Some received; Some sent]
                       ∧ map RemoteIndex.localIndex_ sent `sublist_of` sourcePairs l
        else send = receive ∧ h = heap p ++ [Some received].
Proof.
  unfold hop_lists. intros H.
  bind_inv H. destruct a as [two position1].
  bind_inv H. destruct a as [noReceive position2].
  bind_inv H. destruct a as [noSend position3].
  cbn [new_list] in H.
  bind_inv H. destruct a as [received position4].
  apply unpackIndices_entries in Ha2 as (new & Hnew & Hsub & _).
  cbn [app] in Hnew. subst new.
  rewrite insert_at_end in H.
  destruct (negb (two =? 0) || sendTwo l) eqn:Htwo.
  - bind_inv H. destruct a as [sent position5].
    apply unpackIndices_entries in Ha2 as (new & Hnew & Hsub' & _).
    cbn [app] in Hnew. subst new.
    injection H as <- <- <- <- <-.
    split; [reflexivity|]. split; [reflexivity|].
    exists received. split; [assumption|]. rewrite Htwo.
    split; [rewrite length_app; cbn [List.length]; lia|].
    exists sent. split; [|assumption].
    replace (List.length (heap p ++ [Some received]))
      with (List.length (heap p ++ [Some received]) + 0)%nat by lia.
    rewrite insert_app_r. cbn. rewrite <- app_assoc. reflexivity.
  - injection H as <- <- <- <- <-.
    split; [reflexivity|]. split; [reflexivity|].
    exists received. split; [assumption|]. rewrite Htwo. auto.
Qed.

(** The lists of a hop are live in the store the hop leaves. *)
Lemma hop_lists_live (proc : Z) (p : process) (l l' : locals)
      (h : store) (send receive : nat) (twoIndexSets : Z) :
  hop_lists proc p l = Done (l', h, send, receive, twoIndexSets) ->
  ∃ sent received,
    list_at h send = Some sent ∧ list_at h receive = Some received
    ∧ map RemoteIndex.localIndex_ received `sublist_of` destPairs l
    ∧ (send = receive ∨ map RemoteIndex.localIndex_ sent `sublist_of` sourcePairs l)
    ∧ (send = receive -> sent = received)
    ∧ (List.length (heap p) <= receive)%nat
    ∧ (List.length (heap p) <= send)%nat
    ∧ ∀ a, (a < List.length (heap p))%nat -> h !! a = heap p !! a.
Proof.
  intros H. apply hop_lists_shape in H as (-> & _ & received & Hsub & H).
  destruct (negb (twoIndexSets =? 0) || sendTwo l).
  - destruct H as (-> & sent & -> & Hsub').
    exists sent, received. unfold list_at.
    split.
    { rewrite lookup_app_r by lia.
      replace (S (List.length (heap p)) - List.length (heap p))%nat with 1%nat by lia.
      reflexivity. }
    split.
    { rewrite lookup_app_r by lia. rewrite Nat.sub_diag. reflexivity. }
    split; [assumption|]. split; [right; assumption|].
    split; [lia|]. split; [lia|]. split; [lia|].
    intros a Ha. apply lookup_app_l, Ha.
  - destruct H as (-> & ->).
    exists received, received. unfold list_at.
    split.
    { rewrite lookup_app_r by lia. rewrite Nat.sub_diag. reflexivity. }
    split.
    { rewrite lookup_app_r by lia. rewrite Nat.sub_diag. reflexivity. }
    split; [assumption|]. split; [left; reflexivity|].
    split; [reflexivity|]. split; [lia|]. split; [lia|].
    intros a Ha. apply lookup_app_l, Ha.
Qed.

Lemma delete_list_live (a : nat) (h : store) (l : RemoteIndexList) :
  list_at h a = Some l -> delete_list a h = Done (<[a := None]> h).
Proof.
  unfold list_at, delete_list. destruct (h !! a) as [[l0|]|]; congruence.
Qed.

Lemma list_at_insert_ne (h : store) (a b : nat) (c : option RemoteIndexList) :
  a ≠ b -> list_at (<[a := c]> h) b = list_at h b.
Proof. intros. unfold list_at. rewrite list_lookup_insert_ne by assumption. reflexivity. Qed.

Lemma list_at_insert_None (h : store) (a : nat) :
  list_at (<[a := None]> h) a = None.
Proof.
  unfold list_at. destruct (decide (a < List.length h)%nat).
  - rewrite list_lookup_insert_eq by assumption. reflexivity.
  - rewrite list_insert_ge by lia. rewrite lookup_ge_None_2 by lia. reflexivity.
Qed.

(** What [hop_store] does with two live lists. *)
Lemma hop_store_live (remoteProc : Z) (send receive : nat) (h : store)
      (x : RemoteIndices.t) (sent received : RemoteIndexList) :
  list_at h send = Some sent ->
  list_at h receive = Some received ->
  ∃ h' x',
    hop_store remoteProc send receive h x = Done (h', x')
    ∧ if bool_decide (sent = []) && bool_decide (received = [])
      then x' = x
           ∧ list_at h' send = None ∧ list_at h' receive = None
           ∧ (∀ a, a ≠ send -> a ≠ receive -> h' !! a = h !! a)
      else h' = h
           ∧ x' = set_remoteIndices_
                    (std_map_insert remoteProc (send, receive) (remoteIndices_ x)) x.
Proof.
  intros Hs Hr. unfold hop_store. rewrite Hs, Hr. run_outcome.
  destruct (bool_decide (sent = []) && bool_decide (received = [])).
  - destruct (bool_decide_reflect (send = receive)) as [->|Hne].
    + rewrite (delete_list_live _ _ _ Hr). eexists _, _. split; [reflexivity|].
      split; [reflexivity|]. split; [apply list_at_insert_None|].
      split; [apply list_at_insert_None|].
      intros a Ha _. apply list_lookup_insert_ne. congruence.
    + rewrite (delete_list_live _ _ _ Hs).
      rewrite (delete_list_live receive _ received)
        by (rewrite list_at_insert_ne by assumption; exact Hr).
      eexists _, _. split; [reflexivity|].
      split; [reflexivity|].
      split; [rewrite list_at_insert_ne by congruence; apply list_at_insert_None|].
      split; [apply list_at_insert_None|].
      intros a Ha Hb. rewrite !list_lookup_insert_ne by congruence. reflexivity.
  - eexists _, _. split; [reflexivity|]. split; reflexivity.
Qed.

End Hop.

Lemma mapM_Forall {A B} (P : A -> Prop) (Q : B -> Prop)
      (f : A -> outcome B) (l : list A) (k : list B) :
  (∀ x y, P x -> f x = Done y -> Q y) ->
  Forall P l -> mapM f l = Done k -> Forall Q k.
Proof.
  intros Hf Hl Hk. apply mapM_Done in Hk.
  induction Hk as [|x y l k Hxy _ IH]; [constructor|].
  apply Forall_cons in Hl as [Hx Hl]. constructor; eauto.
Qed.

Section RingInvariant.
Import RemoteIndices BuildRemote.
Variable ignorePublic : bool.

Lemma list_at_old (h h0 : store) (a : nat) (l : RemoteIndexList) :
  (∀ b, (b < List.length h0)%nat -> h !! b = h0 !! b) ->
  list_at h0 a = Some l -> list_at h a = Some l.
Proof.
  intros Hold Ha. unfold list_at in *.
  destruct (h0 !! a) as [c|] eqn:E; [|discriminate].
  rewrite Hold by (eapply lookup_lt_Some; exact E). rewrite E. exact Ha.
Qed.

Lemma list_at_lt (h : store) (a : nat) (l : RemoteIndexList) :
  list_at h a = Some l -> (a < List.length h)%nat.
Proof.
  unfold list_at. destruct (h !! a) as [c|] eqn:E; [|discriminate].
  intros _. eapply lookup_lt_Some; exact E.
Qed.

Lemma destPairs_published (p : process) (l : locals) :
  arrays_ok ignorePublic p l ->
  ∃ indexSet,
    destPairs l = published ignorePublic indexSet 0 (IndexSet.pairs (mem p indexSet)).
Proof.
  intros [Hs Hd]. unfold destPairs. destruct (sendTwo l); eauto.
Qed.

Lemma hop_unpack_after_hop (proc : Z) (p p' : process) (l l' : locals) :
  after_hop ignorePublic (p, l) ->
  hop_unpack proc (p, l) = Done (p', l') ->
  after_hop ignorePublic (p', l').
Proof.
  intros (Hasc & Hent & Harr) H. cbn [fst snd] in *.
  unfold hop_unpack in H.
  bind_inv H. destruct a as [[[[l1 h] send] receive] two].
  pose proof (hop_lists_shape _ _ _ _ _ _ _ _ Ha) as (_ & Hl1 & _).
  apply hop_lists_live in Ha
    as (sent & received & Hsent & Hreceived & Hsubr & Hsubs & Halias & Hr & Hs & Hold).
  destruct (hop_store_live (remoteProc proc l1) send receive h (this p)
              sent received Hsent Hreceived) as (h' & x' & Hstore & Hcases).
  rewrite Hstore in H. run_outcome. injection H as <- <-.
  assert (Hrecv_asc : list_ascending (mem p) received).
  { destruct (destPairs_published p l Harr) as (indexSet & Hdp).
    rewrite Hdp in Hsubr. eapply published_list_ascending; [apply Hasc|exact Hsubr]. }
  assert (Hsent_asc : list_ascending (mem p) sent).
  { destruct Hsubs as [Heq|Hsubs]; [rewrite (Halias Heq); assumption|].
    destruct Harr as [Hsp _]. rewrite Hsp in Hsubs.
    eapply published_list_ascending; [apply Hasc|exact Hsubs]. }
  split; [exact Hasc|]. cbn [fst snd]. split.
  - (* the entries *)
    intros q s r Hq. cbn [fst snd this heap mem set_this set_heap] in *.
    destruct (bool_decide (sent = []) && bool_decide (received = [])).
    + destruct Hcases as (-> & _ & _ & Hother).
      destruct (Hent q s r Hq) as (ls & lr & Hls & Hlr & Hals & Halr).
      exists ls, lr.
      pose proof (list_at_lt _ _ _ Hls). pose proof (list_at_lt _ _ _ Hlr).
      split; [|split; [|split; assumption]].
      * eapply list_at_old; [|exact Hls].
        intros b Hb. rewrite Hother by lia. apply Hold, Hb.
      * eapply list_at_old; [|exact Hlr].
        intros b Hb. rewrite Hother by lia. apply Hold, Hb.
    + destruct Hcases as (-> & ->).
      cbn [remoteIndices_ set_remoteIndices_] in Hq.
      assert (Hkeep : ∀ s r, remoteIndices_ (this p) !! q = Some (s, r) ->
                ∃ sent0 received0,
                  list_at h s = Some sent0 ∧ list_at h r = Some received0
                  ∧ list_ascending (mem p) sent0 ∧ list_ascending (mem p) received0).
      { intros s0 r0 Hq0.
        destruct (Hent q s0 r0 Hq0) as (ls & lr & Hls & Hlr & Hals & Halr).
        exists ls, lr. split; [|split; [|split; assumption]];
          (eapply list_at_old; [exact Hold|assumption]). }
      unfold std_map_insert in Hq.
      destruct (remoteIndices_ (this p) !! remoteProc proc l1) eqn:Hfound.
      * apply Hkeep, Hq.
      * cbv beta iota in Hq.
        destruct (decide (remoteProc proc l1 = q)) as [<-|Hne].
        -- rewrite lookup_insert_eq in Hq. injection Hq as <- <-.
           exists sent, received. auto.
        -- rewrite lookup_insert_ne in Hq by assumption. apply Hkeep, Hq.
  - (* the arrays *)
    rewrite Hl1. destruct Harr as [Hsp Hdp].
    assert (Hthis : source_ x' = source_ (this p) ∧ dest_ x' = dest_ (this p)).
    { destruct (bool_decide (sent = []) && bool_decide (received = [])).
      - destruct Hcases as (-> & _). auto.
      - destruct Hcases as (-> & ->). auto. }
    destruct Hthis as [Hsrc Hdst].
    split; cbn [this mem set_this set_heap sourcePairs destPairs_new sendTwo set_position];
      rewrite ?Hsrc, ?Hdst; assumption.
Qed.

End RingInvariant.

Section RingInvariant2.
Import RemoteIndices BuildRemote.
Variable ignorePublic : bool.

Lemma to_publish_counts (p : process) :
  let '(sendTwo, sourcePublish, destPublish) := to_publish ignorePublic p in
  Z.to_nat sourcePublish
  = List.length (published ignorePublic (source_ (this p)) 0
                           (IndexSet.pairs (mem p (source_ (this p)))))
  ∧ (sendTwo = true ->
     Z.to_nat destPublish
     = List.length (published ignorePublic (dest_ (this p)) 0
                              (IndexSet.pairs (mem p (dest_ (this p)))))).
Proof.
  unfold to_publish. rewrite !published_length.
  unfold IndexSet.size, IndexSet.noPublic.
  destruct ignorePublic; (split; [|intros ->]); lia.
Qed.

Lemma hop_pack_first (p : process) (l l' : locals) (rank procs maxPublish : Z) :
  l = prepare ignorePublic rank procs maxPublish p ->
  hop_pack ignorePublic 1 p l = Done l' ->
  arrays_ok ignorePublic p l'.
Proof.
  intros -> H. unfold hop_pack in H. cbn [Z.eqb Pos.eqb] in H.
  pose proof (to_publish_counts p) as Hcounts.
  unfold prepare in H.
  destruct (to_publish ignorePublic p) as [[two nsrc] ndst].
  destruct Hcounts as [Hsrc Hdst].
  cbn [sendTwo sourcePublish destPublish sourcePairs destPairs_new type bufferSize
       position] in H.
  bind_inv H. destruct a as [out1 position1].
  bind_inv H. destruct a as [out2 position2].
  bind_inv H. destruct a as [out3 position3].
  bind_inv H. destruct a as [[pairs1 out4] position4].
  apply packEntries_pairs in Ha2; [|assumption].
  bind_inv H. destruct a as [[pairs2 out5] position5].
  injection H as <-.
  unfold arrays_ok, set_position, set_p_out, set_pairs.
  change (Z.rem 1 2 =? 0) with false. cbv iota.
  cbn [sendTwo sourcePairs destPairs_new].
  split; [exact Ha2|].
  intros Htwo. subst two. cbv iota in Ha3.
  apply packEntries_pairs in Ha3; auto.
Qed.

Lemma hop_pack_later (proc : Z) (p : process) (l l' : locals) :
  proc ≠ 1 -> hop_pack ignorePublic proc p l = Done l' -> l' = l.
Proof.
  intros Hproc H. unfold hop_pack in H.
  destruct (Z.eqb_spec proc 1); [contradiction|]. congruence.
Qed.

Lemma hop_recv_arrays (proc : Z) (message : list Z) (p : process) (l l' : locals) :
  arrays_ok ignorePublic p l ->
  hop_recv proc message l = Done l' ->
  arrays_ok ignorePublic p l'.
Proof.
  intros Harr H. unfold hop_recv in H.
  destruct (decide (Z.of_nat (List.length message) <= bufferSize l)); [|discriminate].
  injection H as <-. unfold set_p_in.
  destruct (Z.rem proc 2 =? 0); exact Harr.
Qed.

Lemma hop_after_hop (proc : Z) (sts sts' : list (process * locals)) :
  (proc = 1 ∧ Forall (at_entry ignorePublic) sts)
  ∨ (proc ≠ 1 ∧ Forall (after_hop ignorePublic) sts) ->
  hop ignorePublic proc sts = Done sts' ->
  Forall (after_hop ignorePublic) sts'.
Proof.
  intros Hsts H. unfold hop in H.
  bind_inv H as sts1 Hpack.
  bind_inv H as sts2 Hrecv.
  assert (H1 : Forall (after_hop ignorePublic) sts1).
  { destruct Hsts as [[-> Hsts]|[Hproc Hsts]].
    - eapply mapM_Forall; [|exact Hsts|exact Hpack].
      intros [p l] st' (Hasc & Hent & rank & procs & maxPublish & Hl) Hst'.
      cbn [fst snd] in *. bind_inv Hst' as l1 Hl1. injection Hst' as <-.
      split; [assumption|]. split; [assumption|].
      eapply hop_pack_first; eassumption.
    - eapply mapM_Forall; [|exact Hsts|exact Hpack].
      intros [p l] st' Hst Hst'.
      cbn [fst snd] in *. bind_inv Hst' as l1 Hl1. injection Hst' as <-.
      apply hop_pack_later in Hl1; [|assumption]. subst. exact Hst. }
  assert (H2 : Forall (after_hop ignorePublic) sts2).
  { eapply mapM_Forall; [|exact H1|exact Hrecv].
    intros [p l] st' (Hasc & Hent & Harr) Hst'.
    cbn [fst snd] in *. bind_inv Hst' as message Hmessage.
    bind_inv Hst' as l1 Hl1. injection Hst' as <-.
    split; [assumption|]. split; [assumption|].
    eapply hop_recv_arrays; eassumption. }
  eapply mapM_Forall; [|exact H2|exact H].
  intros [p l] [p' l'] Hst Hst'. eapply hop_unpack_after_hop; eassumption.
Qed.

Lemma ring_from_after_hop (turns : nat) :
  ∀ proc sts sts',
    2 <= proc ->
    Forall (after_hop ignorePublic) sts ->
    ring_from ignorePublic turns proc sts = Done sts' ->
    Forall (after_hop ignorePublic) sts'.
Proof.
  induction turns as [|turns IH]; intros proc sts sts' Hproc Hsts H;
    cbn [ring_from] in H.
  - injection H as <-. exact Hsts.
  - bind_inv H as sts1 Hhop.
    assert (Hsts1 : Forall (after_hop ignorePublic) sts1).
    { eapply hop_after_hop; [|exact Hhop]. right. split; [lia|assumption]. }
    exact (IH (proc + 1) sts1 sts' ltac:(lia) Hsts1 H).
Qed.

Lemma ring_entries_ok (sts sts' : list (process * locals)) :
  Forall (at_entry ignorePublic) sts ->
  ring ignorePublic sts = Done sts' ->
  Forall (fun st => entries_ok (fst st)) sts'.
Proof.
  intros Hsts H. unfold ring in H.
  destruct (List.length sts - 1)%nat as [|turns]; cbn [ring_from] in H.
  - injection H as <-. eapply Forall_impl; [exact Hsts|].
    intros st (_ & Hent & _). exact Hent.
  - bind_inv H as sts1 Hhop.
    assert (Hsts1 : Forall (after_hop ignorePublic) sts1).
    { eapply hop_after_hop; [|exact Hhop]. left. auto. }
    pose proof (ring_from_after_hop turns (1 + 1) sts1 sts'
                  ltac:(lia) Hsts1 H) as Hsts'.
    eapply Forall_impl; [exact Hsts'|]. intros st (_ & Hent & _). exact Hent.
Qed.

Lemma clear_entries_ok (p : process) : entries_ok (clear p).
Proof.
  intros q s r Hq. unfold clear in Hq.
  cbn [this set_this remoteIndices_ set_remoteIndices_] in Hq.
  rewrite lookup_empty in Hq. discriminate.
Qed.

Lemma prepare_all_at_entry (ps : list process) :
  Forall sets_ascending ps ->
  Forall (at_entry ignorePublic) (prepare_all ignorePublic (map clear ps)).
Proof.
  intros Hps. unfold prepare_all.
  apply Forall_lookup_2. intros r st Hst.
  apply list_lookup_imap_Some in Hst as (p1 & Hp1 & ->).
  rewrite map_fmap, list_lookup_fmap in Hp1.
  destruct (ps !! r) as [p|] eqn:Hp; [|discriminate]. injection Hp1 as <-.
  split; [|split].
  - cbn [fst]. eapply (Forall_lookup_1 _ _ _ _ Hps Hp).
  - apply clear_entries_ok.
  - cbn [fst snd]. eauto.
Qed.

Lemma buildRemote_entries_ok (ps ps' : list process) :
  Forall sets_ascending ps ->
  buildRemote ignorePublic ps = Done ps' ->
  Forall entries_ok ps'.
Proof.
  intros Hps H. unfold buildRemote in H.
  destruct (Z.of_nat (List.length (map clear ps)) =? 1).
  - injection H as <-. apply Forall_forall. intros p Hp.
    rewrite map_fmap in Hp. apply list_elem_of_fmap in Hp as (p0 & -> & _).
    apply clear_entries_ok.
  - bind_inv H as sts Hring. injection H as <-.
    apply ring_entries_ok in Hring; [|apply prepare_all_at_entry, Hps].
    rewrite map_fmap. apply Forall_fmap. exact Hring.
Qed.

End RingInvariant2.

(** C6.  When the index sets of every process ascend strictly in the
    global index, then after [rebuild] every entry of [remoteIndices_] of
    every process points to a live send list and a live receive list
    whose entries have strictly ascending global indices. *)
Theorem remote_lists_ascending (ignorePublic : bool) (ps ps' : list process) :
  (∀ p, In p ps -> ∀ a, IndexSet.ascending (mem p a)) ->
  rebuild ignorePublic ps = Done ps' ->
  ∀ p' q send receive,
    In p' ps' ->
    RemoteIndices.remoteIndices_ (this p') !! q = Some (send, receive) ->
    ∃ sent received,
      list_at (heap p') send = Some sent
      ∧ list_at (heap p') receive = Some received
      ∧ list_ascending (mem p') sent
      ∧ list_ascending (mem p') received.
Proof.
  intros Hps H p' q send receive Hp' Hq.
  assert (Hall : Forall entries_ok ps').
  { eapply buildRemote_entries_ok; [|exact H].
    apply List.Forall_forall. exact Hps. }
  rewrite List.Forall_forall in Hall. exact (Hall p' Hp' q send receive Hq).
Qed.

(** * The iteration bound of the model is never reached *)

Section WithinBound.
Import RemoteIndices BuildRemote.

Lemma within_bound_Done {A} (a : A) : within_bound (Done a).
Proof. discriminate. Qed.

Lemma within_bound_bind {A B} (e : outcome A) (k : A -> outcome B) :
  within_bound e -> (∀ a, e = Done a -> within_bound (k a)) ->
  within_bound (e ≫= k).
Proof.
  intros He Hk. destruct e as [a|f]; cbn.
  - apply Hk. reflexivity.
  - unfold within_bound in *. congruence.
Qed.

Lemma within_bound_or_fault {A} (f : fault) (o : option A) :
  f ≠ LOOP_BOUND -> within_bound (or_fault f o).
Proof. intros Hf. destruct o; cbn; unfold within_bound; congruence. Qed.

Lemma within_bound_MPI_Pack inbuf t outbuf outsize position :
  within_bound (MPI_Pack inbuf t outbuf outsize position).
Proof. unfold MPI_Pack. case_decide; discriminate. Qed.

Lemma within_bound_MPI_Unpack inbuf insize position outbuf t :
  within_bound (MPI_Unpack inbuf insize position outbuf t).
Proof. unfold MPI_Unpack. case_decide; discriminate. Qed.

Lemma within_bound_unpack_pair inbuf insize position index t :
  within_bound (unpack_pair inbuf insize position index t).
Proof.
  unfold unpack_pair. apply within_bound_bind; [apply within_bound_MPI_Unpack|].
  intros [img pos] _. apply within_bound_Done.
Qed.

Lemma within_bound_unpack_int inbuf insize position :
  within_bound (unpack_int inbuf insize position).
Proof.
  unfold unpack_int. apply within_bound_bind; [apply within_bound_MPI_Unpack|].
  intros [img pos] _. apply within_bound_Done.
Qed.

Lemma within_bound_unpackIndices_loop (bound : nat) :
  ∀ m remote remoteEntries local localEntries p_in type position bufferSize
    index n_in j,
    (Z.to_nat (localEntries - j) + Z.to_nat (remoteEntries - n_in) <= bound)%nat ->
    within_bound
      (unpackIndices_loop bound m remote remoteEntries local localEntries
                          p_in type position bufferSize index n_in j).
Proof.
  induction bound as [|bound IH];
    intros m remote remoteEntries local localEntries p_in type position bufferSize
           index n_in j Hbound; cbn [unpackIndices_loop].
  - destruct (Z.ltb_spec j localEntries); [lia|apply within_bound_Done].
  - destruct (Z.ltb_spec j localEntries) as [Hlt|Hge]; [|apply within_bound_Done].
    apply within_bound_bind; [apply within_bound_or_fault; discriminate|].
    intros ptr _.
    apply within_bound_bind; [apply within_bound_or_fault; discriminate|].
    intros here _.
    destruct (IndexPair.global here =? IndexPair.global index).
    + destruct (Z.ltb_spec (n_in + 1) remoteEntries); [|apply within_bound_Done].
      apply within_bound_bind; [apply within_bound_unpack_pair|].
      intros [index1 position1] _. apply IH. lia.
    + destruct (IndexPair.global here <? IndexPair.global index).
      * apply IH. lia.
      * destruct (Z.ltb_spec (n_in + 1) remoteEntries); [|apply within_bound_Done].
        apply within_bound_bind; [apply within_bound_unpack_pair|].
        intros [index1 position1] _. apply IH. lia.
Qed.

Lemma within_bound_unpackIndices m remote remoteEntries local localEntries
      p_in type position bufferSize :
  within_bound
    (unpackIndices m remote remoteEntries local localEntries
                   p_in type position bufferSize).
Proof.
  unfold unpackIndices. destruct (remoteEntries =? 0); [apply within_bound_Done|].
  apply within_bound_bind; [apply within_bound_unpack_pair|].
  intros [index position1] _.
  apply within_bound_unpackIndices_loop. unfold unpackIndices_bound. lia.
Qed.

Lemma within_bound_packEntries_loop ignorePublic indexSet (rest : list IndexPair.t) :
  ∀ k pairs i p_out type bufferSize position,
    within_bound
      (packEntries_loop ignorePublic indexSet k rest pairs i
                        p_out type bufferSize position).
Proof.
  induction rest as [|x rest IH]; intros; cbn [packEntries_loop].
  - apply within_bound_Done.
  - destruct (ignorePublic || ParallelLocalIndex.isPublic (IndexPair.local x)).
    + apply within_bound_bind; [apply within_bound_MPI_Pack|].
      intros [out pos] _.
      apply within_bound_bind.
      { unfold array_store. case_decide; discriminate. }
      intros pairs1 _. apply IH.
    + apply IH.
Qed.

Lemma within_bound_mapM {A B} (f : A -> outcome B) (l : list A) :
  (∀ x, within_bound (f x)) -> within_bound (mapM f l).
Proof.
  intros Hf. induction l as [|x l IH]; cbn [mapM].
  - apply within_bound_Done.
  - apply within_bound_bind; [apply Hf|]. intros y _.
    apply within_bound_bind; [apply IH|]. intros k _. apply within_bound_Done.
Qed.

Lemma within_bound_hop_pack ignorePublic proc p l :
  within_bound (hop_pack ignorePublic proc p l).
Proof.
  unfold hop_pack. destruct (proc =? 1); [|apply within_bound_Done].
  apply within_bound_bind; [apply within_bound_MPI_Pack|]. intros [o1 p1] _.
  apply within_bound_bind; [apply within_bound_MPI_Pack|]. intros [o2 p2] _.
  apply within_bound_bind; [apply within_bound_MPI_Pack|]. intros [o3 p3] _.
  apply within_bound_bind; [apply within_bound_packEntries_loop|].
  intros [[s4 o4] p4] _.
  apply within_bound_bind.
  { destruct (sendTwo l); [apply within_bound_packEntries_loop|apply within_bound_Done]. }
  intros [[d5 o5] p5] _. apply within_bound_Done.
Qed.

Lemma within_bound_hop_unpack proc st : within_bound (hop_unpack proc st).
Proof.
  destruct st as [p l]. unfold hop_unpack.
  apply within_bound_bind.
  { unfold hop_lists.
    apply within_bound_bind; [apply within_bound_unpack_int|]. intros [two p1] _.
    apply within_bound_bind; [apply within_bound_unpack_int|]. intros [nr p2] _.
    apply within_bound_bind; [apply within_bound_unpack_int|]. intros [ns p3] _.
    cbn [new_list].
    apply within_bound_bind; [apply within_bound_unpackIndices|].
    intros [received p4] _.
    destruct (negb (two =? 0) || sendTwo l); [|apply within_bound_Done].
    apply within_bound_bind; [apply within_bound_unpackIndices|].
    intros [sent p5] _. apply within_bound_Done. }
  intros [[[[l1 h] send] receive] two] _.
  apply within_bound_bind; [|intros [h' x'] _; apply within_bound_Done].
  unfold hop_store.
  apply within_bound_bind; [apply within_bound_or_fault; discriminate|]. intros sent _.
  apply within_bound_bind; [apply within_bound_or_fault; discriminate|]. intros received _.
  assert (Hdel : ∀ a h0, within_bound (delete_list a h0)).
  { intros a h0. unfold delete_list. destruct (h0 !! a) as [[?|]|]; discriminate. }
  destruct (bool_decide (sent = []) && bool_decide (received = []));
    [|apply within_bound_Done].
  destruct (bool_decide (send = receive)).
  - apply within_bound_bind; [apply Hdel|]. intros; apply within_bound_Done.
  - apply within_bound_bind; [apply Hdel|]. intros h1 _.
    apply within_bound_bind; [apply Hdel|]. intros; apply within_bound_Done.
Qed.

Lemma within_bound_hop ignorePublic proc sts :
  within_bound (hop ignorePublic proc sts).
Proof.
  unfold hop, hop_pack_all, hop_recv_all.
  apply within_bound_bind.
  { apply within_bound_mapM. intros st.
    apply within_bound_bind; [apply within_bound_hop_pack|].
    intros; apply within_bound_Done. }
  intros sts1 _. apply within_bound_bind.
  { apply within_bound_mapM. intros st.
    apply within_bound_bind; [apply within_bound_or_fault; discriminate|].
    intros message _. apply within_bound_bind.
    - unfold hop_recv. case_decide; discriminate.
    - intros; apply within_bound_Done. }
  intros sts2 _. apply within_bound_mapM, within_bound_hop_unpack.
Qed.

Lemma within_bound_ring_from ignorePublic (turns : nat) :
  ∀ proc sts, within_bound (ring_from ignorePublic turns proc sts).
Proof.
  induction turns as [|turns IH]; intros; cbn [ring_from].
  - apply within_bound_Done.
  - apply within_bound_bind; [apply within_bound_hop|]. intros; apply IH.
Qed.

(** Whatever the processes hold, [rebuild] returns or stops on a fault of
    the program; it never stops on the bound of the model. *)
Lemma rebuild_within_bound ignorePublic ps :
  within_bound (rebuild ignorePublic ps).
Proof.
  unfold rebuild, buildRemote.
  destruct (Z.of_nat (List.length (map clear ps)) =? 1); [apply within_bound_Done|].
  apply within_bound_bind; [apply within_bound_ring_from|].
  intros; apply within_bound_Done.
Qed.

End WithinBound.

(** C8.  Once the two lists of a hop are built, the hop goes on without a
    fault.  If both lists are empty they are freed (a single [delete] when
    the two pointers are the same), every older list stays, and
    [remoteIndices_] is as before; otherwise the store is untouched and
    [(send, receive)] is inserted under the rank of the peer, where it is
    found afterwards when that rank had no entry. *)
Theorem hop_keeps_or_frees (proc : Z) (p : process) (l l1 : locals)
        (h : list (option (list RemoteIndex.t))) (send receive : nat) (twoIndexSets : Z) :
  BuildRemote.hop_lists proc p l = Done (l1, h, send, receive, twoIndexSets) ->
  ∃ sent received p',
    list_at h send = Some sent
    ∧ list_at h receive = Some received
    ∧ BuildRemote.hop_unpack proc (p, l) = Done (p', l1)
    ∧ if bool_decide (sent = []) && bool_decide (received = [])
      then RemoteIndices.remoteIndices_ (this p') = RemoteIndices.remoteIndices_ (this p)
           ∧ list_at (heap p') send = None
           ∧ list_at (heap p') receive = None
           ∧ (∀ a, (a < List.length (heap p))%nat -> heap p' !! a = heap p !! a)
      else heap p' = h
           ∧ RemoteIndices.remoteIndices_ (this p')
             = std_map_insert (BuildRemote.remoteProc proc l) (send, receive)
                              (RemoteIndices.remoteIndices_ (this p))
           ∧ (RemoteIndices.remoteIndices_ (this p) !! BuildRemote.remoteProc proc l = None ->
              RemoteIndices.remoteIndices_ (this p') !! BuildRemote.remoteProc proc l
              = Some (send, receive)).
Proof.
  intros H.
  pose proof (hop_lists_shape _ _ _ _ _ _ _ _ H) as (_ & Hl1 & _).
  pose proof (hop_lists_live _ _ _ _ _ _ _ _ H)
    as (sent & received & Hsent & Hreceived & _ & _ & _ & Hr & Hs & Hold).
  destruct (hop_store_live (BuildRemote.remoteProc proc l1) send receive h (this p)
              sent received Hsent Hreceived) as (h' & x' & Hstore & Hcases).
  exists sent, received, (set_this x' (set_heap h' p)).
  split; [assumption|]. split; [assumption|]. split.
  { unfold BuildRemote.hop_unpack. rewrite H. run_outcome. rewrite Hstore. reflexivity. }
  assert (Hproc : BuildRemote.remoteProc proc l1 = BuildRemote.remoteProc proc l).
  { rewrite Hl1. reflexivity. }
  cbn [this heap set_this set_heap].
  destruct (bool_decide (sent = []) && bool_decide (received = [])).
  - destruct Hcases as (-> & Hns & Hnr & Hother).
    split; [reflexivity|]. split; [assumption|]. split; [assumption|].
    intros a Ha. rewrite Hother by lia. apply Hold, Ha.
  - destruct Hcases as (-> & ->). rewrite Hproc.
    split; [reflexivity|]. split; [reflexivity|].
    intros Hnew. cbn [RemoteIndices.remoteIndices_ RemoteIndices.set_remoteIndices_].
    unfold std_map_insert. rewrite Hnew. apply lookup_insert_eq.
Qed.

(** C9, as amended.  [sendTwo] being [&source_ != &dest_], the pointers
    [send] and [receive] built in a hop are one and the same list exactly
    when source and destination of the process are the same index set and
    the message of the peer announces one index set ([twoIndexSets] is
    0); in every other case they are two lists. *)
Theorem hop_lists_aliased (proc : Z) (p : process) (l l1 : locals)
        (h : list (option (list RemoteIndex.t))) (send receive : nat) (twoIndexSets : Z) :
  sendTwo l
  = negb (RemoteIndices.source_ (this p) =? RemoteIndices.dest_ (this p)) ->
  BuildRemote.hop_lists proc p l = Done (l1, h, send, receive, twoIndexSets) ->
  send = receive
  ↔ RemoteIndices.source_ (this p) = RemoteIndices.dest_ (this p)
    ∧ twoIndexSets = 0.
Proof.
  intros Htwo H. apply hop_lists_shape in H as (-> & _ & received & _ & H).
  rewrite Htwo in H.
  destruct (Z.eqb_spec twoIndexSets 0) as [->|Hne];
    destruct (Z.eqb_spec (RemoteIndices.source_ (this p))
                         (RemoteIndices.dest_ (this p))) as [Hsame|Hdiff];
    cbn [negb orb] in H.
  - destruct H as (-> & _). split; auto.
  - destruct H as (-> & _). split; [lia|intros [? _]; contradiction].
  - destruct H as (-> & _). split; [lia|intros [_ ?]; contradiction].
  - destruct H as (-> & _). split; [lia|intros [? _]; contradiction].
Qed.

(** * The scenarios *)

(** C1, at scenario S1.  The constructor stores -1 twice.  Two processes
    construct their object and complete [rebuild<false>()]; the index
    sets carry sequence number 0 and are not touched.  Both stored
    sequence numbers are still -1 and [isSynced()] is false. *)
Theorem rebuild_leaves_sequence_numbers :
  (∀ source destination comm,
      RemoteIndices.sourceSeqNo_ (RemoteIndices.make source destination comm) = -1
      ∧ RemoteIndices.destSeqNo_ (RemoteIndices.make source destination comm) = -1)
  ∧ ∃ ps',
      rebuild false Scenario.S1 = Done ps'
      ∧ Forall (fun p =>
                  RemoteIndices.sourceSeqNo_ (this p) = -1
                  ∧ RemoteIndices.destSeqNo_ (this p) = -1
                  ∧ IndexSet.seqNo (mem p (RemoteIndices.source_ (this p))) = 0
                  ∧ IndexSet.seqNo (mem p (RemoteIndices.dest_ (this p))) = 0
                  ∧ isSynced p = false) ps'.
Proof.
  split; [intros; split; reflexivity|].
  eexists. split; [vm_compute; reflexivity|].
  repeat constructor.
Qed.

(** C2, at scenario S1.  After [rebuild<false>()] the map
    [remoteIndices_] is empty on both ranks: no entry for the peer. *)
Theorem S1_finds_no_peer :
  ∃ ps',
    rebuild false Scenario.S1 = Done ps'
    ∧ Forall (fun p => RemoteIndices.remoteIndices_ (this p) = ∅) ps'.
Proof.
  eexists. split; [vm_compute; reflexivity|].
  repeat constructor.
Qed.

(** C3, at scenario S4.  The source set holds the global indices 1 and
    2, the destination set 2 and 3, all pairs public: the pair of global
    index 2 has the local index 1 in the source set and 0 in the
    destination set, so that (1, 0) belongs in [copyLocal_], and
    [buildLocal<false>()] would put it there.  [rebuild<false>()] does
    not call it: entered by one process, and by two such processes, it
    returns and [copyLocal_] is empty. *)
Theorem rebuild_leaves_copyLocal_empty :
  let p := Scenario.fresh_process
             (Scenario.two_sets Scenario.S4_source Scenario.S4_destination) 100 200 in
  RemoteIndices.source_ (this p) ≠ RemoteIndices.dest_ (this p)
  ∧ (∃ s d,
        In s (IndexSet.pairs (mem p (RemoteIndices.source_ (this p))))
        ∧ In d (IndexSet.pairs (mem p (RemoteIndices.dest_ (this p))))
        ∧ copies false s d
        ∧ copy_of s d = (1, 0))
  ∧ RemoteIndices.copyLocal_ (RemoteIndices.buildLocal false (mem p) (this p))
    = [(1, 0)]
  ∧ (∃ p', rebuild false [p] = Done [p']
           ∧ RemoteIndices.copyLocal_ (this p') = [])
  ∧ (∃ p0' p1', rebuild false [p; p] = Done [p0'; p1']
                ∧ RemoteIndices.copyLocal_ (this p0') = []
                ∧ RemoteIndices.copyLocal_ (this p1') = []).
Proof.
  cbv zeta. split; [vm_compute; discriminate|].
  split.
  { exists (Scenario.entry 2 1 Scenario.owner true),
           (Scenario.entry 2 0 Scenario.owner true).
    split; [right; left; reflexivity|]. split; [left; reflexivity|].
    split; [|reflexivity].
    split; [reflexivity|]. right. split; reflexivity. }
  split; [vm_compute; reflexivity|].
  split.
  - eexists. split; [vm_compute; reflexivity|reflexivity].
  - eexists _, _. split; [vm_compute; reflexivity|]. split; reflexivity.
Qed.

(** [buildLocal] at scenario S4: the pair of the local indices 1 and 0
    is in the list. *)
Lemma buildLocal_copyLocal_witness :
  let m := Scenario.two_sets Scenario.S4_source Scenario.S4_destination in
  let x := RemoteIndices.make 100 200 0 in
  In (1, 0) (RemoteIndices.copyLocal_ (RemoteIndices.buildLocal false m x)).
Proof.
  cbv zeta.
  assert (Hs : IndexSet.ascending
                 (Scenario.two_sets Scenario.S4_source Scenario.S4_destination 100)).
  { vm_compute. repeat constructor. }
  assert (Hd : IndexSet.ascending
                 (Scenario.two_sets Scenario.S4_source Scenario.S4_destination 200)).
  { vm_compute. repeat constructor. }
  apply (proj1 (buildLocal_copyLocal false
                  (Scenario.two_sets Scenario.S4_source Scenario.S4_destination)
                  (RemoteIndices.make 100 200 0) Hs Hd)).
  exists (Scenario.entry 2 1 Scenario.owner true),
         (Scenario.entry 2 0 Scenario.owner true).
  split; [right; left; reflexivity|]. split; [left; reflexivity|].
  split; [|reflexivity].
  split; [reflexivity|]. right. split; reflexivity.
Defined.

(** C4, at a ring of three processes with two index sets each.  The
    message rank 1 sends on the first hop has 42 bytes; rank 2, whose
    local arrays are used up before the received streams, hands the first
    27 bytes of it to the send of the second hop. *)
Theorem forwarded_message_is_cut :
  let entry := BuildRemote.prepare_all false (map BuildRemote.clear Scenario.S_ring3) in
  ∃ packed after1 first forwarded,
    BuildRemote.hop_pack_all false 1 entry = Done packed
    ∧ BuildRemote.hop false 1 entry = Done after1
    ∧ BuildRemote.hop_messages 1 packed !! 1%nat = Some first
    ∧ BuildRemote.hop_messages 2 after1 !! 2%nat = Some forwarded
    ∧ List.length first = 42%nat
    ∧ List.length forwarded = 27%nat
    ∧ forwarded = take 27 first.
Proof.
  cbv zeta. eexists _, _, _, _.
  split; [vm_compute; reflexivity|].
  split; [vm_compute; reflexivity|].
  split; [vm_compute; reflexivity|].
  split; [vm_compute; reflexivity|].
  split; [reflexivity|]. split; reflexivity.
Qed.

(** C6 at scenario S1 with a destination set of its own on both ranks. *)
Lemma remote_lists_ascending_witness :
  ∃ ps' p' sent received,
    rebuild false Scenario.S_two_sets = Done ps'
    ∧ In p' ps'
    ∧ RemoteIndices.remoteIndices_ (this p') !! 1 = Some (1%nat, 0%nat)
    ∧ list_at (heap p') 1 = Some sent
    ∧ list_at (heap p') 0 = Some received
    ∧ list_ascending (mem p') sent
    ∧ list_ascending (mem p') received.
Proof.
  assert (Hsets : ∀ p, In p Scenario.S_two_sets -> ∀ a, IndexSet.ascending (mem p a)).
  { intros p [<-|[<-|[]]] a; cbn [mem Scenario.fresh_process];
      unfold Scenario.two_sets;
      destruct (a =? 100); try destruct (a =? 200);
        vm_compute; repeat constructor. }
  assert (Hrun : ∃ ps', rebuild false Scenario.S_two_sets = Done ps')
    by (eexists; vm_compute; reflexivity).
  destruct Hrun as [ps' Hrun].
  assert (Hfirst : ∃ p', In p' ps'
                         ∧ RemoteIndices.remoteIndices_ (this p') !! 1
                           = Some (1%nat, 0%nat)).
  { revert Hrun. vm_compute. intros [= <-]. eexists. split; [left; reflexivity|].
    reflexivity. }
  destruct Hfirst as (p' & Hp' & Hq).
  destruct (remote_lists_ascending false Scenario.S_two_sets ps' Hsets Hrun
              p' 1 1%nat 0%nat Hp' Hq) as (sent & received & H).
  exists ps', p', sent, received. tauto.
Defined.

(** C8 at the first hop of rank 0 in the same scenario. *)
Lemma hop_keeps_or_frees_witness :
  let st := Scenario.arrived false Scenario.S_two_sets 0 in
  ∃ l1 h send receive twoIndexSets sent received p',
    BuildRemote.hop_lists 1 (fst st) (snd st) = Done (l1, h, send, receive, twoIndexSets)
    ∧ list_at h send = Some sent
    ∧ list_at h receive = Some received
    ∧ BuildRemote.hop_unpack 1 (fst st, snd st) = Done (p', l1).
Proof.
  cbv zeta.
  assert (Hrun : ∃ r, BuildRemote.hop_lists 1
                        (fst (Scenario.arrived false Scenario.S_two_sets 0))
                        (snd (Scenario.arrived false Scenario.S_two_sets 0)) = Done r)
    by (eexists; vm_compute; reflexivity).
  destruct Hrun as [[[[[l1 h] send] receive] two] Hrun].
  destruct (hop_keeps_or_frees _ _ _ _ _ _ _ _ Hrun)
    as (sent & received & p' & Hs & Hr & Hun & _).
  exists l1, h, send, receive, two, sent, received, p'. tauto.
Defined.

(** C9, counterexample.  Rank 0 uses one index set as source and
    destination, rank 1 sends two index sets: after [rebuild<false>()]
    the entry of rank 0 for rank 1 holds two different lists. *)
Lemma same_set_two_lists :
  ∃ ps' p' send receive,
    rebuild false Scenario.S_mixed = Done ps'
    ∧ ps' !! 0%nat = Some p'
    ∧ RemoteIndices.source_ (this p') = RemoteIndices.dest_ (this p')
    ∧ RemoteIndices.remoteIndices_ (this p') !! 1 = Some (send, receive)
    ∧ send ≠ receive.
Proof.
  eexists _, _, _, _. split; [vm_compute; reflexivity|].
  split; [reflexivity|]. split; [reflexivity|].
  split; [vm_compute; reflexivity|]. discriminate.
Qed.

(** C9 as amended, at the first hop of rank 0 in scenario S1. *)
Lemma hop_lists_aliased_witness :
  let st := Scenario.arrived false Scenario.S1 0 in
  ∃ l1 h send receive twoIndexSets,
    BuildRemote.hop_lists 1 (fst st) (snd st) = Done (l1, h, send, receive, twoIndexSets)
    ∧ RemoteIndices.source_ (this (fst st)) = RemoteIndices.dest_ (this (fst st))
    ∧ twoIndexSets = 0 ∧ send = receive.
Proof.
  cbv zeta.
  assert (Hrun : ∃ r, BuildRemote.hop_lists 1
                        (fst (Scenario.arrived false Scenario.S1 0))
                        (snd (Scenario.arrived false Scenario.S1 0)) = Done r
                      ∧ snd r = 0)
    by (eexists; split; vm_compute; reflexivity).
  destruct Hrun as [[[[[l1 h] send] receive] two] (Hrun & Hflag)].
  cbn [snd] in Hflag.
  assert (Htwo : sendTwo (snd (Scenario.arrived false Scenario.S1 0))
                 = negb (RemoteIndices.source_
                           (this (fst (Scenario.arrived false Scenario.S1 0)))
                         =? RemoteIndices.dest_
                              (this (fst (Scenario.arrived false Scenario.S1 0)))))
    by (vm_compute; reflexivity).
  assert (Hsame : RemoteIndices.source_
                    (this (fst (Scenario.arrived false Scenario.S1 0)))
                  = RemoteIndices.dest_
                      (this (fst (Scenario.arrived false Scenario.S1 0))))
    by (vm_compute; reflexivity).
  exists l1, h, send, receive, two.
  split; [exact Hrun|]. split; [exact Hsame|]. split; [exact Hflag|].
  apply (proj2 (hop_lists_aliased _ _ _ _ _ _ _ _ Htwo Hrun)). split; assumption.
Defined.

(** * The infinity norm of a multi-type block vector *)

Section InfinityNorm.
Import MultiTypeBlockVector.

(** ** The helper against the two folds *)

Lemma resultHelper_take (count : nat) (a : vector) :
  (count <= List.length a)%nat ->
  resultHelper count a = (maximum (take count a), one_plus_sum (take count a)).
Proof.
  induction count as [|c IH]; intros Hc.
  - reflexivity.
  - destruct (lookup_lt_is_Some_2 a c) as [x Hx]; [lia|].
    rewrite (take_S_r a c x Hx).
    unfold maximum, one_plus_sum. rewrite !fold_left_app. simpl.
    rewrite IH by lia. simpl.
    rewrite (nth_lookup_Some a c zero x Hx). reflexivity.
Qed.

Lemma resultHelper_length (a : vector) :
  resultHelper (List.length a) a = (maximum a, one_plus_sum a).
Proof.
  rewrite resultHelper_take by lia. rewrite firstn_all. reflexivity.
Qed.

Lemma infinity_norm_formula (a : vector) :
  infinity_norm a =
  mul (maximum a) (div (one_plus_sum a) (one_plus_sum a)).
Proof.
  unfold infinity_norm, result.
  destruct a as [|x a'] eqn:E.
  - vm_compute. reflexivity.
  - rewrite <- E. replace (List.length a) with (S (List.length a')) by (subst; reflexivity).
    cbv zeta.
    replace (S (List.length a')) with (List.length a) by (subst; reflexivity).
    rewrite resultHelper_length. reflexivity.
Qed.

(** ** NaN is absorbing *)

Lemma add_nan_r (x : real_type) : add x S754_nan = S754_nan.
Proof. destruct x; reflexivity. Qed.

Lemma mul_nan_r (x : real_type) : mul x S754_nan = S754_nan.
Proof. destruct x; reflexivity. Qed.

Lemma sum_from_nan (a : vector) :
  fold_left (fun s norm => add norm s) a S754_nan = S754_nan.
Proof.
  induction a as [|x a IH]; simpl; [reflexivity|].
  rewrite add_nan_r. exact IH.
Qed.

Lemma sum_nan (a : vector) (s0 : real_type) :
  In S754_nan a -> fold_left (fun s norm => add norm s) a s0 = S754_nan.
Proof.
  revert s0. induction a as [|x a IH]; intros s0 Hin; [destruct Hin|].
  simpl. destruct Hin as [->|Hin].
  - change (add S754_nan s0) with S754_nan. apply sum_from_nan.
  - apply IH, Hin.
Qed.

(** ** A finite value divided by itself is 1.0 *)

Lemma div_eucl_self_shift (m : positive) (k : Z) :
  0 <= k -> Z.div_eucl (Z.shiftl (Zpos m) k) (Zpos m) = (2 ^ k, 0).
Proof.
  intros Hk. rewrite Z.shiftl_mul_pow2 by assumption.
  generalize (Z_div_mod_eq_full (Zpos m * 2 ^ k) (Zpos m)).
  unfold Z.div, Z.modulo.
  pose proof (Z_div_mult_full (2 ^ k) (Zpos m)) as Hq.
  pose proof (Z_mod_mult (2 ^ k) (Zpos m)) as Hr.
  unfold Z.div, Z.modulo in Hq, Hr.
  rewrite (Z.mul_comm (Zpos m)).
  destruct (Z.div_eucl (2 ^ k * Zpos m) (Zpos m)) as [q r].
  intros _. rewrite Hq by discriminate. rewrite Hr. reflexivity.
Qed.

Lemma new_location_zero (n : Z) : new_location n 0 = loc_Exact.
Proof. unfold new_location. destruct (Z.even n); reflexivity. Qed.

Lemma div_self (s : bool) (m : positive) (e : Z) :
  div (S754_finite s m e) (S754_finite s m e) = one.
Proof.
  unfold div, SFdiv, SFdiv_core_binary.
  rewrite !Z.sub_diag.
  change (Z.min (fexp prec emax 0) 0) with (-53).
  change (0 - -53) with 53.
  cbv iota beta zeta.
  rewrite div_eucl_self_shift by lia.
  rewrite new_location_zero, xorb_nilpotent.
  vm_compute. reflexivity.
Qed.

Lemma shr_exact_52 (m : positive) :
  SpecFloat.iter_pos shr_1 52
    (shr_record_of_loc (Z.pos (4503599627370496 * m)) loc_Exact)
  = Build_shr_record (Z.pos m) false false.
Proof. reflexivity. Qed.

Lemma digits2_pos_shift_52 (m : positive) :
  Z.pos (digits2_pos (4503599627370496 * m)) = Z.pos (digits2_pos m) + 52.
Proof.
  cbv [Pos.mul digits2_pos]. fold digits2_pos.
  rewrite !Pos2Z.inj_succ. lia.
Qed.

Lemma mul_one_r_finite (s : bool) (m : positive) (e : Z) :
  bounded prec emax m e = true ->
  mul (S754_finite s m e) one = S754_finite s m e.
Proof.
  intros Hb. unfold bounded, canonical_mantissa in Hb.
  apply andb_true_iff in Hb as [Hc He].
  apply Z.eqb_eq in Hc.
  unfold mul, SFmul, one. rewrite xorb_false_r.
  rewrite (Pos.mul_comm m).
  unfold binary_round_aux, shr_fexp.
  cbn [Zdigits2]. rewrite digits2_pos_shift_52.
  replace (Z.pos (digits2_pos m) + 52 + (e + -52)) with (Z.pos (digits2_pos m) + e) by lia.
  rewrite Hc.
  replace (e - (e + -52)) with 52 by lia.
  cbn [shr]. rewrite shr_exact_52.
  cbn [shr_m loc_of_shr_record round_nearest_even shr_record_of_loc Zdigits2].
  replace (e + -52 + 52) with e by lia.
  rewrite Hc, Z.sub_diag.
  cbn [shr shr_m]. rewrite He. reflexivity.
Qed.

Lemma digits2_pos_lower (m : positive) :
  2 ^ (Z.pos (digits2_pos m) - 1) <= Z.pos m.
Proof.
  induction m as [m IH|m IH|]; cbn [digits2_pos].
  - rewrite Pos2Z.inj_succ.
    replace (Z.succ (Z.pos (digits2_pos m)) - 1) with (Z.succ (Z.pos (digits2_pos m) - 1)) by lia.
    rewrite Z.pow_succ_r by lia. lia.
  - rewrite Pos2Z.inj_succ.
    replace (Z.succ (Z.pos (digits2_pos m)) - 1) with (Z.succ (Z.pos (digits2_pos m) - 1)) by lia.
    rewrite Z.pow_succ_r by lia. lia.
  - simpl. lia.
Qed.

Lemma shr_1_m (r : shr_record) :
  0 <= shr_m r -> shr_m (shr_1 r) = shr_m r / 2.
Proof.
  destruct r as [m r s]. cbn [shr_m]. intros Hm.
  destruct m as [|[p|p|]|p]; cbn [shr_1 shr_m]; try lia.
  - reflexivity.
  - apply Z.div_unique with (r := 1); lia.
  - apply Z.div_unique with (r := 0); lia.
  - reflexivity.
Qed.

Lemma shr_iter_m (p : positive) (r : shr_record) :
  0 <= shr_m r ->
  shr_m (SpecFloat.iter_pos shr_1 p r) = shr_m r / 2 ^ Z.pos p.
Proof.
  revert r. induction p as [p IH|p IH|]; intros r Hr; cbn [SpecFloat.iter_pos].
  - assert (H1 : 0 <= shr_m (shr_1 r)).
    { rewrite shr_1_m by assumption. apply Z.div_pos; lia. }
    assert (H2 : 0 <= shr_m (SpecFloat.iter_pos shr_1 p (shr_1 r))).
    { rewrite IH by assumption. apply Z.div_pos; lia. }
    rewrite IH, IH, shr_1_m by assumption.
    rewrite !Z.div_div by lia.
    f_equal. rewrite (Pos2Z.inj_xI p).
    replace (2 * Z.pos p + 1) with (1 + Z.pos p + Z.pos p) by lia.
    rewrite !Z.pow_add_r by lia. lia.
  - assert (H2 : 0 <= shr_m (SpecFloat.iter_pos shr_1 p r)).
    { rewrite IH by assumption. apply Z.div_pos; lia. }
    rewrite IH, IH by assumption.
    rewrite !Z.div_div by lia.
    f_equal. rewrite (Pos2Z.inj_xO p).
    replace (2 * Z.pos p) with (Z.pos p + Z.pos p) by lia.
    rewrite !Z.pow_add_r by lia. lia.
  - rewrite shr_1_m by assumption. reflexivity.
Qed.

Lemma shr_record_of_loc_m (m : Z) (l : location) : shr_m (shr_record_of_loc m l) = m.
Proof. destruct l as [|[]]; reflexivity. Qed.

Lemma shr_fexp_positive (m : positive) (e : Z) (l : location) :
  emin prec emax <= e ->
  0 < shr_m (fst (shr_fexp prec emax (Z.pos m) e l))
  ∧ emin prec emax <= snd (shr_fexp prec emax (Z.pos m) e l).
Proof.
  intros He. unfold shr_fexp, shr. cbn [Zdigits2].
  pose proof (digits2_pos_lower m) as Hd.
  set (d := Z.pos (digits2_pos m)) in *.
  assert (Hn : fexp prec emax (d + e) - e <= d - 1).
  { assert (0 < d) by (subst d; lia).
    assert (prec = 53) by reflexivity.
    unfold fexp. lia. }
  destruct (fexp prec emax (d + e) - e) as [|n|n] eqn:En; cbn [fst snd].
  - rewrite shr_record_of_loc_m. lia.
  - split; [|lia].
    rewrite shr_iter_m by (rewrite shr_record_of_loc_m; lia).
    rewrite shr_record_of_loc_m.
    apply Z.div_str_pos. split; [lia|].
    transitivity (2 ^ (d - 1)); [|assumption].
    apply Z.pow_le_mono_r; lia.
  - rewrite shr_record_of_loc_m. lia.
Qed.

Lemma round_nearest_even_ge (m : Z) (l : location) :
  m <= round_nearest_even m l.
Proof.
  destruct l as [|[]]; cbn [round_nearest_even]; try lia.
  destruct (Z.even m); lia.
Qed.

Lemma binary_round_aux_grown (m : positive) (e : Z) (l : location) :
  emin prec emax <= e ->
  grown (binary_round_aux prec emax false (Z.pos m) e l).
Proof.
  intros He. unfold binary_round_aux.
  destruct (shr_fexp_positive m e l He) as [Hm1 He1].
  destruct (shr_fexp prec emax (Z.pos m) e l) as [mrs' e'].
  cbn [fst snd] in Hm1, He1.
  pose proof (round_nearest_even_ge (shr_m mrs') (loc_of_shr_record mrs')) as Hr.
  destruct (round_nearest_even (shr_m mrs') (loc_of_shr_record mrs')) as [|m'|m'];
    try lia.
  destruct (shr_fexp_positive m' e' loc_Exact He1) as [Hm2 He2].
  destruct (shr_fexp prec emax (Z.pos m') e' loc_Exact) as [mrs'' e''].
  cbn [fst snd] in Hm2, He2.
  destruct (shr_m mrs'') as [|m''|m'']; try lia.
  destruct (e'' <=? emax - prec); cbn [grown]; [assumption|exact I].
Qed.

Lemma binary_round_grown (m : positive) (e : Z) :
  emin prec emax <= e ->
  grown (binary_round prec emax false m e).
Proof.
  intros He. unfold binary_round, shl_align.
  set (e' := fexp prec emax (Z.pos (digits2_pos m) + e)).
  assert (He' : emin prec emax <= e') by (subst e'; unfold fexp; lia).
  destruct (e' - e); apply binary_round_aux_grown; assumption.
Qed.

Lemma bounded_emin (m : positive) (e : Z) :
  bounded prec emax m e = true -> emin prec emax <= e.
Proof.
  unfold bounded, canonical_mantissa. intros H.
  apply andb_true_iff in H as [H _]. apply Z.eqb_eq in H.
  unfold fexp in H. lia.
Qed.

Lemma add_grown (x s : real_type) :
  finite_nonneg x -> grown s -> grown (add x s).
Proof.
  destruct x as [sx| | |[] mx ex]; cbn [finite_nonneg]; try tauto;
    destruct s as [| [] | |[] ms es]; cbn [grown]; try tauto; intros Hx Hs;
    unfold add; cbn [SFadd]; try (cbn [grown]; first [exact I | assumption]).
  apply bounded_emin in Hx.
  cbn [cond_Zopp Z.add binary_normalize].
  apply binary_round_grown. lia.
Qed.

Lemma one_plus_sum_grown (a : vector) (s0 : real_type) :
  Forall finite_nonneg a -> grown s0 ->
  grown (fold_left (fun s norm => add norm s) a s0).
Proof.
  intros Ha. revert s0. induction Ha as [|x a Hx Ha IH]; intros s0 Hs; [exact Hs|].
  simpl. apply IH, add_grown; assumption.
Qed.

Lemma grown_div_self (s : real_type) :
  grown s -> is_finite s -> div s s = one.
Proof.
  destruct s as [z|i| |sg m e]; cbn [grown is_finite]; try tauto.
  intros _ _. apply div_self.
Qed.

Lemma max_cases (x m : real_type) : max x m = x ∨ max x m = m.
Proof. unfold max. destruct (SFltb x m); auto. Qed.

Lemma maximum_finite_nonneg (a : vector) (m0 : real_type) :
  Forall finite_nonneg a -> finite_nonneg m0 ->
  finite_nonneg (fold_left (fun m norm => max norm m) a m0).
Proof.
  intros Ha. revert m0. induction Ha as [|x a Hx Ha IH]; intros m0 Hm; [exact Hm|].
  simpl. apply IH. destruct (max_cases x m0) as [-> | ->]; assumption.
Qed.

Lemma mul_one_r (x : real_type) : finite_nonneg x -> mul x one = x.
Proof.
  destruct x as [s| | |[] m e]; cbn [finite_nonneg]; try tauto; intros Hx.
  - destruct s; reflexivity.
  - apply mul_one_r_finite, Hx.
Qed.

(** C10, as amended.  [infinity_norm()] returns [m * (s / s)] with [m] the
  maximum of the infinity norms of the blocks and [s] 1 plus their sum;
  the result is NaN whenever the norm of a block is NaN; and it is [m]
  when the norms are finite and not negative and the sum [s] is finite
  (has not overflowed). *)
Theorem infinity_norm_nan_tracking (a : vector) :
infinity_norm a = mul (maximum a) (div (one_plus_sum a) (one_plus_sum a))
∧ (In S754_nan a -> is_nan (infinity_norm a))
∧ (Forall finite_nonneg a -> is_finite (one_plus_sum a) ->
   infinity_norm a = maximum a).
Proof.
split; [apply infinity_norm_formula|]. split.
- intros Hin. rewrite infinity_norm_formula.
  unfold one_plus_sum. rewrite (sum_nan a one Hin).
  change (div S754_nan S754_nan) with S754_nan.
  apply mul_nan_r.
- intros Ha Hs. rewrite infinity_norm_formula.
  rewrite grown_div_self; [|apply one_plus_sum_grown; [assumption|cbn; unfold emin, prec, emax; lia]|assumption].
  apply mul_one_r, maximum_finite_nonneg; [assumption|exact I].
Qed.

(** C10, counterexample.  Two blocks of norm [DBL_MAX]: the norms are
  finite, not negative and not NaN, their maximum is [DBL_MAX], the
  result is NaN. *)
Lemma infinity_norm_overflow :
let a := [DBL_MAX; DBL_MAX] in
Forall finite_nonneg a
∧ ¬ In S754_nan a
∧ maximum a = DBL_MAX
∧ infinity_norm a = S754_nan
∧ infinity_norm a ≠ maximum a.
Proof.
cbv zeta. split; [|split; [|split; [|split]]].
- repeat constructor.
- intros [H|[H|[]]]; discriminate H.
- vm_compute. reflexivity.
- vm_compute. reflexivity.
- vm_compute. discriminate.
Qed.

(** C10 as amended, at the norms 1.0, [DBL_MAX] and 0.0. *)
Lemma infinity_norm_nan_tracking_witness :
let a := [one; DBL_MAX; zero] in
Forall finite_nonneg a ∧ is_finite (one_plus_sum a) ∧ infinity_norm a = maximum a.
Proof.
cbv zeta.
assert (Ha : Forall finite_nonneg [one; DBL_MAX; zero]) by (repeat constructor).
assert (Hs : is_finite (one_plus_sum [one; DBL_MAX; zero])) by (vm_compute; exact I).
split; [exact Ha|]. split; [exact Hs|].
exact (proj2 (proj2 (infinity_norm_nan_tracking [one; DBL_MAX; zero])) Ha Hs).
Defined.

End InfinityNorm.

(** * More on unpackIndices *)

Section UnpackMore.

(** The run of [unpackIndices] on a stream of well-formed pairs. *)
Lemma unpackIndices_run
      (m : memory) (remote : RemoteIndexList) (received : list (Z * Z))
      (local : list pointer) (localEntries : Z) (located : list (pointer * Z))
      (p_in : list Z) (position bufferSize : Z) :
  Forall record_ok received ->
  holds_records p_in position received ->
  0 <= position ->
  position + 5 * Z.of_nat (List.length received) <= bufferSize ->
  bufferSize <= Z.of_nat (List.length p_in) ->
  0 <= localEntries <= Z.of_nat (List.length local) ->
  with_globals m (take (Z.to_nat localEntries) local) = Some located ->
  ∃ position',
    RemoteIndices.unpackIndices m remote (Z.of_nat (List.length received)) local localEntries
                  p_in MPITraits.PairType_type position bufferSize
    = Done (remote ++ merge_spec received located, position')
    ∧ position <= position' <= position + 5 * Z.of_nat (List.length received).
Proof.
  intros Hok Hrs Hpos Hfit Hsize Hentries Hlocated.
  unfold RemoteIndices.unpackIndices.
  destruct received as [|r rs].
  - cbn [List.length Z.of_nat Z.eqb]. exists position. split; [|simpl; lia].
    cbn [merge_spec]. rewrite app_nil_r. reflexivity.
  - replace (Z.of_nat (List.length (r :: rs)) =? 0) with false
      by (symmetry; apply Z.eqb_neq; simpl; lia).
    destruct Hrs as [Hr Hrs].
    apply Forall_cons in Hok as [[Hrok Hrb] Hok].
    cbn [List.length] in Hfit.
    rewrite (unpack_pair_record p_in bufferSize position IndexPair.make0 r)
      by (try assumption; lia).
    run_outcome.
    destruct (unpackIndices_loop_merge m local localEntries located p_in bufferSize
                Hsize Hentries Hlocated
                (RemoteIndices.unpackIndices_bound (Z.of_nat (List.length (r :: rs))) localEntries)
                remote r rs (unpacked IndexPair.make0 (fst r) (snd r)) 0 0 (position + 5))
      as (position' & Hrun & Hposition'); try reflexivity; try assumption; try lia.
    { rewrite length_drop.
      erewrite located_length by eassumption.
      unfold RemoteIndices.unpackIndices_bound. cbn [List.length]. lia. }
    exists position'. split; [|cbn [List.length]; lia].
    replace (Z.of_nat (List.length (r :: rs))) with (0 + 1 + Z.of_nat (List.length rs))
      by (cbn [List.length]; lia).
    replace (RemoteIndices.unpackIndices_bound (0 + 1 + Z.of_nat (List.length rs)) localEntries)
      with (RemoteIndices.unpackIndices_bound (Z.of_nat (List.length (r :: rs))) localEntries)
      by (f_equal; cbn [List.length]; lia).
    exact Hrun.
Qed.

(** ** The merge finds the common global indices *)

Lemma merge_spec_nil_r (received : list (Z * Z)) : merge_spec received [] = [].
Proof. destruct received; reflexivity. Qed.

Lemma merge_spec_cons (r : Z * Z) (l : pointer * Z)
      (received : list (Z * Z)) (local : list (pointer * Z)) :
  merge_spec (r :: received) (l :: local)
  = if fst r =? snd l then RemoteIndex.make (snd r) (fst l) :: merge_spec received local
    else if fst r <? snd l then merge_spec received (l :: local)
         else merge_spec (r :: received) local.
Proof. reflexivity. Qed.

Lemma sorted_head_lt {A} (f : A -> Z) (x : A) (l : list A) :
  StronglySorted Z.lt (map f (x :: l)) ->
  (∀ y, In y l -> f x < f y) ∧ StronglySorted Z.lt (map f l).
Proof.
  cbn [map]. intros H. apply StronglySorted_inv in H as [Hl Hx].
  split; [|assumption]. intros y Hy.
  rewrite List.Forall_forall in Hx. apply Hx, in_map, Hy.
Qed.

Lemma merge_spec_In (received : list (Z * Z)) (local : list (pointer * Z))
      (e : RemoteIndex.t) :
  StronglySorted Z.lt (map fst received) ->
  StronglySorted Z.lt (map snd local) ->
  In e (merge_spec received local)
  ↔ ∃ r l, In r received ∧ In l local ∧ fst r = snd l
           ∧ e = RemoteIndex.make (snd r) (fst l).
Proof.
  revert local. induction received as [|r rs IHr]; intros local Hrs Hls.
  { cbn. split; [tauto|]. intros (r & l & [] & _). }
  apply sorted_head_lt in Hrs as Hr. destruct Hr as [Hr Hrs'].
  induction local as [|l ls IHl].
  { rewrite merge_spec_nil_r. split; [intros []|]. intros (r0 & l0 & _ & [] & _). }
  apply sorted_head_lt in Hls as Hl. destruct Hl as [Hl Hls'].
  rewrite merge_spec_cons.
  destruct (Z.eqb_spec (fst r) (snd l)) as [Heq|Hne].
  - cbn [In]. rewrite (IHr ls Hrs' Hls'). split.
    + intros [<-|(r0 & l0 & Hr0 & Hl0 & Hg & ->)].
      * exists r, l. cbn [In]. auto.
      * exists r0, l0. cbn [In]. auto.
    + intros (r0 & l0 & [<-|Hr0] & [<-|Hl0] & Hg & ->).
      * left. reflexivity.
      * specialize (Hl _ Hl0). lia.
      * specialize (Hr _ Hr0). lia.
      * right. exists r0, l0. auto.
  - destruct (Z.ltb_spec (fst r) (snd l)) as [Hlt|Hge].
    + rewrite (IHr (l :: ls) Hrs' Hls). split.
      * intros (r0 & l0 & Hr0 & Hl0 & Hg & ->). exists r0, l0. cbn [In]. auto.
      * intros (r0 & l0 & [<-|Hr0] & Hl0 & Hg & ->).
        -- destruct Hl0 as [<-|Hl0]; [contradiction|].
           specialize (Hl _ Hl0). lia.
        -- exists r0, l0. auto.
    + rewrite (IHl Hls'). split.
      * intros (r0 & l0 & Hr0 & Hl0 & Hg & ->). exists r0, l0. cbn [In]. auto.
      * intros (r0 & l0 & Hr0 & [<-|Hl0] & Hg & ->).
        -- destruct Hr0 as [<-|Hr0]; [lia|].
           specialize (Hr _ Hr0). lia.
        -- exists r0, l0. auto.
Qed.

Lemma common_entries_nil_r (received : list (Z * Z)) : common_entries received [] = [].
Proof. induction received as [|r rs IH]; [reflexivity|exact IH]. Qed.

Lemma find_global_None (g : Z) (ls : list (pointer * Z)) :
  (∀ l, In l ls -> snd l ≠ g) -> List.find (fun l => snd l =? g) ls = None.
Proof.
  induction ls as [|l ls IH]; intros H; [reflexivity|].
  cbn [List.find]. destruct (Z.eqb_spec (snd l) g) as [Heq|_].
  - exfalso. apply (H l); [left; reflexivity|exact Heq].
  - apply IH. intros l' Hl'. apply H. right. exact Hl'.
Qed.

Lemma common_entries_cons (r : Z * Z) (rs : list (Z * Z)) (ls : list (pointer * Z)) :
  common_entries (r :: rs) ls
  = match List.find (fun l => snd l =? fst r) ls with
    | Some l => RemoteIndex.make (snd r) (fst l) :: common_entries rs ls
    | None => common_entries rs ls
    end.
Proof.
  unfold common_entries. cbn [omap list_omap].
  destruct (List.find (fun l => snd l =? fst r) ls); reflexivity.
Qed.

(** A local pair that no received pair meets makes no entry. *)
Lemma common_entries_skip (l : pointer * Z) (rs : list (Z * Z)) (ls : list (pointer * Z)) :
  (∀ r, In r rs -> fst r ≠ snd l) ->
  common_entries rs (l :: ls) = common_entries rs ls.
Proof.
  induction rs as [|r rs IH]; intros H; [reflexivity|].
  rewrite !common_entries_cons. cbn [List.find].
  destruct (Z.eqb_spec (snd l) (fst r)) as [Heq|_].
  - exfalso. apply (H r); [left; reflexivity|symmetry; exact Heq].
  - rewrite IH; [reflexivity|]. intros r' Hr'. apply H. right. exact Hr'.
Qed.

(** On streams that ascend the merge makes the entries of the common
    global indices, one for each. *)
Lemma merge_spec_common (received : list (Z * Z)) :
  ∀ located : list (pointer * Z),
    StronglySorted Z.lt (map fst received) ->
    StronglySorted Z.lt (map snd located) ->
    merge_spec received located = common_entries received located.
Proof.
  induction received as [|r rs IHr]; intros ls Hrs Hls; [reflexivity|].
  apply sorted_head_lt in Hrs as Hr. destruct Hr as [Hr Hrs'].
  induction ls as [|l ls IHl].
  - rewrite merge_spec_nil_r, common_entries_nil_r. reflexivity.
  - apply sorted_head_lt in Hls as Hl. destruct Hl as [Hl Hls'].
    rewrite merge_spec_cons.
    destruct (Z.eqb_spec (fst r) (snd l)) as [Heq|Hne].
    + rewrite common_entries_cons. cbn [List.find].
      rewrite <- Heq, Z.eqb_refl. f_equal.
      rewrite common_entries_skip.
      * apply IHr; assumption.
      * intros r' Hr'. specialize (Hr r' Hr'). lia.
    + destruct (Z.ltb_spec (fst r) (snd l)) as [Hlt|Hge].
      * rewrite (IHr (l :: ls)) by assumption.
        rewrite (common_entries_cons r).
        rewrite find_global_None; [reflexivity|].
        intros l' [<-|Hl']; [lia|]. specialize (Hl l' Hl'). lia.
      * rewrite IHl by assumption. symmetry. apply common_entries_skip.
        intros r' [<-|Hr']; [lia|]. specialize (Hr r' Hr'). lia.
Qed.

Lemma merge_spec_length_l (received : list (Z * Z)) (local : list (pointer * Z)) :
  (List.length (merge_spec received local) <= List.length received)%nat.
Proof.
  revert local. induction received as [|r rs IHr]; intros local; [simpl; lia|].
  induction local as [|l ls IHl]; [rewrite merge_spec_nil_r; simpl; lia|].
  rewrite merge_spec_cons.
  destruct (fst r =? snd l); [cbn [List.length]; specialize (IHr ls); lia|].
  destruct (fst r <? snd l); [cbn [List.length]; specialize (IHr (l :: ls)); lia|].
  exact IHl.
Qed.

Lemma merge_spec_length_r (received : list (Z * Z)) (local : list (pointer * Z)) :
  (List.length (merge_spec received local) <= List.length local)%nat.
Proof.
  revert local. induction received as [|r rs IHr]; intros local; [simpl; lia|].
  induction local as [|l ls IHl]; [rewrite merge_spec_nil_r; simpl; lia|].
  rewrite merge_spec_cons.
  destruct (fst r =? snd l); [cbn [List.length]; specialize (IHr ls); lia|].
  destruct (fst r <? snd l); [cbn [List.length] in *; specialize (IHr (l :: ls)); cbn [List.length] in IHr; lia|].
  cbn [List.length]. lia.
Qed.

End UnpackMore.

(** ** How far unpackIndices reads *)

Section Position.
Import RemoteIndices.

Lemma last_global_cons (l : pointer * Z) (ls : list (pointer * Z)) :
  last_global (l :: ls) = match ls with [] => Some (snd l) | _ => last_global ls end.
Proof. destruct ls; reflexivity. Qed.

Lemma last_global_ge (l : pointer * Z) (ls : list (pointer * Z)) :
  StronglySorted Z.lt (map snd (l :: ls)) ->
  ∃ g, last_global (l :: ls) = Some g ∧ snd l <= g.
Proof.
  revert l. induction ls as [|l' ls IH]; intros l Hs.
  - exists (snd l). split; [reflexivity|lia].
  - apply sorted_head_lt in Hs as [Hl Hs].
    destruct (IH l' Hs) as (g & Hg & Hle).
    exists g. rewrite last_global_cons. split; [exact Hg|].
    specialize (Hl l' (or_introl eq_refl)). lia.
Qed.

Lemma count_le_cons (g : Z) (r : Z * Z) (rs : list (Z * Z)) :
  count_le (Some g) (r :: rs)
  = if fst r <=? g then S (count_le (Some g) rs) else count_le (Some g) rs.
Proof. cbn [count_le List.filter]. destruct (fst r <=? g); reflexivity. Qed.

Lemma count_le_beyond (g : Z) (rs : list (Z * Z)) :
  (∀ r, In r rs -> g < fst r) -> count_le (Some g) rs = 0%nat.
Proof.
  induction rs as [|r rs IH]; intros H; [reflexivity|].
  rewrite count_le_cons.
  replace (fst r <=? g) with false
    by (symmetry; apply Z.leb_gt, H; left; reflexivity).
  apply IH. intros r0 Hr0. apply H. right. exact Hr0.
Qed.

Variable m : memory.
Variable local : list pointer.
Variable localEntries : Z.
Variable located : list (pointer * Z).
Variable p_in : list Z.
Variable bufferSize : Z.

Hypothesis Hsize : bufferSize <= Z.of_nat (List.length p_in).
Hypothesis Hentries : 0 <= localEntries <= Z.of_nat (List.length local).
Hypothesis Hlocated :
  with_globals m (take (Z.to_nat localEntries) local) = Some located.

Lemma unpackIndices_loop_position (bound : nat) :
  ∀ (remote : RemoteIndexList) (r : Z * Z) (rs : list (Z * Z))
    (index : IndexPair.t) (n_in j position : Z)
    (remote' : RemoteIndexList) (position' : Z),
    IndexPair.global index = fst r ->
    Forall record_ok rs ->
    holds_records p_in position rs ->
    0 <= position ->
    position + 5 * Z.of_nat (List.length rs) <= bufferSize ->
    0 <= j <= localEntries ->
    StronglySorted Z.lt (map fst (r :: rs)) ->
    StronglySorted Z.lt (map snd (drop (Z.to_nat j) located)) ->
    unpackIndices_loop bound m remote (n_in + 1 + Z.of_nat (List.length rs))
      local localEntries p_in MPITraits.PairType_type position bufferSize
      index n_in j
    = Done (remote', position') ->
    position'
    = position
      + 5 * Z.of_nat (Nat.min (List.length rs)
                        (count_le (last_global (drop (Z.to_nat j) located)) (r :: rs))).
Proof.
  pose proof (located_length _ _ _ _ p_in Hentries Hlocated) as Hlen.
  induction bound as [|bound IH];
    intros remote r rs index n_in j position remote' position'
           Hg Hok Hrs Hpos Hfit Hj Hsr Hsl H; cbn [unpackIndices_loop] in H.
  - destruct (Z.ltb_spec j localEntries) as [Hlt|Hge]; [discriminate|].
    injection H as <- <-.
    rewrite drop_ge by lia. cbn [last_global last fmap option_fmap option_map count_le].
    rewrite Nat.min_0_r. lia.
  - destruct (Z.ltb_spec j localEntries) as [Hlt|Hge].
    2:{ injection H as <- <-.
        rewrite drop_ge by lia. cbn [last_global last fmap option_fmap option_map count_le].
        rewrite Nat.min_0_r. lia. }
    destruct (lookup_lt_is_Some_2 located (Z.to_nat j)) as [l Hl]; [lia|].
    destruct (located_lookup _ _ _ _ Hlocated _ _ Hl) as (Hptr & here & Hhere & Hglobal).
    pose proof (drop_S _ _ _ Hl) as Hdrop.
    replace (S (Z.to_nat j)) with (Z.to_nat (j + 1)) in Hdrop by lia.
    remember (drop (Z.to_nat (j + 1)) located) as ls eqn:Els.
    rewrite Hdrop in Hsl |- *.
    destruct (last_global_ge l ls Hsl) as (g & Hlast & Hle).
    apply sorted_head_lt in Hsl as Hsl'. destruct Hsl' as [Hl_lt Hsl'].
    apply sorted_head_lt in Hsr as Hsr'. destruct Hsr' as [Hr_lt Hsr'].
    replace (0 <=? j) with true in H by (symmetry; apply Z.leb_le; lia).
    rewrite Hptr in H. cbn [or_fault] in H.
    unfold mbind, outcome_bind in H. rewrite Hhere in H. cbn [or_fault] in H.
    rewrite Hglobal, Hg in H.
    rewrite Hlast.
    assert (Hnone : ls = [] -> g = snd l).
    { intros ->. rewrite last_global_cons in Hlast. congruence. }
    assert (Hsome : ls ≠ [] -> last_global ls = Some g).
    { intros Hne. rewrite last_global_cons in Hlast. destruct ls; [contradiction|exact Hlast]. }
    destruct (Z.eqb_spec (snd l) (fst r)) as [Heq|Hne].
    + (* a match *)
      rewrite count_le_cons.
      replace (fst r <=? g) with true by (symmetry; apply Z.leb_le; lia).
      destruct rs as [|r' rs'].
      * replace (n_in + 1 <? n_in + 1 + Z.of_nat (List.length (@nil (Z * Z))))
          with false in H by (symmetry; apply Z.ltb_ge; simpl; lia).
        injection H as <- <-. cbn [List.length]. rewrite Nat.min_0_l. lia.
      * replace (n_in + 1 <? n_in + 1 + Z.of_nat (List.length (r' :: rs')))
          with true in H by (symmetry; apply Z.ltb_lt; simpl; lia).
        destruct Hrs as [Hr' Hrs'].
        apply Forall_cons in Hok as [[Hr'ok _] Hok].
        cbn [List.length] in Hfit.
        rewrite (unpack_pair_record p_in bufferSize position index r') in H
          by (try assumption; lia).
        replace (n_in + 1 + Z.of_nat (List.length (r' :: rs')))
          with (n_in + 1 + 1 + Z.of_nat (List.length rs')) in H
          by (cbn [List.length]; lia).
        apply (IH _ r' rs') in H; try reflexivity; try assumption; try lia.
        2:{ rewrite <- Els. assumption. }
        rewrite H, <- Els. cbn [List.length].
        rewrite <- Nat.succ_min_distr.
        destruct (decide (ls = [])) as [Hnil|Hcons].
        -- (* the last local pair: nothing more is in reach *)
           rewrite (Hnone Hnil). subst ls. rewrite Hnil.
           change (last_global []) with (@None Z).
           change (count_le None (r' :: rs')) with 0%nat.
           rewrite (count_le_beyond (snd l) (r' :: rs'))
             by (intros r0 Hr0; specialize (Hr_lt r0 Hr0); lia).
           rewrite !Nat.min_0_r. lia.
        -- rewrite (Hsome Hcons). lia.
    + destruct (Z.ltb_spec (snd l) (fst r)) as [Hlt'|Hge'].
      * (* the local pair is smaller *)
        apply (IH _ r rs) in H; try assumption; try lia.
        2:{ rewrite <- Els. assumption. }
        rewrite H, <- Els.
        destruct (decide (ls = [])) as [Hnil|Hcons].
        -- rewrite (Hnone Hnil). subst ls. rewrite Hnil.
           change (last_global []) with (@None Z).
           change (count_le None (r :: rs)) with 0%nat.
           rewrite (count_le_beyond (snd l) (r :: rs)).
           { reflexivity. }
           intros r0 [<-|Hr0]; [lia|]. specialize (Hr_lt r0 Hr0). lia.
        -- rewrite (Hsome Hcons). reflexivity.
      * (* the received pair is smaller *)
        rewrite count_le_cons.
        replace (fst r <=? g) with true by (symmetry; apply Z.leb_le; lia).
        destruct rs as [|r' rs'].
        -- replace (n_in + 1 <? n_in + 1 + Z.of_nat (List.length (@nil (Z * Z))))
             with false in H by (symmetry; apply Z.ltb_ge; simpl; lia).
           injection H as <- <-. cbn [List.length]. rewrite Nat.min_0_l. lia.
        -- replace (n_in + 1 <? n_in + 1 + Z.of_nat (List.length (r' :: rs')))
             with true in H by (symmetry; apply Z.ltb_lt; simpl; lia).
           destruct Hrs as [Hr' Hrs'].
           apply Forall_cons in Hok as [[Hr'ok _] Hok].
           cbn [List.length] in Hfit.
           rewrite (unpack_pair_record p_in bufferSize position index r') in H
             by (try assumption; lia).
           replace (n_in + 1 + Z.of_nat (List.length (r' :: rs')))
             with (n_in + 1 + 1 + Z.of_nat (List.length rs')) in H
             by (cbn [List.length]; lia).
           apply (IH _ r' rs' _ _ j) in H; try reflexivity; try assumption; try lia.
           2:{ rewrite Hdrop. constructor; [assumption|].
               apply List.Forall_forall. intros x Hx.
               apply in_map_iff in Hx as (y & <- & Hy). apply Hl_lt, Hy. }
           rewrite H, Hdrop, Hlast. cbn [List.length].
           rewrite <- Nat.succ_min_distr. lia.
Qed.

End Position.

Section UnpackMore2.

Lemma unpackIndices_full
      (m : memory) (remote : RemoteIndexList) (received : list (Z * Z))
      (local : list pointer) (localEntries : Z) (located : list (pointer * Z))
      (p_in : list Z) (position bufferSize : Z) :
  Forall record_ok received ->
  holds_records p_in position received ->
  0 <= position ->
  position + 5 * Z.of_nat (List.length received) <= bufferSize ->
  bufferSize <= Z.of_nat (List.length p_in) ->
  0 <= localEntries <= Z.of_nat (List.length local) ->
  with_globals m (take (Z.to_nat localEntries) local) = Some located ->
  StronglySorted Z.lt (map fst received) ->
  StronglySorted Z.lt (map snd located) ->
  RemoteIndices.unpackIndices m remote (Z.of_nat (List.length received)) local localEntries
                p_in MPITraits.PairType_type position bufferSize
  = Done (remote ++ merge_spec received located,
          position + 5 * Z.of_nat (records_read received located)).
Proof.
  intros Hok Hrs Hpos Hfit Hsize Hentries Hlocated Hsr Hsl.
  destruct (unpackIndices_run m remote received local localEntries located
              p_in position bufferSize Hok Hrs Hpos Hfit Hsize Hentries Hlocated)
    as (position' & Hrun & _).
  rewrite Hrun. do 2 f_equal.
  unfold RemoteIndices.unpackIndices in Hrun.
  destruct received as [|r rs].
  - cbn [List.length Z.of_nat Z.eqb] in Hrun. injection Hrun as _ <-.
    unfold records_read. cbn [List.length]. rewrite Nat.min_0_l. lia.
  - replace (Z.of_nat (List.length (r :: rs)) =? 0) with false in Hrun
      by (symmetry; apply Z.eqb_neq; simpl; lia).
    destruct Hrs as [Hr Hrs].
    apply Forall_cons in Hok as [[Hrok _] Hok].
    cbn [List.length] in Hfit.
    rewrite (unpack_pair_record p_in bufferSize position IndexPair.make0 r) in Hrun
      by (try assumption; lia).
    unfold mbind, outcome_bind in Hrun.
    set (bound := RemoteIndices.unpackIndices_bound _ _) in Hrun.
    replace (Z.of_nat (List.length (r :: rs))) with (0 + 1 + Z.of_nat (List.length rs))
      in Hrun by (cbn [List.length]; lia).
    apply (unpackIndices_loop_position m local localEntries located p_in bufferSize
             Hsize Hentries Hlocated _ _ r rs) in Hrun;
      try reflexivity; try assumption; try lia.
    rewrite Hrun. unfold records_read. cbn [List.length].
    change (drop (Z.to_nat 0) located) with located.
    rewrite <- Nat.succ_min_distr. lia.
Qed.

End UnpackMore2.




(** X1.  [unpackIndices] on a stream of pairs that ascend in the global
    index, against local pairs that ascend too, returns, and what it adds
    to the list is exactly one entry for every received pair whose global
    index a local pair has, in the order received, and nothing else: the
    attribute received with the pointer to the local pair. *)
Theorem unpackIndices_finds_common
        (m : memory) (remote : RemoteIndexList) (received : list (Z * Z))
        (local : list pointer) (localEntries : Z) (located : list (pointer * Z))
        (p_in : list Z) (position bufferSize : Z) :
  Forall record_ok received ->
  holds_records p_in position received ->
  0 <= position ->
  position + 5 * Z.of_nat (List.length received) <= bufferSize ->
  bufferSize <= Z.of_nat (List.length p_in) ->
  0 <= localEntries <= Z.of_nat (List.length local) ->
  with_globals m (take (Z.to_nat localEntries) local) = Some located ->
  StronglySorted Z.lt (map fst received) ->
  StronglySorted Z.lt (map snd located) ->
  ∃ new position',
    RemoteIndices.unpackIndices m remote (Z.of_nat (List.length received))
                  local localEntries p_in MPITraits.PairType_type position bufferSize
    = Done (remote ++ new, position')
    ∧ new = common_entries received located
    ∧ (∀ e, In e new
            ↔ ∃ g a ptr, In (g, a) received ∧ In (ptr, g) located
                         ∧ e = RemoteIndex.make a ptr)
    ∧ (List.length new <= List.length received)%nat
    ∧ (List.length new <= List.length located)%nat.
Proof.
  intros Hok Hrs Hpos Hfit Hsize Hentries Hlocated Hsr Hsl.
  exists (merge_spec received located),
         (position + 5 * Z.of_nat (records_read received located)).
  split; [apply unpackIndices_full; assumption|].
  split; [apply merge_spec_common; assumption|].
  split.
  - intros e. rewrite merge_spec_In by assumption. split.
    + intros ([g a] & [ptr g'] & Hr & Hl & Hg & ->). cbn [fst snd] in *. subst g'.
      exists g, a, ptr. auto.
    + intros (g & a & ptr & Hr & Hl & ->). exists (g, a), (ptr, g). auto.
  - split; [apply merge_spec_length_l|apply merge_spec_length_r].
Qed.

(** X2.  The cursor [unpackIndices] leaves.  It unpacks the first pair of a
    stream that is not empty, and a further pair only after one that is
    not beyond the last local pair: the cursor advances by the pairs up
    to the last local global index and one more, at most by the whole
    stream.  With no local pair it advances by one pair. *)
Theorem unpackIndices_position
        (m : memory) (remote : RemoteIndexList) (received : list (Z * Z))
        (local : list pointer) (localEntries : Z) (located : list (pointer * Z))
        (p_in : list Z) (position bufferSize : Z) :
  Forall record_ok received ->
  holds_records p_in position received ->
  0 <= position ->
  position + 5 * Z.of_nat (List.length received) <= bufferSize ->
  bufferSize <= Z.of_nat (List.length p_in) ->
  0 <= localEntries <= Z.of_nat (List.length local) ->
  with_globals m (take (Z.to_nat localEntries) local) = Some located ->
  StronglySorted Z.lt (map fst received) ->
  StronglySorted Z.lt (map snd located) ->
  ∃ remote',
    RemoteIndices.unpackIndices m remote (Z.of_nat (List.length received))
                  local localEntries p_in MPITraits.PairType_type position bufferSize
    = Done (remote', position + 5 * Z.of_nat (records_read received located)).
Proof.
  intros. eexists. apply unpackIndices_full; assumption.
Qed.

(** The pairs of rank 1 of scenario S1 against the array of rank 0: the
    only entry is the one of the global index 30. *)
Lemma unpackIndices_finds_common_witness :
  let m := Scenario.two_sets Scenario.S1_rank0 Scenario.empty_set in
  let received := [(30, Scenario.border); (40, Scenario.owner); (50, Scenario.owner)] in
  let local := [Pointer 100 0; Pointer 100 1; Pointer 100 2] in
  let located := [(Pointer 100 0, 10); (Pointer 100 1, 20); (Pointer 100 2, 30)] in
  let p_in := replicate 12 0 ++ flat_map record_bytes received in
  ∃ new position',
    RemoteIndices.unpackIndices m [] 3 local 3 p_in MPITraits.PairType_type 12 27
    = Done (new, position')
    ∧ new = [RemoteIndex.make Scenario.border (Pointer 100 2)]
    ∧ (∀ e, In e new
            ↔ ∃ g a ptr, In (g, a) received ∧ In (ptr, g) located
                         ∧ e = RemoteIndex.make a ptr)
    ∧ (List.length new <= 3)%nat
    ∧ (List.length new <= 3)%nat.
Proof.
  cbv zeta.
  apply (unpackIndices_finds_common
           (Scenario.two_sets Scenario.S1_rank0 Scenario.empty_set) []
           [(30, Scenario.border); (40, Scenario.owner); (50, Scenario.owner)]
           [Pointer 100 0; Pointer 100 1; Pointer 100 2] 3
           [(Pointer 100 0, 10); (Pointer 100 1, 20); (Pointer 100 2, 30)]).
  - repeat constructor; vm_compute; intuition discriminate.
  - vm_compute. intuition reflexivity.
  - lia.
  - simpl. lia.
  - simpl. lia.
  - simpl. lia.
  - reflexivity.
  - repeat constructor.
  - repeat constructor.
Defined.

(** The same stream: two of the three pairs are unpacked, the cursor
    stops ten bytes on, five bytes before the end of the stream. *)
Lemma unpackIndices_position_witness :
  let m := Scenario.two_sets Scenario.S1_rank0 Scenario.empty_set in
  let received := [(30, Scenario.border); (40, Scenario.owner); (50, Scenario.owner)] in
  let local := [Pointer 100 0; Pointer 100 1; Pointer 100 2] in
  let p_in := replicate 12 0 ++ flat_map record_bytes received in
  ∃ remote',
    RemoteIndices.unpackIndices m [] 3 local 3 p_in MPITraits.PairType_type 12 27
    = Done (remote', 12 + 5 * 2).
Proof.
  cbv zeta.
  apply (unpackIndices_position
           (Scenario.two_sets Scenario.S1_rank0 Scenario.empty_set) []
           [(30, Scenario.border); (40, Scenario.owner); (50, Scenario.owner)]
           [Pointer 100 0; Pointer 100 1; Pointer 100 2] 3
           [(Pointer 100 0, 10); (Pointer 100 1, 20); (Pointer 100 2, 30)]).
  - repeat constructor; vm_compute; intuition discriminate.
  - vm_compute. intuition reflexivity.
  - lia.
  - simpl. lia.
  - simpl. lia.
  - simpl. lia.
  - reflexivity.
  - repeat constructor.
  - repeat constructor.
Defined.

(** * packEntries *)

Section Bytes.

Lemma blit_nil (off : Z) (l : list Z) : blit off [] l = l.
Proof. unfold blit. cbn [app List.length]. rewrite Nat.add_0_r. apply take_drop. Qed.

Lemma blit_app (off : Z) (bs1 bs2 l : list Z) :
  0 <= off -> off <= Z.of_nat (List.length l) ->
  blit (off + Z.of_nat (List.length bs1)) bs2 (blit off bs1 l) = blit off (bs1 ++ bs2) l.
Proof.
  intros H0 Hl. unfold blit.
  replace (Z.to_nat (off + Z.of_nat (List.length bs1)))
    with (Z.to_nat off + List.length bs1)%nat by lia.
  set (o := Z.to_nat off).
  assert (Ho : List.length (take o l) = o) by (rewrite length_take; lia).
  rewrite (app_assoc (take o l) bs1).
  rewrite (take_app_length' (take o l ++ bs1)) by (rewrite length_app; lia).
  rewrite (drop_app_add' (take o l ++ bs1)) by (rewrite length_app; lia).
  rewrite drop_drop, length_app, <- !app_assoc.
  replace (o + List.length bs1 + List.length bs2)%nat
    with (o + (List.length bs1 + List.length bs2))%nat by lia.
  reflexivity.
Qed.

(** Bytes before the place written to stay. *)
Lemma slice_blit_before (off n off' : Z) (bs l : list Z) :
  0 <= off -> 0 <= n -> off + n <= off' -> off' <= Z.of_nat (List.length l) ->
  slice off n (blit off' bs l) = slice off n l.
Proof.
  intros H0 Hn Hle Hl. unfold slice, blit.
  set (o := Z.to_nat off). set (o' := Z.to_nat off'). set (k := Z.to_nat n).
  assert (Ho : List.length (take o' l) = o') by (rewrite length_take; lia).
  rewrite drop_app_le by lia.
  rewrite take_app_le by (rewrite length_drop; lia).
  rewrite skipn_firstn_comm, take_take.
  f_equal. lia.
Qed.

Lemma take_blit_before (n off : Z) (bs l : list Z) :
  0 <= n -> n <= off -> off <= Z.of_nat (List.length l) ->
  take (Z.to_nat n) (blit off bs l) = take (Z.to_nat n) l.
Proof.
  intros Hn Hle Hl. unfold blit.
  rewrite take_app_le by (rewrite length_take; lia).
  rewrite take_take. f_equal. lia.
Qed.

(** Bytes behind the place written to stay. *)
Lemma drop_blit_after (n off : Z) (bs l : list Z) :
  0 <= off -> off + Z.of_nat (List.length bs) <= n ->
  off + Z.of_nat (List.length bs) <= Z.of_nat (List.length l) ->
  drop (Z.to_nat n) (blit off bs l) = drop (Z.to_nat n) l.
Proof.
  intros H0 Hle Hl. unfold blit.
  set (o := Z.to_nat off).
  assert (Ho : List.length (take o l) = o) by (rewrite length_take; lia).
  rewrite app_assoc.
  rewrite drop_app_ge by (rewrite length_app; lia).
  rewrite length_app, drop_drop. f_equal. lia.
Qed.

Lemma slice_blit_here (off : Z) (bs l : list Z) (n : Z) :
  0 <= off -> n = Z.of_nat (List.length bs) ->
  off + n <= Z.of_nat (List.length l) ->
  slice off n (blit off bs l) = bs.
Proof. intros H0 -> Hl. apply slice_blit; assumption. Qed.

Lemma slice_blit_prefix (off : Z) (bs1 bs2 l : list Z) (n : Z) :
  0 <= off -> n = Z.of_nat (List.length bs1) ->
  off + n + Z.of_nat (List.length bs2) <= Z.of_nat (List.length l) ->
  slice off n (blit off (bs1 ++ bs2) l) = bs1.
Proof.
  intros H0 -> Hl. rewrite <- blit_app by lia.
  rewrite slice_blit_before; try lia.
  - apply slice_blit; lia.
  - rewrite blit_length; lia.
Qed.

Lemma length_record_bytes (r : Z * Z) : List.length (record_bytes r) = 5%nat.
Proof. reflexivity. Qed.

Lemma length_packed_pairs (l : list IndexPair.t) :
  List.length (packed_pairs l) = (5 * List.length l)%nat.
Proof.
  induction l as [|p l IH]; [reflexivity|].
  unfold packed_pairs in *. cbn [flat_map]. rewrite length_app, IH.
  rewrite length_record_bytes. cbn [List.length]. lia.
Qed.

Lemma holds_records_blit (rs : list IndexPair.t) :
  ∀ (position : Z) (l : list Z),
    0 <= position ->
    position + 5 * Z.of_nat (List.length rs) <= Z.of_nat (List.length l) ->
    holds_records (blit position (packed_pairs rs) l) position (map pair_record rs).
Proof.
  induction rs as [|r rs IH]; intros position l H0 Hl; [exact I|].
  cbn [map holds_records]. cbn [List.length] in Hl.
  change (packed_pairs (r :: rs)) with (record_bytes (pair_record r) ++ packed_pairs rs).
  split.
  - apply slice_blit_prefix; [assumption|reflexivity|].
    rewrite length_packed_pairs. lia.
  - rewrite <- blit_app by lia. rewrite length_record_bytes.
    apply IH; [lia|]. rewrite blit_length; [lia|lia|].
    rewrite length_record_bytes. lia.
Qed.

(** What was written is not touched by what is written behind it. *)
Lemma holds_records_blit_after (rs : list (Z * Z)) :
  ∀ (position off : Z) (bs l : list Z),
    0 <= position ->
    position + 5 * Z.of_nat (List.length rs) <= off ->
    off <= Z.of_nat (List.length l) ->
    holds_records l position rs ->
    holds_records (blit off bs l) position rs.
Proof.
  induction rs as [|r rs IH]; intros position off bs l H0 Hle Hl H; [exact I|].
  cbn [holds_records List.length] in *. destruct H as [Hr H]. split.
  - rewrite slice_blit_before; [assumption|lia..].
  - apply IH; [lia..|assumption].
Qed.

End Bytes.

Section PackEntries.
Import RemoteIndices.
Variable ignorePublic : bool.
Variable indexSet : Z.

Lemma published_pairs_cons (index : IndexPair.t) (rest : list IndexPair.t) :
  published_pairs ignorePublic (index :: rest)
  = if ignorePublic || ParallelLocalIndex.isPublic (IndexPair.local index)
    then index :: published_pairs ignorePublic rest
    else published_pairs ignorePublic rest.
Proof. reflexivity. Qed.

Lemma length_published (k : nat) (rest : list IndexPair.t) :
  List.length (published ignorePublic indexSet k rest)
  = List.length (published_pairs ignorePublic rest).
Proof.
  revert k. induction rest as [|x rest IH]; intros k; [reflexivity|].
  cbn [published]. rewrite published_pairs_cons.
  destruct (ignorePublic || ParallelLocalIndex.isPublic (IndexPair.local x));
    cbn [List.length]; rewrite IH; reflexivity.
Qed.

(** The run of the loop when the buffer and the array are large enough. *)
Lemma packEntries_loop_run (rest : list IndexPair.t) :
  ∀ (k : nat) (pairs : list pointer) (i : nat) (p_out : list Z)
    (bufferSize position : Z),
    0 <= position ->
    position + 5 * Z.of_nat (List.length (published_pairs ignorePublic rest)) <= bufferSize ->
    bufferSize <= Z.of_nat (List.length p_out) ->
    (i + List.length (published_pairs ignorePublic rest) <= List.length pairs)%nat ->
    ∃ pairs',
      packEntries_loop ignorePublic indexSet k rest pairs i
                       p_out MPITraits.PairType_type bufferSize position
      = Done (pairs',
              blit position (packed_pairs (published_pairs ignorePublic rest)) p_out,
              position + 5 * Z.of_nat (List.length (published_pairs ignorePublic rest))).
Proof.
  induction rest as [|x rest IH]; intros k pairs i p_out bufferSize position H0 Hfit Hsize Hi.
  - cbn [packEntries_loop published_pairs List.filter packed_pairs flat_map List.length].
    rewrite blit_nil. eexists. f_equal. f_equal. lia.
  - cbn [packEntries_loop]. rewrite published_pairs_cons in *.
    destruct (ignorePublic || ParallelLocalIndex.isPublic (IndexPair.local x)).
    + cbn [List.length] in Hfit, Hi.
      rewrite MPI_Pack_pair by lia. run_outcome.
      unfold array_store. rewrite decide_True by lia. run_outcome.
      destruct (IH (S k) (<[i := Pointer indexSet k]> pairs) (S i)
                   (blit position (record_bytes (pair_record x)) p_out)
                   bufferSize (position + 5)) as (pairs' & Hrun).
      * lia.
      * lia.
      * rewrite blit_length; [lia|lia|]. rewrite length_record_bytes. lia.
      * rewrite length_insert. lia.
      * exists pairs'.
        change (le_bytes 4 (IndexPair.global_ x)
                ++ [ParallelLocalIndex.attribute_ (IndexPair.local_ x)])
          with (record_bytes (pair_record x)).
        rewrite Hrun. f_equal. f_equal.
        -- change (packed_pairs (x :: published_pairs ignorePublic rest))
             with (record_bytes (pair_record x)
                   ++ packed_pairs (published_pairs ignorePublic rest)).
           rewrite <- blit_app by lia. rewrite length_record_bytes. reflexivity.
        -- cbn [List.length]. lia.
    + apply IH; assumption.
Qed.

(** The loop on a buffer that is too small for the pairs to pack. *)
Lemma packEntries_loop_truncate (rest : list IndexPair.t) :
  ∀ (k : nat) (pairs : list pointer) (i : nat) (p_out : list Z)
    (bufferSize position : Z),
    0 <= position <= bufferSize ->
    bufferSize < position + 5 * Z.of_nat (List.length (published_pairs ignorePublic rest)) ->
    bufferSize <= Z.of_nat (List.length p_out) ->
    (i + List.length (published_pairs ignorePublic rest) <= List.length pairs)%nat ->
    packEntries_loop ignorePublic indexSet k rest pairs i
                     p_out MPITraits.PairType_type bufferSize position
    = Fault MPI_ERR_TRUNCATE.
Proof.
  induction rest as [|x rest IH]; intros k pairs i p_out bufferSize position H0 Hfit Hsize Hi.
  - cbn [published_pairs List.filter List.length] in Hfit. lia.
  - cbn [packEntries_loop]. rewrite published_pairs_cons in *.
    destruct (ignorePublic || ParallelLocalIndex.isPublic (IndexPair.local x)).
    + cbn [List.length] in Hfit, Hi.
      destruct (decide (position + 5 <= bufferSize)) as [Hroom|Hnone].
      * rewrite MPI_Pack_pair by lia. run_outcome.
        unfold array_store. rewrite decide_True by lia. run_outcome.
        apply IH.
        -- lia.
        -- lia.
        -- rewrite blit_length; [lia|lia|]. cbn [List.length app le_bytes]. lia.
        -- rewrite length_insert. lia.
      * unfold pack_pair, MPI_Pack. rewrite packed_size_PairType.
        rewrite decide_False by lia. reflexivity.
    + apply IH; assumption.
Qed.

End PackEntries.

Section PackUnpack.
Import RemoteIndices.

Lemma published_pairs_In (ignorePublic : bool) (rest : list IndexPair.t) (p : IndexPair.t) :
  In p (published_pairs ignorePublic rest)
  ↔ In p rest
    ∧ (ignorePublic = true ∨ ParallelLocalIndex.isPublic (IndexPair.local p) = true).
Proof.
  unfold published_pairs. rewrite filter_In, orb_true_iff. reflexivity.
Qed.

Lemma published_pairs_sorted (ignorePublic : bool) (rest : list IndexPair.t) :
  StronglySorted Z.lt (map IndexPair.global rest) ->
  StronglySorted Z.lt (map IndexPair.global (published_pairs ignorePublic rest)).
Proof.
  induction rest as [|x rest IH]; intros Hs; [constructor|].
  apply (sorted_head_lt IndexPair.global) in Hs as [Hx Hs].
  rewrite published_pairs_cons.
  destruct (ignorePublic || ParallelLocalIndex.isPublic (IndexPair.local x)); [|auto].
  cbn [map]. constructor; [auto|].
  apply List.Forall_forall. intros g Hg.
  apply in_map_iff in Hg as (y & <- & Hy).
  apply published_pairs_In in Hy as [Hy _]. apply Hx, Hy.
Qed.

Lemma pair_record_ok (l : list IndexPair.t) :
  Forall IndexPair.ok l -> Forall record_ok (map pair_record l).
Proof.
  intros H. rewrite map_fmap. apply Forall_fmap.
  eapply Forall_impl; [exact H|].
  intros p (Hg & _ & Ha & _). split; assumption.
Qed.

Lemma published_pairs_ok (ignorePublic : bool) (rest : list IndexPair.t) :
  Forall IndexPair.ok rest -> Forall IndexPair.ok (published_pairs ignorePublic rest).
Proof.
  intros H. apply List.Forall_forall. intros p Hp.
  apply published_pairs_In in Hp as [Hp _].
  rewrite List.Forall_forall in H. apply H, Hp.
Qed.

Lemma packEntries_run (ignorePublic : bool) (m : memory) (pairs : list pointer)
      (indexSet : Z) (p_out : list Z) (bufferSize position : Z) :
  let sent := published_pairs ignorePublic (IndexSet.pairs (m indexSet)) in
  0 <= position ->
  position + 5 * Z.of_nat (List.length sent) <= bufferSize ->
  bufferSize <= Z.of_nat (List.length p_out) ->
  (List.length sent <= List.length pairs)%nat ->
  packEntries ignorePublic m pairs indexSet p_out MPITraits.PairType_type
              bufferSize position
  = Done (published ignorePublic indexSet 0 (IndexSet.pairs (m indexSet))
          ++ drop (List.length sent) pairs,
          blit position (packed_pairs sent) p_out,
          position + 5 * Z.of_nat (List.length sent)).
Proof.
  intros sent H0 Hfit Hsize Hpairs. unfold packEntries.
  destruct (packEntries_loop_run ignorePublic indexSet (IndexSet.pairs (m indexSet))
              0 pairs 0 p_out bufferSize position H0 Hfit Hsize)
    as (pairs' & Hrun); [exact Hpairs|].
  rewrite Hrun. apply packEntries_loop_pairs in Hrun.
  rewrite Hrun. cbn [take app Nat.add]. rewrite length_published. reflexivity.
Qed.

End PackUnpack.

(** X3.  [packEntries] with room for its pointers in [pairs].  If the buffer
    has room for the published pairs of the index set from [position]
    on, the pointers to these pairs are stored at the front of [pairs],
    five bytes for each pair (the global index and the attribute) are
    written from [position] on in the order of the set, no other byte of
    the buffer changes, and the position advances by five bytes for
    each pair.  If the buffer has not the room, the transport stops the
    program. *)
Theorem packEntries_layout (ignorePublic : bool) (m : memory) (pairs : list pointer)
        (indexSet : Z) (p_out : list Z) (bufferSize position : Z) :
  let sent := published_pairs ignorePublic (IndexSet.pairs (m indexSet)) in
  0 <= position <= bufferSize ->
  bufferSize <= Z.of_nat (List.length p_out) ->
  (List.length sent <= List.length pairs)%nat ->
  RemoteIndices.packEntries ignorePublic m pairs indexSet p_out
                            MPITraits.PairType_type bufferSize position
  = if decide (position + 5 * Z.of_nat (List.length sent) <= bufferSize)
    then Done (published ignorePublic indexSet 0 (IndexSet.pairs (m indexSet))
               ++ drop (List.length sent) pairs,
               take (Z.to_nat position) p_out
               ++ packed_pairs sent
               ++ drop (Z.to_nat position + 5 * List.length sent) p_out,
               position + 5 * Z.of_nat (List.length sent))
    else Fault MPI_ERR_TRUNCATE.
Proof.
  intros sent H0 Hsize Hpairs.
  destruct (decide (position + 5 * Z.of_nat (List.length sent) <= bufferSize)) as [Hfit|Hnot].
  - rewrite packEntries_run by (try assumption; lia).
    unfold blit. rewrite length_packed_pairs. reflexivity.
  - unfold RemoteIndices.packEntries.
    apply packEntries_loop_truncate; try assumption.
    fold sent. lia.
Qed.

(** Rank 0 of scenario S1 packs its three pairs behind a header of
    twelve bytes into a buffer of 27 bytes. *)
Lemma packEntries_layout_witness :
  let m := Scenario.two_sets Scenario.S1_rank0 Scenario.empty_set in
  RemoteIndices.packEntries false m (new_pointers 3) 100 (replicate 27 0)
                            MPITraits.PairType_type 27 12
  = Done ([Pointer 100 0; Pointer 100 1; Pointer 100 2],
          replicate 12 0 ++ [10; 0; 0; 0; 0; 20; 0; 0; 0; 0; 30; 0; 0; 0; 1],
          27).
Proof.
  cbv zeta.
  rewrite (packEntries_layout false
             (Scenario.two_sets Scenario.S1_rank0 Scenario.empty_set)
             (new_pointers 3) 100 (replicate 27 0) 27 12).
  - vm_compute. reflexivity.
  - lia.
  - simpl. lia.
  - vm_compute. lia.
Defined.

(** X4.  The pairs a process packs with [packEntries], unpacked by
    [unpackIndices] on another process against its ascending local
    pairs: the list made has an entry for exactly the published pairs of
    the sender whose global index is one of the local pairs, with the
    attribute the pair has on the sender and the pointer to the local
    pair. *)
Theorem packEntries_unpackIndices
        (ignorePublic : bool) (sender receiver : memory) (indexSet : Z)
        (pairs : list pointer) (buffer : list Z) (bufferSize position : Z)
        (local : list pointer) (localEntries : Z) (located : list (pointer * Z)) :
  let sent := published_pairs ignorePublic (IndexSet.pairs (sender indexSet)) in
  Forall IndexPair.ok (IndexSet.pairs (sender indexSet)) ->
  IndexSet.ascending (sender indexSet) ->
  0 <= position ->
  position + 5 * Z.of_nat (List.length sent) <= bufferSize ->
  bufferSize <= Z.of_nat (List.length buffer) ->
  (List.length sent <= List.length pairs)%nat ->
  0 <= localEntries <= Z.of_nat (List.length local) ->
  with_globals receiver (take (Z.to_nat localEntries) local) = Some located ->
  StronglySorted Z.lt (map snd located) ->
  ∃ pairs' packed remote position',
    RemoteIndices.packEntries ignorePublic sender pairs indexSet buffer
                              MPITraits.PairType_type bufferSize position
    = Done (pairs', packed, position + 5 * Z.of_nat (List.length sent))
    ∧ RemoteIndices.unpackIndices receiver [] (Z.of_nat (List.length sent))
                                  local localEntries packed
                                  MPITraits.PairType_type position bufferSize
      = Done (remote, position')
    ∧ ∀ e, In e remote
           ↔ ∃ s ptr, In s sent ∧ In (ptr, IndexPair.global s) located
                      ∧ e = RemoteIndex.make
                              (ParallelLocalIndex.attribute (IndexPair.local s)) ptr.
Proof.
  intros sent Hok Hasc H0 Hfit Hsize Hpairs Hentries Hlocated Hsl.
  assert (Hlen : List.length (map pair_record sent) = List.length sent)
    by apply length_map.
  assert (Hsorted : StronglySorted Z.lt (map fst (map pair_record sent))).
  { rewrite map_map. apply published_pairs_sorted, Hasc. }
  assert (Hrecords : Forall record_ok (map pair_record sent)).
  { apply pair_record_ok, published_pairs_ok, Hok. }
  eexists _, _, (merge_spec (map pair_record sent) located), _.
  split; [apply packEntries_run; assumption|].
  split.
  - rewrite <- Hlen.
    apply (unpackIndices_full receiver [] (map pair_record sent)); try assumption.
    + apply holds_records_blit; lia.
    + lia.
    + rewrite blit_length; [lia|lia|]. rewrite length_packed_pairs. fold sent. lia.
  - assert (Hsent : ∀ s, In s sent -> IndexPair.ok s).
    { intros s Hs. apply published_pairs_In in Hs as [Hs _].
      rewrite List.Forall_forall in Hok. apply Hok, Hs. }
    intros e. rewrite merge_spec_In by assumption. split.
    + intros (r & [ptr g] & Hr & Hl & Hg & ->).
      apply in_map_iff in Hr as (s & <- & Hs). cbn [fst snd pair_record] in *. subst g.
      exists s, ptr. rewrite (make_attribute s ptr (Hsent s Hs)). auto.
    + intros (s & ptr & Hs & Hl & ->).
      exists (pair_record s), (ptr, IndexPair.global s).
      split; [apply in_map, Hs|].
      rewrite (make_attribute s ptr (Hsent s Hs)). auto.
Qed.

(** Rank 1 of scenario S1 packs its pairs, rank 0 unpacks them against
    the pointers to its own. *)
Lemma packEntries_unpackIndices_witness :
  let sender := Scenario.two_sets Scenario.S1_rank1 Scenario.empty_set in
  let receiver := Scenario.two_sets Scenario.S1_rank0 Scenario.empty_set in
  let local := [Pointer 100 0; Pointer 100 1; Pointer 100 2] in
  ∃ pairs' packed remote position',
    RemoteIndices.packEntries false sender (new_pointers 3) 100 (replicate 27 0)
                              MPITraits.PairType_type 27 12
    = Done (pairs', packed, 27)
    ∧ RemoteIndices.unpackIndices receiver [] 3 local 3 packed
                                  MPITraits.PairType_type 12 27
      = Done (remote, position')
    ∧ In (RemoteIndex.make Scenario.border (Pointer 100 2)) remote.
Proof.
  cbv zeta.
  destruct (packEntries_unpackIndices false
              (Scenario.two_sets Scenario.S1_rank1 Scenario.empty_set)
              (Scenario.two_sets Scenario.S1_rank0 Scenario.empty_set)
              100 (new_pointers 3) (replicate 27 0) 27 12
              [Pointer 100 0; Pointer 100 1; Pointer 100 2] 3
              [(Pointer 100 0, 10); (Pointer 100 1, 20); (Pointer 100 2, 30)])
    as (pairs' & packed & remote & position' & Hpack & Hunpack & Hin).
  - repeat constructor; vm_compute; intuition discriminate.
  - vm_compute. repeat constructor.
  - lia.
  - vm_compute. discriminate.
  - simpl. lia.
  - vm_compute. lia.
  - simpl. lia.
  - reflexivity.
  - repeat constructor.
  - exists pairs', packed, remote, position'.
    split; [exact Hpack|]. split; [exact Hunpack|].
    apply Hin. exists (Scenario.entry 30 0 Scenario.border true), (Pointer 100 2).
    split; [left; reflexivity|]. split; [right; right; left; reflexivity|reflexivity].
Defined.

(** * buildLocal on one index set *)

Section BuildLocalSame.
Import RemoteIndices.
Variable ignorePublic : bool.

(** A destination pair below every source pair left is passed over. *)
Lemma buildLocal_loop_behind (d : IndexPair.t) (ss ds : list IndexPair.t) :
  (∀ s, In s ss -> IndexPair.global d < IndexPair.global s) ->
  buildLocal_loop ignorePublic ss (d :: ds) = buildLocal_loop ignorePublic ss ds.
Proof.
  destruct ss as [|s ss]; intros Hd.
  - reflexivity.
  - rewrite buildLocal_loop_cons.
    specialize (Hd s (or_introl eq_refl)).
    unfold copy_test.
    replace (IndexPair.global d =? IndexPair.global s) with false
      by (symmetry; apply Z.eqb_neq; lia).
    replace (IndexPair.global d <? IndexPair.global s) with true
      by (symmetry; apply Z.ltb_lt; lia).
    reflexivity.
Qed.

Lemma buildLocal_loop_same (ss : list IndexPair.t) :
  ascending_pairs ss ->
  buildLocal_loop ignorePublic ss ss
  = map (fun s => copy_of s s) (published_pairs ignorePublic ss).
Proof.
  induction ss as [|s ss IH]; intros Hs; [reflexivity|].
  apply ascending_pairs_cons in Hs as [Hlt Hs].
  rewrite buildLocal_loop_cons, published_pairs_cons.
  unfold copy_test. rewrite Z.eqb_refl, andb_diag. cbn [andb].
  destruct (ignorePublic || ParallelLocalIndex.isPublic (IndexPair.local s)).
  - cbn [map]. rewrite IH by assumption. reflexivity.
  - rewrite Z.ltb_irrefl. rewrite buildLocal_loop_behind by assumption.
    apply IH, Hs.
Qed.

End BuildLocalSame.

(** X5.  [buildLocal] when source and destination are one index set that
    ascends strictly: [copyLocal_] holds one entry for every published
    pair of the set, in the order of the set, made of the local index of
    the pair twice. *)
Theorem buildLocal_same_set (ignorePublic : bool) (m : memory) (x : RemoteIndices.t) :
  RemoteIndices.source_ x = RemoteIndices.dest_ x ->
  IndexSet.ascending (m (RemoteIndices.source_ x)) ->
  RemoteIndices.copyLocal_ (RemoteIndices.buildLocal ignorePublic m x)
  = map (fun s => (to_int (ParallelLocalIndex.local (IndexPair.local s)),
                   to_int (ParallelLocalIndex.local (IndexPair.local s))))
        (published_pairs ignorePublic (IndexSet.pairs (m (RemoteIndices.source_ x)))).
Proof.
  intros Hsame Hs. unfold RemoteIndices.buildLocal.
  cbn [RemoteIndices.copyLocal_ RemoteIndices.set_copyLocal_].
  rewrite <- Hsame. apply buildLocal_loop_same, Hs.
Qed.

(** The set of rank 0 of scenario S1 as source and destination. *)
Lemma buildLocal_same_set_witness :
  let m := Scenario.two_sets Scenario.S1_rank0 Scenario.empty_set in
  RemoteIndices.copyLocal_
    (RemoteIndices.buildLocal false m (RemoteIndices.make 100 100 0))
  = [(0, 0); (1, 1); (2, 2)].
Proof.
  cbv zeta.
  rewrite (buildLocal_same_set false
             (Scenario.two_sets Scenario.S1_rank0 Scenario.empty_set)
             (RemoteIndices.make 100 100 0)).
  - reflexivity.
  - reflexivity.
  - vm_compute. repeat constructor.
Defined.

(** * buildLocal in the other direction *)

Section BuildLocalReverse.
Import RemoteIndices.
Variable ignorePublic : bool.

Lemma copy_test_sym (s d : IndexPair.t) :
  copy_test ignorePublic d s = copy_test ignorePublic s d.
Proof.
  unfold copy_test. rewrite Z.eqb_sym.
  rewrite (andb_comm (ParallelLocalIndex.isPublic (IndexPair.local s))). reflexivity.
Qed.

Lemma buildLocal_loop_reverse (ss : list IndexPair.t) :
  ∀ ds, ascending_pairs ss -> ascending_pairs ds ->
        buildLocal_loop ignorePublic ds ss
        = map (fun c => (snd c, fst c)) (buildLocal_loop ignorePublic ss ds).
Proof.
  induction ss as [|s ss IHs]; intros ds Hss Hds.
  { rewrite buildLocal_loop_nil_r. reflexivity. }
  apply ascending_pairs_cons in Hss as Hs. destruct Hs as [Hs Hss'].
  induction ds as [|d ds IHd].
  { rewrite buildLocal_loop_nil_r. reflexivity. }
  apply ascending_pairs_cons in Hds as Hd. destruct Hd as [Hd Hds'].
  rewrite !buildLocal_loop_cons, copy_test_sym.
  destruct (copy_test ignorePublic s d) eqn:Htest.
  - cbn [map]. rewrite (IHs ds) by assumption. reflexivity.
  - destruct (Z.ltb_spec (IndexPair.global d) (IndexPair.global s)) as [Hlt|Hge].
    + replace (IndexPair.global s <? IndexPair.global d) with false
        by (symmetry; apply Z.ltb_ge; lia).
      apply IHd, Hds'.
    + destruct (Z.ltb_spec (IndexPair.global s) (IndexPair.global d)) as [Hlt'|Hge'].
      * apply IHs; assumption.
      * (* the same global index on both sides, not to be copied *)
        assert (Heq : IndexPair.global s = IndexPair.global d) by lia.
        rewrite (buildLocal_loop_behind ignorePublic s ds ss)
          by (intros y Hy; specialize (Hd y Hy); lia).
        rewrite (buildLocal_loop_behind ignorePublic d ss ds)
          by (intros y Hy; specialize (Hs y Hy); lia).
        apply IHs; assumption.
Qed.

End BuildLocalReverse.

(** X6.  [buildLocal] of an object with source and destination exchanged: on
    index sets that ascend strictly, [copyLocal_] is the list of the
    object itself with the two components of every entry exchanged. *)
Theorem buildLocal_reverse (ignorePublic : bool) (m : memory) (x y : RemoteIndices.t) :
  RemoteIndices.source_ y = RemoteIndices.dest_ x ->
  RemoteIndices.dest_ y = RemoteIndices.source_ x ->
  IndexSet.ascending (m (RemoteIndices.source_ x)) ->
  IndexSet.ascending (m (RemoteIndices.dest_ x)) ->
  RemoteIndices.copyLocal_ (RemoteIndices.buildLocal ignorePublic m y)
  = map (fun c => (snd c, fst c))
        (RemoteIndices.copyLocal_ (RemoteIndices.buildLocal ignorePublic m x)).
Proof.
  intros Hs Hd Hsource Hdest. unfold RemoteIndices.buildLocal.
  cbn [RemoteIndices.copyLocal_ RemoteIndices.set_copyLocal_].
  rewrite Hs, Hd. apply buildLocal_loop_reverse; assumption.
Qed.

(** Scenario S4 in both directions. *)
Lemma buildLocal_reverse_witness :
  let m := Scenario.two_sets Scenario.S4_source Scenario.S4_destination in
  RemoteIndices.copyLocal_
    (RemoteIndices.buildLocal false m (RemoteIndices.make 200 100 0))
  = [(0, 1)]
  ∧ RemoteIndices.copyLocal_
      (RemoteIndices.buildLocal false m (RemoteIndices.make 100 200 0))
    = [(1, 0)].
Proof.
  cbv zeta. split; [|reflexivity].
  rewrite (buildLocal_reverse false
             (Scenario.two_sets Scenario.S4_source Scenario.S4_destination)
             (RemoteIndices.make 100 200 0) (RemoteIndices.make 200 100 0)).
  - reflexivity.
  - reflexivity.
  - reflexivity.
  - vm_compute. repeat constructor.
  - vm_compute. repeat constructor.
Defined.

(** * The ring loop, process by process *)

Section RingSteps.
Import RemoteIndices BuildRemote.

Lemma mapM_Done_lookup {A B} (f : A -> outcome B) (l : list A) (k : list B) :
  mapM f l = Done k ->
  List.length k = List.length l
  ∧ ∀ i y, k !! i = Some y -> ∃ x, l !! i = Some x ∧ f x = Done y.
Proof.
  intros H. apply mapM_Done in H. split.
  - symmetry. eapply Forall2_length, H.
  - intros i y Hy. eapply Forall2_lookup_r in H as (x & Hx & Hf); eauto.
Qed.

(** A relation to the processes at the entry that every process keeps on
    its own, whatever message it receives, is kept by the hop. *)
Lemma hop_Forall2 (ignorePublic : bool) (proc : Z)
      (R R' : process * locals -> process * locals -> Prop)
      (sts0 sts sts' : list (process * locals)) :
  (∀ st0 p l l1 message l2 st',
      R st0 (p, l) ->
      hop_pack ignorePublic proc p l = Done l1 ->
      hop_recv proc message l1 = Done l2 ->
      hop_unpack proc (p, l2) = Done st' ->
      R' st0 st') ->
  Forall2 R sts0 sts ->
  hop ignorePublic proc sts = Done sts' ->
  Forall2 R' sts0 sts'.
Proof.
  intros Hstep HR H. unfold hop in H.
  bind_inv H as sts1 Hpack. bind_inv H as sts2 Hrecv.
  apply mapM_Done_lookup in Hpack as [Hlen1 Hpack].
  apply mapM_Done_lookup in Hrecv as [Hlen2 Hrecv].
  apply mapM_Done_lookup in H as [Hlen3 H].
  apply Forall2_same_length_lookup_2.
  - apply Forall2_length in HR. lia.
  - intros i st0 st' Hst0 Hst'.
    destruct (H i st' Hst') as ([p2 l2] & Hst2 & Hunpack).
    destruct (Hrecv i _ Hst2) as ([p1 l1] & Hst1 & Hr).
    destruct (Hpack i _ Hst1) as ([p l] & Hst & Hp).
    cbn [fst snd] in Hr, Hp.
    bind_inv Hp as l1' Hl1. injection Hp as <- <-.
    bind_inv Hr as message Hmessage. bind_inv Hr as l2' Hl2. injection Hr as <- <-.
    eapply Hstep; [|exact Hl1|exact Hl2|exact Hunpack].
    eapply Forall2_lookup_lr; eassumption.
Qed.

(** A property of all the processes that every hop before [last] keeps
    holds when the loop is left. *)
Lemma ring_from_invariant (ignorePublic : bool)
      (I : Z -> list (process * locals) -> Prop) (last : Z) (turns : nat) :
  (∀ proc sts sts',
      1 <= proc < last -> I proc sts -> hop ignorePublic proc sts = Done sts' ->
      I (proc + 1) sts') ->
  ∀ proc sts sts',
    1 <= proc ->
    proc + Z.of_nat turns = last ->
    I proc sts ->
    ring_from ignorePublic turns proc sts = Done sts' ->
    I last sts'.
Proof.
  intros Hstep. induction turns as [|turns IH]; intros proc sts sts' H1 Hlast HI H;
    cbn [ring_from] in H.
  - injection H as <-. replace last with proc by lia. exact HI.
  - bind_inv H as sts1 Hhop.
    apply (IH (proc + 1) sts1 sts'); [lia|lia| |exact H].
    eapply Hstep; [|exact HI|exact Hhop]. lia.
Qed.

(** ** What a hop does to a process *)

Lemma hop_pack_constants (ignorePublic : bool) (proc : Z) (p : process) (l l' : locals) :
  hop_pack ignorePublic proc p l = Done l' ->
  rank l' = rank l ∧ procs l' = procs l ∧ sendTwo l' = sendTwo l
  ∧ sourcePublish l' = sourcePublish l ∧ destPublish l' = destPublish l
  ∧ bufferSize l' = bufferSize l ∧ type l' = type l.
Proof.
  unfold hop_pack. intros H. destruct (proc =? 1); [|injection H as <-; repeat split].
  bind_inv H. destruct a as [out1 position1].
  bind_inv H. destruct a as [out2 position2].
  bind_inv H. destruct a as [out3 position3].
  bind_inv H. destruct a as [[pairs1 out4] position4].
  bind_inv H. destruct a as [[pairs2 out5] position5].
  injection H as <-. unfold set_position, set_p_out, set_pairs.
  destruct (Z.rem proc 2 =? 0); repeat split.
Qed.

Lemma hop_recv_constants (proc : Z) (message : list Z) (l l' : locals) :
  hop_recv proc message l = Done l' ->
  rank l' = rank l ∧ procs l' = procs l ∧ sendTwo l' = sendTwo l
  ∧ sourcePublish l' = sourcePublish l ∧ destPublish l' = destPublish l
  ∧ bufferSize l' = bufferSize l ∧ type l' = type l
  ∧ sourcePairs l' = sourcePairs l ∧ destPairs_new l' = destPairs_new l
  ∧ position l' = position l.
Proof.
  unfold hop_recv. intros H. case_decide; [|discriminate].
  injection H as <-. unfold set_p_in.
  destruct (Z.rem proc 2 =? 0); repeat split.
Qed.

(** The lists a hop makes, what becomes of them, and what becomes of
    [remoteIndices_]. *)
Lemma hop_unpack_effect (proc : Z) (p p' : process) (l l' : locals) :
  hop_unpack proc (p, l) = Done (p', l') ->
  mem p' = mem p ∧ stale p' = stale p
  ∧ l' = set_position (position l') l
  ∧ ∃ (sent received : RemoteIndexList) (aliased : bool),
      map RemoteIndex.localIndex_ received `sublist_of` destPairs l
      ∧ (if aliased then sent = received ∧ sendTwo l = false
         else map RemoteIndex.localIndex_ sent `sublist_of` sourcePairs l)
      ∧ let base := List.length (heap p) in
        let send := if aliased then base else S base in
        if bool_decide (sent = []) && bool_decide (received = [])
        then this p' = this p
             ∧ heap p' = heap p ++ (if aliased then [None] else [None; None])
        else this p'
             = set_remoteIndices_
                 (std_map_insert (remoteProc proc l) (send, base)
                                 (remoteIndices_ (this p))) (this p)
             ∧ heap p'
               = heap p ++ (if aliased then [Some received]
                            else [Some received; Some sent]).
Proof.
  intros H. unfold hop_unpack in H.
  bind_inv H. destruct a as [[[[l1 h] send] receive] two].
  bind_inv H. destruct a as [h' x']. injection H as <- <-.
  cbn [mem stale this heap set_this set_heap].
  apply hop_lists_shape in Ha as (-> & Hl1 & received & Hsub & Hcases).
  assert (Hproc : remoteProc proc l1 = remoteProc proc l).
  { rewrite Hl1. reflexivity. }
  rewrite Hproc in Ha0. clear Hproc.
  split; [reflexivity|]. split; [reflexivity|]. split; [exact Hl1|].
  assert (Hlen : ∀ c : list (option RemoteIndexList),
             (heap p ++ c) !! List.length (heap p) = c !! 0%nat).
  { intros c. rewrite lookup_app_r by lia. rewrite Nat.sub_diag. reflexivity. }
  assert (Hlen1 : ∀ c : list (option RemoteIndexList),
             (heap p ++ c) !! S (List.length (heap p)) = c !! 1%nat).
  { intros c. rewrite lookup_app_r by lia.
    replace (S (List.length (heap p)) - List.length (heap p))%nat with 1%nat by lia.
    reflexivity. }
  assert (Hins : ∀ (c : list (option RemoteIndexList)) v,
             <[List.length (heap p) := v]> (heap p ++ c) = heap p ++ <[0%nat := v]> c).
  { intros c v. rewrite insert_app_r_alt by lia. rewrite Nat.sub_diag. reflexivity. }
  assert (Hins1 : ∀ (c : list (option RemoteIndexList)) v,
             <[S (List.length (heap p)) := v]> (heap p ++ c) = heap p ++ <[1%nat := v]> c).
  { intros c v. rewrite insert_app_r_alt by lia.
    replace (S (List.length (heap p)) - List.length (heap p))%nat with 1%nat by lia.
    reflexivity. }
  unfold hop_store, list_at, delete_list in Ha0.
  destruct (negb (two =? 0) || sendTwo l) eqn:Htwo.
  - destruct Hcases as (-> & sent & -> & Hsub').
    exists sent, received, false.
    split; [exact Hsub|]. split; [exact Hsub'|]. cbv zeta.
    rewrite Hlen, Hlen1 in Ha0. cbn [lookup list_lookup or_fault] in Ha0.
    unfold mbind, outcome_bind in Ha0.
    destruct (bool_decide (sent = []) && bool_decide (received = [])).
    + rewrite bool_decide_eq_false_2 in Ha0 by lia.
      rewrite ?Hlen1 in Ha0. cbn [lookup list_lookup] in Ha0.
      rewrite !Hins1 in Ha0. cbn [insert list_insert] in Ha0.
      rewrite Hlen in Ha0. cbn [lookup list_lookup] in Ha0.
      rewrite Hins in Ha0. cbn [insert list_insert] in Ha0.
      injection Ha0 as <- <-. split; reflexivity.
    + injection Ha0 as <- <-. split; reflexivity.
  - destruct Hcases as (-> & ->).
    apply orb_false_iff in Htwo as [_ Htwo].
    exists received, received, true.
    split; [exact Hsub|]. split; [split; [reflexivity|exact Htwo]|]. cbv zeta.
    rewrite Hlen in Ha0. cbn [lookup list_lookup or_fault] in Ha0.
    unfold mbind, outcome_bind in Ha0.
    destruct (bool_decide (received = []) && bool_decide (received = [])).
    + rewrite bool_decide_eq_true_2 in Ha0 by reflexivity.
      rewrite ?Hlen in Ha0. cbn [lookup list_lookup] in Ha0.
      rewrite Hins in Ha0. cbn [insert list_insert] in Ha0.
      injection Ha0 as <- <-. split; reflexivity.
    + injection Ha0 as <- <-. split; reflexivity.
Qed.

End RingSteps.

Section RingInv.
Import RemoteIndices BuildRemote.
Variable ignorePublic : bool.

Lemma remoteProc_mod (j : Z) (l : locals) :
  0 <= rank l < procs l -> 1 <= j < procs l ->
  remoteProc j l = (if rank l <? j then rank l + procs l - j else rank l - j).
Proof.
  intros Hr Hj. unfold remoteProc.
  rewrite Z.rem_mod_nonneg by lia.
  destruct (Z.ltb_spec (rank l) j).
  - apply Z.mod_small. lia.
  - replace (rank l + procs l - j) with (rank l - j + 1 * procs l) by lia.
    rewrite Z.mod_add by lia. apply Z.mod_small. lia.
Qed.

Lemma remoteProc_range (j : Z) (l : locals) :
  0 <= rank l < procs l -> 1 <= j < procs l ->
  0 <= remoteProc j l < procs l ∧ remoteProc j l ≠ rank l.
Proof.
  intros Hr Hj. rewrite remoteProc_mod by assumption.
  destruct (rank l <? j) eqn:E; [apply Z.ltb_lt in E|apply Z.ltb_ge in E]; lia.
Qed.

Lemma remoteProc_inj (j j' : Z) (l : locals) :
  0 <= rank l < procs l -> 1 <= j < procs l -> 1 <= j' < procs l ->
  remoteProc j l = remoteProc j' l -> j = j'.
Proof.
  intros Hr Hj Hj'. rewrite !remoteProc_mod by assumption.
  destruct (rank l <? j) eqn:E; [apply Z.ltb_lt in E|apply Z.ltb_ge in E];
    destruct (rank l <? j') eqn:E'; [apply Z.ltb_lt in E'|apply Z.ltb_ge in E'| |];
    try (apply Z.ltb_lt in E'); try (apply Z.ltb_ge in E'); lia.
Qed.

Lemma remoteProc_locals (j : Z) (l l' : locals) :
  rank l' = rank l -> procs l' = procs l -> remoteProc j l' = remoteProc j l.
Proof. unfold remoteProc. intros -> ->. reflexivity. Qed.

Lemma std_map_insert_new {V} (k : Z) (v : V) (m : gmap Z V) :
  m !! k = None -> std_map_insert k v m = <[k := v]> m.
Proof. unfold std_map_insert. intros ->. reflexivity. Qed.

Lemma list_at_app_l (h c : store) (a : nat) (l : RemoteIndexList) :
  list_at h a = Some l -> list_at (h ++ c) a = Some l.
Proof.
  intros H. pose proof (list_at_lt _ _ _ H) as Hlt.
  unfold list_at in *. rewrite lookup_app_l by assumption. exact H.
Qed.

Lemma list_at_app_inv (h c : store) (a : nat) (l : RemoteIndexList) :
  (a < List.length h)%nat -> list_at (h ++ c) a = Some l -> list_at h a = Some l.
Proof. intros Hlt. unfold list_at. rewrite lookup_app_l by assumption. auto. Qed.

Lemma list_at_app_r (h c : store) (a : nat) :
  (List.length h <= a)%nat -> list_at (h ++ c) a = list_at c (a - List.length h).
Proof. intros Hle. unfold list_at. rewrite lookup_app_r by assumption. reflexivity. Qed.

Lemma not_both_nil {A} (x y : list A) :
  bool_decide (x = []) && bool_decide (y = []) = false -> x ≠ [] ∨ y ≠ [].
Proof.
  intros H. apply andb_false_iff in H as [H|H];
    apply bool_decide_eq_false in H; auto.
Qed.

Lemma entry_ok_frame (base : nat) (p p' : process) (c : store) (s r : nat) :
  mem p' = mem p ->
  source_ (this p') = source_ (this p) ->
  dest_ (this p') = dest_ (this p) ->
  heap p' = heap p ++ c ->
  entry_ok ignorePublic base p s r -> entry_ok ignorePublic base p' s r.
Proof.
  intros Hm Hs Hd Hh (Hbs & Hbr & sent & received & Hsent & Hrecv & Hne & Hsr & Hss).
  split; [assumption|]. split; [assumption|].
  exists sent, received. rewrite Hh, Hm, Hs, Hd.
  split; [apply list_at_app_l, Hsent|]. split; [apply list_at_app_l, Hrecv|].
  auto.
Qed.

(** A process keeps [ring_inv] over a hop, whatever message arrives. *)
Lemma ring_inv_step (proc : Z) (st0 : process * locals) (p : process)
      (l l1 l2 : locals) (message : list Z) (st' : process * locals) :
  1 <= proc < procs (snd st0) ->
  ring_inv ignorePublic proc st0 (p, l) ->
  hop_pack ignorePublic proc p l = Done l1 ->
  hop_recv proc message l1 = Done l2 ->
  hop_unpack proc (p, l2) = Done st' ->
  ring_inv ignorePublic (proc + 1) st0 st'.
Proof.
  intros Hproc Hinv Hpack Hrecv Hunpack. destruct st' as [p' l'].
  destruct Hinv as (Hframe & Hrank & Hprocs & Htwo & Hfirst & Hlater & Hr0 & Hcells
                    & Hpeers & Hentries & Hown & Hdisjoint).
  cbn [fst snd] in *.
  pose proof (hop_pack_constants _ _ _ _ _ Hpack)
    as (Hrank1 & Hprocs1 & Htwo1 & _).
  pose proof (hop_recv_constants _ _ _ _ Hrecv)
    as (Hrank2 & Hprocs2 & Htwo2 & _ & _ & _ & _ & Hsp2 & Hdp2 & _).
  assert (Harr : arrays_ok ignorePublic p l2).
  { eapply hop_recv_arrays; [|exact Hrecv].
    destruct (decide (proc = 1)) as [->|Hne].
    - destruct (Hfirst eq_refl) as (maxPublish & Hl).
      eapply hop_pack_first; [exact Hl|exact Hpack].
    - apply hop_pack_later in Hpack; [|assumption]. subst l1. apply Hlater, Hne. }
  apply hop_unpack_effect in Hunpack
    as (Hmem & Hstale & Hl' & sent & received & aliased & Hsubr & Hsubs & Heffect).
  cbv zeta in Heffect.
  assert (Hrank' : rank l' = rank (snd st0)).
  { rewrite Hl'. cbn. congruence. }
  assert (Hprocs' : procs l' = procs (snd st0)).
  { rewrite Hl'. cbn. congruence. }
  assert (Hsame : source_ (this p) = dest_ (this p) ∨ sendTwo l2 = true).
  { rewrite Htwo2, Htwo1, Htwo.
    destruct (Z.eqb_spec (source_ (this p)) (dest_ (this p))); auto. }
  (* the pointers of the two lists *)
  assert (Hrecv_pub :
            map RemoteIndex.localIndex_ received
            `sublist_of` published ignorePublic (dest_ (this p)) 0
                           (IndexSet.pairs (mem p (dest_ (this p))))).
  { destruct Harr as [Hsp Hdp]. unfold destPairs in Hsubr.
    destruct (sendTwo l2) eqn:E.
    - rewrite Hdp in Hsubr by reflexivity. exact Hsubr.
    - destruct Hsame as [Hsame|]; [|discriminate].
      rewrite <- Hsame, <- Hsp. exact Hsubr. }
  assert (Hsent_pub :
            map RemoteIndex.localIndex_ sent
            `sublist_of` published ignorePublic (source_ (this p)) 0
                           (IndexSet.pairs (mem p (source_ (this p))))).
  { destruct Harr as [Hsp Hdp]. destruct aliased.
    - destruct Hsubs as [-> Hfalse].
      destruct Hsame as [Hsame|Htrue]; [|congruence].
      rewrite Hsame. exact Hrecv_pub.
    - rewrite <- Hsp. exact Hsubs. }
  set (base := List.length (heap (fst st0))) in *.
  destruct Hcells as (cells & Hcells).
  assert (Hbase : (base <= List.length (heap p))%nat).
  { rewrite Hcells, length_app. unfold base. lia. }
  assert (Hthis : source_ (this p') = source_ (this p)
                  ∧ dest_ (this p') = dest_ (this p)
                  ∧ comm_ (this p') = comm_ (this p)
                  ∧ sourceSeqNo_ (this p') = sourceSeqNo_ (this p)
                  ∧ destSeqNo_ (this p') = destSeqNo_ (this p)
                  ∧ copyLocal_ (this p') = copyLocal_ (this p)).
  { destruct (bool_decide (sent = []) && bool_decide (received = []));
      destruct Heffect as [-> _]; repeat split. }
  destruct Hthis as (Hsrc & Hdst & Hcomm & Hsseq & Hdseq & Hcopy).
  assert (Hheap : ∃ c, heap p' = heap p ++ c).
  { destruct (bool_decide (sent = []) && bool_decide (received = []));
      destruct Heffect as [_ ->]; eauto. }
  destruct Hheap as (c & Hheap).
  unfold ring_inv. cbn [fst snd].
  split.
  { destruct Hframe as (? & ? & ? & ? & ? & ? & ? & ?).
    repeat split; congruence. }
  split; [exact Hrank'|]. split; [exact Hprocs'|].
  split.
  { rewrite Hl'. cbn [sendTwo set_position]. rewrite Hsrc, Hdst. congruence. }
  split; [intros; lia|].
  split.
  { intros _. destruct Harr as [Hsp Hdp]. rewrite Hl'.
    split; cbn [sourcePairs destPairs_new sendTwo set_position];
      rewrite Hmem, ?Hsrc, ?Hdst; assumption. }
  split; [exact Hr0|].
  split.
  { exists (cells ++ c). rewrite Hheap, Hcells, app_assoc. reflexivity. }
  assert (Hl2 : remoteProc proc l2 = remoteProc proc l).
  { apply remoteProc_locals; congruence. }
  assert (Hkey_new : remoteIndices_ (this p) !! remoteProc proc l2 = None).
  { destruct (remoteIndices_ (this p) !! remoteProc proc l2) as [v|] eqn:E; [|reflexivity].
    destruct (Hpeers _ _ E) as (j & Hj & Hq).
    rewrite Hl2 in Hq.
    apply remoteProc_inj in Hq; [lia| | |]; rewrite ?Hrank, ?Hprocs; lia. }
  assert (Hold_lt : ∀ q s r, remoteIndices_ (this p) !! q = Some (s, r) ->
                             (s < List.length (heap p))%nat
                             ∧ (r < List.length (heap p))%nat).
  { intros q s r Hq.
    destruct (Hentries q s r Hq) as (_ & _ & ls & lr & Hls & Hlr & _).
    split; eapply list_at_lt; eassumption. }
  destruct (bool_decide (sent = []) && bool_decide (received = [])) eqn:Hempty.
  - (* both lists empty and freed *)
    destruct Heffect as [Hx Hh]. rewrite Hx.
    split.
    { intros q v Hq. destruct (Hpeers q v Hq) as (j & Hj & ->).
      exists j. split; [lia|]. symmetry. apply remoteProc_locals; congruence. }
    split.
    { intros q s r Hq.
      eapply entry_ok_frame; [exact Hmem|exact Hsrc|exact Hdst|exact Hheap|].
      apply Hentries with q. exact Hq. }
    split.
    + intros a la Ha Hlive. rewrite Hx.
      destruct (decide (a < List.length (heap p))%nat) as [Hlt|Hge].
      * rewrite Hh in Hlive. apply list_at_app_inv in Hlive; [|assumption].
        apply (Hown a la Ha Hlive).
      * rewrite Hh, list_at_app_r in Hlive by lia. exfalso.
        unfold list_at in Hlive.
        destruct aliased;
          destruct (a - List.length (heap p))%nat as [|[|[|]]];
          discriminate Hlive.
    + rewrite Hx. exact Hdisjoint.
  - (* an entry for the peer *)
    destruct Heffect as [Hx Hh].
    rewrite (std_map_insert_new _ _ _ Hkey_new) in Hx.
    set (send := if aliased then List.length (heap p) else S (List.length (heap p))) in *.
    assert (Hsend : list_at (heap p') send = Some sent).
    { rewrite Hh. rewrite list_at_app_r by (unfold send; destruct aliased; lia).
      unfold send. destruct aliased.
      - rewrite Nat.sub_diag. destruct Hsubs as [-> _]. reflexivity.
      - replace (S (List.length (heap p)) - List.length (heap p))%nat with 1%nat by lia.
        reflexivity. }
    assert (Hreceive : list_at (heap p') (List.length (heap p)) = Some received).
    { rewrite Hh. rewrite list_at_app_r by lia. rewrite Nat.sub_diag.
      destruct aliased; reflexivity. }
    assert (Hnew : entry_ok ignorePublic base p' send (List.length (heap p))).
    { split; [unfold send; destruct aliased; lia|]. split; [lia|].
      exists sent, received.
      split; [exact Hsend|]. split; [exact Hreceive|].
      split; [apply not_both_nil, Hempty|].
      rewrite Hmem, Hsrc, Hdst. split; assumption. }
    split.
    { intros q v Hq. rewrite Hx in Hq. cbn [remoteIndices_ set_remoteIndices_] in Hq.
      destruct (decide (remoteProc proc l2 = q)) as [<-|Hne].
      - exists proc. split; [lia|]. rewrite Hl2.
        symmetry. apply remoteProc_locals; congruence.
      - rewrite lookup_insert_ne in Hq by assumption.
        destruct (Hpeers q v Hq) as (j & Hj & ->).
        exists j. split; [lia|]. symmetry. apply remoteProc_locals; congruence. }
    split.
    { intros q s r Hq. rewrite Hx in Hq. cbn [remoteIndices_ set_remoteIndices_] in Hq.
      destruct (decide (remoteProc proc l2 = q)) as [<-|Hne].
      - rewrite lookup_insert_eq in Hq. injection Hq as <- <-. exact Hnew.
      - rewrite lookup_insert_ne in Hq by assumption.
        eapply entry_ok_frame; [exact Hmem|exact Hsrc|exact Hdst|exact Hheap|].
        apply Hentries with q. exact Hq. }
    split.
    + intros a la Ha Hlive.
      destruct (decide (a < List.length (heap p))%nat) as [Hlt|Hge].
      * rewrite Hh in Hlive. apply list_at_app_inv in Hlive; [|assumption].
        destruct (Hown a la Ha Hlive) as (q & s & r & Hq & Hsr).
        exists q, s, r. split; [|exact Hsr].
        rewrite Hx. cbn [remoteIndices_ set_remoteIndices_].
        rewrite lookup_insert_ne; [exact Hq|].
        intros Heq. rewrite <- Heq in Hq. congruence.
      * exists (remoteProc proc l2), send, (List.length (heap p)).
        split.
        { rewrite Hx. cbn [remoteIndices_ set_remoteIndices_]. apply lookup_insert_eq. }
        rewrite Hh, list_at_app_r in Hlive by lia.
        unfold list_at in Hlive. unfold send.
        destruct aliased;
          destruct (a - List.length (heap p))%nat as [|[|[|]]] eqn:Ea;
          try discriminate Hlive; lia.
    + intros q q' s r s' r' Hqq Hq Hq'.
      rewrite Hx in Hq, Hq'. cbn [remoteIndices_ set_remoteIndices_] in Hq, Hq'.
      assert (Hsend_ge : (List.length (heap p) <= send)%nat)
        by (unfold send; destruct aliased; lia).
      destruct (decide (remoteProc proc l2 = q)) as [<-|Hne].
      * rewrite lookup_insert_eq in Hq. injection Hq as <- <-.
        rewrite lookup_insert_ne in Hq' by assumption.
        destruct (Hold_lt _ _ _ Hq'). lia.
      * rewrite lookup_insert_ne in Hq by assumption.
        destruct (decide (remoteProc proc l2 = q')) as [<-|Hne'].
        -- rewrite lookup_insert_eq in Hq'. injection Hq' as <- <-.
           destruct (Hold_lt _ _ _ Hq). lia.
        -- rewrite lookup_insert_ne in Hq' by assumption.
           exact (Hdisjoint q q' s r s' r' Hqq Hq Hq').
Qed.

End RingInv.

Section RingResult.
Import RemoteIndices BuildRemote.
Variable ignorePublic : bool.

Lemma same_frame_refl (p : process) : same_frame p p.
Proof. repeat split. Qed.

Lemma same_frame_trans (p p' p'' : process) :
  same_frame p p' -> same_frame p' p'' -> same_frame p p''.
Proof.
  intros (? & ? & ? & ? & ? & ? & ? & ?) (? & ? & ? & ? & ? & ? & ? & ?).
  repeat split; congruence.
Qed.

Lemma same_frame_clear (p : process) : same_frame p (clear p).
Proof. repeat split. Qed.

Lemma Forall2_diag {A} (R : A -> A -> Prop) (l : list A) :
  Forall (fun x => R x x) l -> Forall2 R l l.
Proof. induction 1; constructor; auto. Qed.

(** The processes at the entry of the loop. *)
Lemma prepare_all_ring_inv (ps : list process) :
  Forall (fun st0 => procs (snd st0) = Z.of_nat (List.length ps)
                     ∧ ring_inv ignorePublic 1 st0 st0)
         (prepare_all ignorePublic (map clear ps)).
Proof.
  unfold prepare_all. apply Forall_lookup_2. intros i st Hst.
  apply list_lookup_imap_Some in Hst as (p1 & Hp1 & ->).
  apply lookup_lt_Some in Hp1 as Hi. rewrite length_map in Hi.
  rewrite length_map. cbn [fst snd].
  unfold prepare. destruct (to_publish ignorePublic p1) as [[two nsrc] ndst] eqn:Epub.
  cbn [procs]. split; [reflexivity|].
  unfold ring_inv. cbn [fst snd rank procs sendTwo].
  split; [apply same_frame_refl|]. split; [reflexivity|]. split; [reflexivity|].
  split.
  { unfold to_publish in Epub. injection Epub as <- _ _. reflexivity. }
  split.
  { intros _. eexists. unfold prepare. rewrite Epub. reflexivity. }
  split; [intros []; reflexivity|].
  split; [lia|].
  split; [exists []; symmetry; apply app_nil_r|].
  rewrite map_fmap, list_lookup_fmap in Hp1.
  destruct (ps !! i) as [p|]; [|discriminate]. injection Hp1 as <-.
  split.
  { intros q v Hq. cbn in Hq. rewrite lookup_empty in Hq. discriminate. }
  split.
  { intros q s r Hq. cbn in Hq. rewrite lookup_empty in Hq. discriminate. }
  split.
  - intros a l Ha Hlive. apply list_at_lt in Hlive. lia.
  - intros q q' s r s' r' _ Hq. cbn in Hq. rewrite lookup_empty in Hq. discriminate.
Qed.

(** [ring_inv] when the loop is left. *)
Lemma ring_ring_inv (sts0 sts' : list (process * locals)) :
  Forall (fun st0 => procs (snd st0) = Z.of_nat (List.length sts0)
                     ∧ ring_inv ignorePublic 1 st0 st0) sts0 ->
  ring ignorePublic sts0 = Done sts' ->
  Forall2 (ring_inv ignorePublic (Z.max 1 (Z.of_nat (List.length sts0)))) sts0 sts'.
Proof.
  intros H0 H. unfold ring in H.
  set (P := Z.of_nat (List.length sts0)) in *.
  pose (I := fun (proc : Z) (sts : list (process * locals)) =>
               Forall2 (fun st0 st => procs (snd st0) = P
                                      ∧ ring_inv ignorePublic proc st0 st) sts0 sts).
  assert (Hend : I (Z.max 1 P) sts').
  { apply (ring_from_invariant ignorePublic I (Z.max 1 P) (List.length sts0 - 1) ) with
      (proc := 1) (sts := sts0); [|lia|unfold P; lia| |exact H].
    - intros proc sts sts1 Hproc HI Hhop. unfold I in *.
      eapply hop_Forall2; [|exact HI|exact Hhop].
      intros st0 p l l1 message l2 st' [HP Hinv] Hpack Hrecv Hunpack.
      split; [exact HP|].
      eapply ring_inv_step; [|exact Hinv|exact Hpack|exact Hrecv|exact Hunpack]. lia.
    - unfold I. apply Forall2_diag. exact H0. }
  unfold I in Hend. eapply Forall2_impl; [exact Hend|].
  intros st0 st' [_ Hinv]. exact Hinv.
Qed.

(** The processes [rebuild] returns, each against the process as it
    entered: untouched outside [remoteIndices_] and the free store; for
    more than one process, [ring_inv] at the end of the loop. *)
Lemma rebuild_result (ps ps' : list process) :
  rebuild ignorePublic ps = Done ps' ->
  List.length ps' = List.length ps
  ∧ ∀ i p p', ps !! i = Some p -> ps' !! i = Some p' ->
      (List.length ps = 1%nat ∧ p' = clear p)
      ∨ (List.length ps ≠ 1%nat
         ∧ ∃ l0 l',
             rank l0 = Z.of_nat i ∧ procs l0 = Z.of_nat (List.length ps)
             ∧ ring_inv ignorePublic (Z.of_nat (List.length ps))
                        (clear p, l0) (p', l')).
Proof.
  intros H. unfold rebuild, buildRemote in H.
  rewrite length_map in H.
  destruct (Z.eqb_spec (Z.of_nat (List.length ps)) 1) as [Hone|Hmore].
  - injection H as <-. rewrite length_map. split; [reflexivity|].
    intros i p p' Hp Hp'. left. split; [lia|].
    rewrite map_fmap, list_lookup_fmap, Hp in Hp'. injection Hp' as <-. reflexivity.
  - bind_inv H as sts Hring. injection H as <-.
    pose proof (prepare_all_ring_inv ps) as H0.
    assert (Hlen0 : List.length (prepare_all ignorePublic (map clear ps))
                    = List.length ps).
    { unfold prepare_all. rewrite length_imap, length_map. reflexivity. }
    apply ring_ring_inv in Hring; [|rewrite Hlen0; exact H0].
    rewrite Hlen0 in Hring.
    split.
    { rewrite length_map. apply Forall2_length in Hring. lia. }
    intros i p p' Hp Hp'. right. split; [lia|].
    rewrite map_fmap, list_lookup_fmap in Hp'.
    destruct (sts !! i) as [[p1 l1]|] eqn:Hst; [|discriminate].
    injection Hp' as <-.
    destruct (Forall2_lookup_r _ _ _ _ _ Hring Hst) as ([p0 l0] & Hst0 & Hinv).
    unfold prepare_all in Hst0.
    apply list_lookup_imap_Some in Hst0 as (pc & Hpc & Heq).
    rewrite map_fmap, list_lookup_fmap, Hp in Hpc. injection Hpc as <-.
    injection Heq as -> ->.
    eexists _, l1. split; [|split; [|]].
    3:{ apply lookup_lt_Some in Hp. rewrite Z.max_r in Hinv by lia. exact Hinv. }
    + unfold prepare. destruct (to_publish ignorePublic (clear p)) as [[? ?] ?].
      reflexivity.
    + unfold prepare. destruct (to_publish ignorePublic (clear p)) as [[? ?] ?].
      rewrite length_map. reflexivity.
Qed.

End RingResult.

(** * What rebuild leaves behind *)

Section Pointers.

Lemma published_In (ignorePublic : bool) (indexSet : Z) (rest : list IndexPair.t) :
  ∀ (k : nat) (ptr : pointer),
    In ptr (published ignorePublic indexSet k rest) ->
    ∃ j pair, ptr = Pointer indexSet (k + j) ∧ rest !! j = Some pair
              ∧ In pair (published_pairs ignorePublic rest).
Proof.
  induction rest as [|x rest IH]; intros k ptr Hin; [destruct Hin|].
  cbn [published] in Hin. rewrite published_pairs_cons.
  destruct (ignorePublic || ParallelLocalIndex.isPublic (IndexPair.local x)).
  - destruct Hin as [<-|Hin].
    + exists 0%nat, x. rewrite Nat.add_0_r. split; [reflexivity|].
      split; [reflexivity|left; reflexivity].
    + destruct (IH _ _ Hin) as (j & pair & -> & Hj & Hp).
      exists (S j), pair. split; [f_equal; lia|]. split; [exact Hj|right; exact Hp].
  - destruct (IH _ _ Hin) as (j & pair & -> & Hj & Hp).
    exists (S j), pair. split; [f_equal; lia|]. split; [exact Hj|exact Hp].
Qed.

(** A list of pointers taken from the published pairs of an index set:
    every entry points to a published pair of the set. *)
Lemma published_entries (ignorePublic : bool) (m : memory) (indexSet : Z)
      (l : RemoteIndexList) :
  map RemoteIndex.localIndex_ l
  `sublist_of` published ignorePublic indexSet 0 (IndexSet.pairs (m indexSet)) ->
  ∀ e, In e l ->
       ∃ pair, RemoteIndex.localIndexPair m e = Some pair
               ∧ In pair (published_pairs ignorePublic (IndexSet.pairs (m indexSet))).
Proof.
  intros Hsub e He.
  assert (Hin : In (RemoteIndex.localIndex_ e)
                   (published ignorePublic indexSet 0 (IndexSet.pairs (m indexSet)))).
  { apply list_elem_of_In. eapply sublist_subseteq; [exact Hsub|].
    apply list_elem_of_In, in_map, He. }
  apply published_In in Hin as (j & pair & Hptr & Hj & Hp).
  exists pair. split; [|exact Hp].
  unfold RemoteIndex.localIndexPair, deref. rewrite Hptr. exact Hj.
Qed.

End Pointers.

(** X7.  [rebuild] writes nothing but [remoteIndices_] and the free store.
    It returns as many processes as entered; of each one the index sets,
    the references [source_], [dest_] and [comm_], the two stored sequence
    numbers and [copyLocal_] are what they were, and so is the answer of
    [isSynced()]. *)
Theorem rebuild_untouched (ignorePublic : bool) (ps ps' : list process) :
  rebuild ignorePublic ps = Done ps' ->
  Forall2 (fun p p' =>
             mem p' = mem p
             ∧ RemoteIndices.source_ (this p') = RemoteIndices.source_ (this p)
             ∧ RemoteIndices.dest_ (this p') = RemoteIndices.dest_ (this p)
             ∧ RemoteIndices.comm_ (this p') = RemoteIndices.comm_ (this p)
             ∧ RemoteIndices.sourceSeqNo_ (this p') = RemoteIndices.sourceSeqNo_ (this p)
             ∧ RemoteIndices.destSeqNo_ (this p') = RemoteIndices.destSeqNo_ (this p)
             ∧ RemoteIndices.copyLocal_ (this p') = RemoteIndices.copyLocal_ (this p)
             ∧ isSynced p' = isSynced p) ps ps'.
Proof.
  intros H. apply rebuild_result in H as [Hlen H].
  apply Forall2_same_length_lookup_2; [lia|].
  intros i p p' Hp Hp'.
  assert (Hframe : same_frame p p').
  { destruct (H i p p' Hp Hp') as [[_ ->]|(_ & l0 & l' & _ & _ & Hinv)].
    - apply same_frame_clear.
    - destruct Hinv as [Hframe _]. cbn [fst] in Hframe.
      eapply same_frame_trans; [apply same_frame_clear|exact Hframe]. }
  destruct Hframe as (Hm & _ & Hs & Hd & Hc & Hss & Hds & Hcl).
  repeat (split; [assumption|]).
  unfold isSynced. rewrite Hm, Hs, Hd, Hss, Hds. reflexivity.
Qed.

(** Scenario S1 with a destination set of its own on both ranks: the
    sequence numbers stored are those of the constructor. *)
Lemma rebuild_untouched_witness :
  ∃ ps',
    rebuild false Scenario.S_two_sets = Done ps'
    ∧ Forall (fun p' => RemoteIndices.sourceSeqNo_ (this p') = -1
                        ∧ RemoteIndices.destSeqNo_ (this p') = -1
                        ∧ isSynced p' = false) ps'.
Proof.
  assert (Hrun : ∃ ps', rebuild false Scenario.S_two_sets = Done ps')
    by (eexists; vm_compute; reflexivity).
  destruct Hrun as [ps' Hrun]. exists ps'. split; [exact Hrun|].
  pose proof (rebuild_untouched false Scenario.S_two_sets ps' Hrun) as H.
  apply List.Forall_forall. intros p' Hp'.
  apply list_elem_of_In, list_elem_of_lookup in Hp' as [i Hp'].
  destruct (Forall2_lookup_r _ _ _ _ _ H Hp')
    as (p & Hp & _ & _ & _ & _ & -> & -> & _ & ->).
  destruct i as [|[|i]]; cbn in Hp; [| |discriminate];
    injection Hp as <-; repeat split.
Defined.

(** X8.  The keys of [remoteIndices_] after [rebuild]: ranks of the
    communicator other than the rank of the process itself. *)
Theorem rebuild_peers (ignorePublic : bool) (ps ps' : list process)
        (i : nat) (p' : process) (q : Z) (lists : nat * nat) :
  rebuild ignorePublic ps = Done ps' ->
  ps' !! i = Some p' ->
  RemoteIndices.remoteIndices_ (this p') !! q = Some lists ->
  0 <= q < Z.of_nat (List.length ps) ∧ q ≠ Z.of_nat i.
Proof.
  intros H Hp' Hq. apply rebuild_result in H as [Hlen H].
  destruct (lookup_lt_is_Some_2 ps i) as [p Hp].
  { apply lookup_lt_Some in Hp'. lia. }
  destruct (H i p p' Hp Hp') as [[_ ->]|(Hne & l0 & l' & Hrank & Hprocs & Hinv)].
  - cbn in Hq. rewrite lookup_empty in Hq. discriminate.
  - destruct Hinv as (_ & Hr & Hpr & _ & _ & _ & Hr0 & _ & Hpeers & _).
    cbn [fst snd] in *.
    destruct (Hpeers q lists Hq) as (j & Hj & ->).
    rewrite Hrank, Hprocs in Hr0.
    destruct (remoteProc_range j l') as [Hrange Hself]; [lia|lia|].
    rewrite Hpr, Hprocs in Hrange. rewrite Hr, Hrank in Hself. auto.
Qed.

(** After [rebuild] on scenario S1 with two index sets on both ranks, the
    entry rank 0 has is one for rank 1. *)
Lemma rebuild_peers_witness :
  ∃ ps' p',
    rebuild false Scenario.S_two_sets = Done ps'
    ∧ ps' !! 0%nat = Some p'
    ∧ RemoteIndices.remoteIndices_ (this p') !! 1 = Some (1%nat, 0%nat)
    ∧ 0 <= 1 < 2 ∧ 1 ≠ 0.
Proof.
  assert (Hrun : ∃ ps', rebuild false Scenario.S_two_sets = Done ps')
    by (eexists; vm_compute; reflexivity).
  destruct Hrun as [ps' Hrun].
  assert (Hfirst : ∃ p', ps' !! 0%nat = Some p'
                         ∧ RemoteIndices.remoteIndices_ (this p') !! 1
                           = Some (1%nat, 0%nat)).
  { revert Hrun. vm_compute. intros [= <-]. eexists. split; reflexivity. }
  destruct Hfirst as (p' & Hp' & Hq).
  exists ps', p'. split; [exact Hrun|]. split; [exact Hp'|]. split; [exact Hq|].
  exact (rebuild_peers false Scenario.S_two_sets ps' 0 p' 1 (1%nat, 0%nat) Hrun Hp' Hq).
Defined.

(** X9.  The free store after [rebuild].  Every cell that was there before is
    as it was: no list that existed is freed, those of the entries that
    [remoteIndices_.clear()] dropped included.  Every list made by the
    call and live at its end belongs to an entry of [remoteIndices_], and
    no list belongs to the entries of two peers. *)
Theorem rebuild_store (ignorePublic : bool) (ps ps' : list process)
        (i : nat) (p p' : process) :
  rebuild ignorePublic ps = Done ps' ->
  ps !! i = Some p ->
  ps' !! i = Some p' ->
  (∃ cells, heap p' = heap p ++ cells)
  ∧ (∀ a l, (List.length (heap p) <= a)%nat ->
            list_at (heap p') a = Some l ->
            ∃ q send receive,
              RemoteIndices.remoteIndices_ (this p') !! q = Some (send, receive)
              ∧ (a = send ∨ a = receive))
  ∧ (∀ q q' send receive send' receive',
        q ≠ q' ->
        RemoteIndices.remoteIndices_ (this p') !! q = Some (send, receive) ->
        RemoteIndices.remoteIndices_ (this p') !! q' = Some (send', receive') ->
        send ≠ send' ∧ send ≠ receive' ∧ receive ≠ send' ∧ receive ≠ receive').
Proof.
  intros H Hp Hp'. apply rebuild_result in H as [Hlen H].
  destruct (H i p p' Hp Hp') as [[_ ->]|(Hne & l0 & l' & Hrank & Hprocs & Hinv)].
  - split; [exists []; symmetry; apply app_nil_r|]. split.
    + intros a l Ha Hlive. apply list_at_lt in Hlive. cbn in Hlive. lia.
    + intros q q' s r s' r' _ Hq. cbn in Hq. rewrite lookup_empty in Hq. discriminate.
  - destruct Hinv as (_ & _ & _ & _ & _ & _ & _ & Hcells & _ & _ & Hown & Hdisjoint).
    cbn [fst snd] in *.
    split; [exact Hcells|]. split; [exact Hown|exact Hdisjoint].
Qed.

(** X10.  The entries of [remoteIndices_] after [rebuild].  The two lists of an
    entry were made by this call and are live, not both are empty, every
    element of the receive list points to a published pair of the
    destination index set of the process and every element of the send
    list to a published pair of its source index set. *)
Theorem rebuild_entries (ignorePublic : bool) (ps ps' : list process)
        (i : nat) (p p' : process) (q : Z) (send receive : nat) :
  rebuild ignorePublic ps = Done ps' ->
  ps !! i = Some p ->
  ps' !! i = Some p' ->
  RemoteIndices.remoteIndices_ (this p') !! q = Some (send, receive) ->
  (List.length (heap p) <= send)%nat ∧ (List.length (heap p) <= receive)%nat
  ∧ ∃ sent received,
      list_at (heap p') send = Some sent
      ∧ list_at (heap p') receive = Some received
      ∧ (sent ≠ [] ∨ received ≠ [])
      ∧ (∀ e, In e received ->
              ∃ pair, RemoteIndex.localIndexPair (mem p') e = Some pair
                      ∧ In pair (published_pairs ignorePublic
                                   (IndexSet.pairs (mem p' (RemoteIndices.dest_ (this p'))))))
      ∧ (∀ e, In e sent ->
              ∃ pair, RemoteIndex.localIndexPair (mem p') e = Some pair
                      ∧ In pair (published_pairs ignorePublic
                                   (IndexSet.pairs (mem p' (RemoteIndices.source_ (this p')))))).
Proof.
  intros H Hp Hp' Hq. apply rebuild_result in H as [Hlen H].
  destruct (H i p p' Hp Hp') as [[_ ->]|(Hne & l0 & l' & Hrank & Hprocs & Hinv)].
  - cbn in Hq. rewrite lookup_empty in Hq. discriminate.
  - destruct Hinv as (_ & _ & _ & _ & _ & _ & _ & _ & _ & Hentries & _).
    cbn [fst snd] in *.
    destruct (Hentries q send receive Hq)
      as (Hs & Hr & sent & received & Hsent & Hreceived & Hne' & Hsubr & Hsubs).
    cbn [heap BuildRemote.clear set_this] in Hs, Hr.
    split; [exact Hs|]. split; [exact Hr|].
    exists sent, received.
    split; [exact Hsent|]. split; [exact Hreceived|]. split; [exact Hne'|].
    split; eapply published_entries; eassumption.
Qed.

(** Scenario S1 with two index sets on both ranks: the lists of the entry
    of rank 0 for rank 1. *)
Lemma rebuild_entries_witness :
  ∃ ps' p' sent received,
    rebuild false Scenario.S_two_sets = Done ps'
    ∧ ps' !! 0%nat = Some p'
    ∧ RemoteIndices.remoteIndices_ (this p') !! 1 = Some (1%nat, 0%nat)
    ∧ list_at (heap p') 1 = Some sent
    ∧ list_at (heap p') 0 = Some received
    ∧ (sent ≠ [] ∨ received ≠ []).
Proof.
  assert (Hrun : ∃ ps', rebuild false Scenario.S_two_sets = Done ps')
    by (eexists; vm_compute; reflexivity).
  destruct Hrun as [ps' Hrun].
  assert (Hfirst : ∃ p', ps' !! 0%nat = Some p'
                         ∧ RemoteIndices.remoteIndices_ (this p') !! 1
                           = Some (1%nat, 0%nat)).
  { revert Hrun. vm_compute. intros [= <-]. eexists. split; reflexivity. }
  destruct Hfirst as (p' & Hp' & Hq).
  destruct (rebuild_entries false Scenario.S_two_sets ps' 0 _ p' 1 1 0
              Hrun eq_refl Hp' Hq)
    as (_ & _ & sent & received & Hsent & Hreceived & Hne & _).
  exists ps', p', sent, received. auto 10.
Defined.

(** The same run: the two cells of the free store of rank 0 are the two
    lists of its entry. *)
Lemma rebuild_store_witness :
  ∃ ps' p' cells,
    rebuild false Scenario.S_two_sets = Done ps'
    ∧ ps' !! 0%nat = Some p'
    ∧ heap p' = [] ++ cells.
Proof.
  assert (Hrun : ∃ ps', rebuild false Scenario.S_two_sets = Done ps')
    by (eexists; vm_compute; reflexivity).
  destruct Hrun as [ps' Hrun].
  assert (Hfirst : ∃ p', ps' !! 0%nat = Some p').
  { revert Hrun. vm_compute. intros [= <-]. eexists. reflexivity. }
  destruct Hfirst as (p' & Hp').
  destruct (rebuild_store false Scenario.S_two_sets ps' 0 _ p' Hrun eq_refl Hp')
    as ((cells & Hcells) & _).
  exists ps', p', cells. auto.
Defined.

(** * The message of the first hop *)

Section Ints.

Lemma length_int_image (x : Z) : List.length (int_image x) = 4%nat.
Proof. reflexivity. Qed.

Lemma pack_int_run (x : Z) (outbuf : list Z) (outsize position : Z) :
  0 <= position -> position + 4 <= outsize ->
  outsize <= Z.of_nat (List.length outbuf) ->
  pack_int x outbuf outsize position
  = Done (blit position (int_image x) outbuf, position + 4).
Proof.
  intros H0 H1 H2. unfold pack_int, MPI_Pack.
  change (packed_size MPI_INT) with 4.
  rewrite decide_True by lia. reflexivity.
Qed.

Lemma list_of_length_4 (l : list Z) :
  List.length l = 4%nat -> ∃ b0 b1 b2 b3, l = [b0; b1; b2; b3].
Proof.
  destruct l as [|b0 [|b1 [|b2 [|b3 [|]]]]]; simpl; try discriminate.
  intros _. eauto 6.
Qed.

(** Four bytes packed as an [int]. *)
Lemma MPI_Pack_int_run (img outbuf : list Z) (outsize position : Z) :
  List.length img = 4%nat ->
  0 <= position -> position + 4 <= outsize ->
  outsize <= Z.of_nat (List.length outbuf) ->
  MPI_Pack img MPI_INT outbuf outsize position
  = Done (blit position img outbuf, position + 4).
Proof.
  intros Hlen H0 H1 H2. unfold MPI_Pack.
  change (packed_size MPI_INT) with 4.
  rewrite decide_True by lia.
  destruct (list_of_length_4 img Hlen) as (b0 & b1 & b2 & b3 & ->).
  reflexivity.
Qed.

Lemma length_sendTwo_int (p : process) (two : bool) :
  List.length (BuildRemote.sendTwo_int p two) = 4%nat.
Proof. reflexivity. Qed.

Lemma unpack_int_run (inbuf : list Z) (insize position : Z) :
  0 <= position -> position + 4 <= insize ->
  insize <= Z.of_nat (List.length inbuf) ->
  unpack_int inbuf insize position
  = Done (to_int (le_value (slice position 4 inbuf)), position + 4).
Proof.
  intros H0 H1 H2. unfold unpack_int, MPI_Unpack.
  change (packed_size MPI_INT) with 4.
  rewrite decide_True by lia.
  destruct (list_of_length_4 (slice position 4 inbuf)) as (b0 & b1 & b2 & b3 & ->).
  { rewrite slice_length; lia. }
  reflexivity.
Qed.

(** An [int] read where an [int] was written. *)
Lemma unpack_int_image (inbuf : list Z) (insize position x : Z) :
  0 <= position -> position + 4 <= insize ->
  insize <= Z.of_nat (List.length inbuf) ->
  int_ok x ->
  slice position 4 inbuf = int_image x ->
  unpack_int inbuf insize position = Done (x, position + 4).
Proof.
  intros H0 H1 H2 Hx Hs. rewrite unpack_int_run by assumption.
  rewrite Hs. unfold int_image. rewrite int_roundtrip by assumption. reflexivity.
Qed.

Lemma length_new_chars (stale : nat -> Z) (n : Z) :
  List.length (new_chars stale n) = Z.to_nat n.
Proof. unfold new_chars. rewrite length_map, length_seq. reflexivity. Qed.

Lemma to_int_small (x : Z) : int_ok x -> to_int x = x.
Proof.
  unfold int_ok, to_int. intros Hx. rewrite Z.mod_small; lia.
Qed.

End Ints.

Section FirstHop.
Import RemoteIndices BuildRemote.
Variable ignorePublic : bool.

Lemma to_publish_facts (p : process) :
  ∀ two nsrc ndst,
    to_publish ignorePublic p = (two, nsrc, ndst) ->
    two = negb (source_ (this p) =? dest_ (this p))
    ∧ nsrc = Z.of_nat (List.length (published_pairs ignorePublic
                                      (IndexSet.pairs (mem p (source_ (this p))))))
    ∧ ndst = (if two
              then Z.of_nat (List.length (published_pairs ignorePublic
                                            (IndexSet.pairs (mem p (dest_ (this p))))))
              else 0).
Proof.
  intros two nsrc ndst H.
  pose proof (to_publish_counts ignorePublic p) as Hc. rewrite H in Hc.
  destruct Hc as [Hs Hd].
  rewrite length_published in Hs.
  unfold to_publish in H. injection H as Htwo Hnsrc Hndst.
  split; [symmetry; exact Htwo|].
  split.
  - rewrite <- Hs. rewrite Z2Nat.id; [reflexivity|].
    rewrite <- Hnsrc. unfold IndexSet.size, IndexSet.noPublic.
    destruct ignorePublic; lia.
  - destruct two.
    + specialize (Hd eq_refl). rewrite length_published in Hd.
      rewrite <- Hd. rewrite Z2Nat.id; [reflexivity|].
      rewrite <- Hndst. rewrite Htwo.
      unfold IndexSet.size, IndexSet.noPublic. destruct ignorePublic; lia.
    + rewrite <- Hndst, Htwo. reflexivity.
Qed.

(** The locals after the packing of the first hop. *)
Lemma hop_pack_first_run (r np maxPublish : Z) (p : process) :
  ∀ two nsrc ndst,
    to_publish ignorePublic p = (two, nsrc, ndst) ->
    nsrc + ndst <= maxPublish ->
    5 * maxPublish + 12 < 2 ^ 31 ->
    let B := 5 * maxPublish + 12 in
    ∃ pairs_s pairs_d,
      hop_pack ignorePublic 1 p (prepare ignorePublic r np maxPublish p)
      = Done (Locals r np two nsrc ndst pairs_s pairs_d
                     (blit 0 (first_message_bytes ignorePublic p)
                           (new_chars (stale p) B))
                     (new_chars (stale p) B)
                     B (12 + 5 * (nsrc + ndst)) MPITraits.PairType_type).
Proof.
  intros two nsrc ndst Hpub Hmax Hint B.
  assert (HBdef : B = 5 * maxPublish + 12) by reflexivity. clearbody B.
  destruct (to_publish_facts p two nsrc ndst Hpub) as (Htwo & Hnsrc & Hndst).
  set (src := published_pairs ignorePublic (IndexSet.pairs (mem p (source_ (this p))))) in *.
  set (dst := published_pairs ignorePublic (IndexSet.pairs (mem p (dest_ (this p))))) in *.
  assert (Hnd : 0 <= ndst) by (rewrite Hndst; destruct two; lia).
  assert (HB : to_int (MPI_Pack_size maxPublish MPITraits.PairType_type
                       + 3 * MPI_Pack_size 1 MPI_INT) = B).
  { unfold MPI_Pack_size. rewrite packed_size_PairType.
    change (packed_size MPI_INT) with 4.
    rewrite to_int_small; [lia|]. unfold int_ok. lia. }
  unfold hop_pack, prepare. rewrite Hpub. change (1 =? 1) with true. cbv iota.
  unfold p_out. change (Z.rem 1 2 =? 0) with false. cbv iota.
  cbn [sendTwo sourcePublish destPublish sourcePairs destPairs_new bufferSize
       position type buffer0 buffer1].
  rewrite HB.
  set (buf := new_chars (stale p) B).
  assert (Hbuf : Z.of_nat (List.length buf) = B).
  { unfold buf. rewrite length_new_chars. lia. }
  pose proof (length_sendTwo_int p two) as Hfl.
  set (flag := sendTwo_int p two) in *.
  rewrite (MPI_Pack_int_run flag) by (try assumption; lia). run_outcome.
  rewrite pack_int_run by (rewrite ?blit_length; rewrite ?Hfl; lia).
  run_outcome.
  rewrite pack_int_run
    by (rewrite ?blit_length; rewrite ?length_int_image, ?blit_length;
        rewrite ?Hfl; lia).
  run_outcome.
  change (0 + 4 + 4 + 4) with 12.
  assert (Hh : blit (0 + 4 + 4) (int_image ndst)
                    (blit (0 + 4) (int_image nsrc) (blit 0 flag buf))
               = blit 0 (header flag nsrc ndst) buf).
  { unfold header.
    rewrite <- (blit_app 0 flag) by lia. rewrite Hfl.
    rewrite <- (blit_app (0 + Z.of_nat 4) (int_image nsrc))
      by (rewrite ?blit_length; rewrite ?Hfl; lia).
    reflexivity. }
  rewrite Hh. clear Hh.
  assert (Hhl : List.length (header flag nsrc ndst) = 12%nat).
  { unfold header. rewrite !length_app, Hfl. reflexivity. }
  rewrite packEntries_run.
  2:{ lia. }
  2:{ fold src. lia. }
  2:{ rewrite blit_length; lia. }
  2:{ fold src. unfold new_pointers. rewrite length_replicate. lia. }
  fold src. run_outcome.
  assert (Hs : blit 12 (packed_pairs src) (blit 0 (header flag nsrc ndst) buf)
               = blit 0 (header flag nsrc ndst ++ packed_pairs src) buf).
  { rewrite <- (blit_app 0 (header flag nsrc ndst)) by lia. reflexivity. }
  rewrite Hs. clear Hs.
  unfold first_message_bytes. rewrite Hpub. fold src dst flag.
  clearbody flag. destruct two.
  - rewrite packEntries_run.
    2:{ lia. }
    2:{ fold dst. lia. }
    2:{ rewrite blit_length; [lia|lia|].
        rewrite length_app, length_packed_pairs. lia. }
    2:{ fold dst. unfold new_pointers. rewrite length_replicate. lia. }
    fold dst. run_outcome.
    eexists _, _. unfold set_position, set_p_out, set_pairs.
    change (Z.rem 1 2 =? 0) with false. cbv iota.
    cbn [rank procs sendTwo sourcePublish destPublish sourcePairs destPairs_new
         buffer0 buffer1 bufferSize position type].
    f_equal. f_equal; [|lia].
    replace (12 + 5 * Z.of_nat (List.length src))
      with (0 + Z.of_nat (List.length (header flag nsrc ndst ++ packed_pairs src)))
      by (rewrite length_app, length_packed_pairs; lia).
    rewrite blit_app by lia. rewrite <- app_assoc. reflexivity.
  - run_outcome.
    eexists _, _. unfold set_position, set_p_out, set_pairs.
    change (Z.rem 1 2 =? 0) with false. cbv iota.
    cbn [rank procs sendTwo sourcePublish destPublish sourcePairs destPairs_new
         buffer0 buffer1 bufferSize position type].
    rewrite app_nil_r. f_equal. f_equal. lia.
Qed.

End FirstHop.

Section FirstMessages.
Import RemoteIndices BuildRemote.
Variable ignorePublic : bool.

Lemma mapM_run {A B} (f : A -> outcome B) (Q : A -> B -> Prop) (l : list A) :
  Forall (fun x => ∃ y, f x = Done y ∧ Q x y) l ->
  ∃ k, mapM f l = Done k ∧ Forall2 Q l k.
Proof.
  induction 1 as [|x l (y & Hy & HQ) _ (k & Hk & IH)].
  - exists []. split; [reflexivity|constructor].
  - exists (y :: k). cbn [mapM]. rewrite Hy, Hk.
    split; [reflexivity|constructor; assumption].
Qed.

Lemma MPI_Allreduce_MAX_ge (xs : list Z) (x : Z) :
  In x xs -> x <= MPI_Allreduce_MAX xs.
Proof.
  assert (Hfold : ∀ l a, a <= fold_left Z.max l a
                         ∧ ∀ y, In y l -> y <= fold_left Z.max l a).
  { induction l as [|z l IH]; intros a; cbn [fold_left].
    - split; [lia|intros y []].
    - destruct (IH (Z.max a z)) as [Ha Hl]. split; [lia|].
      intros y [<-|Hy]; [lia|apply Hl, Hy]. }
  destruct xs as [|a xs]; [intros []|]. cbn [MPI_Allreduce_MAX].
  destruct (Hfold xs a) as [Ha Hl]. intros [<-|Hx]; [exact Ha|apply Hl, Hx].
Qed.

Lemma MPI_Allreduce_MAX_le (xs : list Z) (b : Z) :
  0 <= b -> (∀ x, In x xs -> x <= b) -> MPI_Allreduce_MAX xs <= b.
Proof.
  assert (Hfold : ∀ l a, a <= b -> (∀ y, In y l -> y <= b) -> fold_left Z.max l a <= b).
  { induction l as [|z l IH]; intros a Ha Hl; cbn [fold_left]; [exact Ha|].
    apply IH.
    - specialize (Hl z (or_introl eq_refl)). lia.
    - intros y Hy. apply Hl. right. exact Hy. }
  intros Hb Hxs. destruct xs as [|a xs]; [exact Hb|]. cbn [MPI_Allreduce_MAX].
  apply Hfold.
  - apply Hxs. left. reflexivity.
  - intros y Hy. apply Hxs. right. exact Hy.
Qed.

Lemma length_published_pairs_le (rest : list IndexPair.t) :
  (List.length (published_pairs ignorePublic rest) <= List.length rest)%nat.
Proof.
  induction rest as [|x rest IH]; [reflexivity|].
  rewrite published_pairs_cons.
  destruct (ignorePublic || ParallelLocalIndex.isPublic (IndexPair.local x));
    cbn [List.length]; lia.
Qed.

Lemma publish_bounds (p : process) :
  sizes_fit p ->
  ∀ two nsrc ndst,
    to_publish ignorePublic p = (two, nsrc, ndst) ->
    0 <= nsrc ∧ 0 <= ndst
    ∧ publish ignorePublic p = nsrc + ndst
    ∧ 5 * (nsrc + ndst) + 12 < 2 ^ 31.
Proof.
  unfold sizes_fit, IndexSet.size. intros Hfit two nsrc ndst Hpub.
  destruct (to_publish_facts ignorePublic p two nsrc ndst Hpub) as (Htwo & Hnsrc & Hndst).
  pose proof (length_published_pairs_le (IndexSet.pairs (mem p (source_ (this p))))).
  pose proof (length_published_pairs_le (IndexSet.pairs (mem p (dest_ (this p))))).
  assert (Hd : 0 <= ndst <= Z.of_nat (List.length (IndexSet.pairs (mem p (dest_ (this p))))))
    by (rewrite Hndst; destruct two; lia).
  split; [lia|]. split; [lia|].
  split; [|lia].
  unfold publish. rewrite Hpub. apply to_int_small. unfold int_ok. lia.
Qed.

Lemma length_first_message_bytes (p : process) :
  ∀ two nsrc ndst,
    to_publish ignorePublic p = (two, nsrc, ndst) ->
    Z.of_nat (List.length (first_message_bytes ignorePublic p)) = 12 + 5 * (nsrc + ndst).
Proof.
  intros two nsrc ndst Hpub.
  destruct (to_publish_facts ignorePublic p two nsrc ndst Hpub) as (Htwo & Hnsrc & Hndst).
  unfold first_message_bytes. rewrite Hpub.
  rewrite !length_app, length_packed_pairs.
  change (List.length (header (sendTwo_int p two) nsrc ndst)) with 12%nat.
  destruct two; [rewrite length_packed_pairs|cbn [List.length]]; lia.
Qed.

Lemma take_blit_0 (bs l : list Z) (n : Z) :
  n = Z.of_nat (List.length bs) ->
  take (Z.to_nat n) (blit 0 bs l) = bs.
Proof.
  intros ->. unfold blit. change (take (Z.to_nat 0) l) with (@nil Z).
  cbn [app]. rewrite Nat2Z.id. apply take_app_length.
Qed.

End FirstMessages.

Section FirstMessages2.
Import RemoteIndices BuildRemote.
Variable ignorePublic : bool.

Lemma maxPublish_bounds (ps : list process) :
  Forall sizes_fit ps ->
  let M := MPI_Allreduce_MAX (map (publish ignorePublic) (map clear ps)) in
  5 * M + 12 < 2 ^ 31
  ∧ ∀ p, In p ps -> publish ignorePublic (clear p) <= M.
Proof.
  intros Hfit M. split.
  - assert (HM : M <= (2 ^ 31 - 13) / 5).
    { apply MPI_Allreduce_MAX_le; [vm_compute; discriminate|].
      intros x Hx. apply in_map_iff in Hx as (pc & <- & Hpc).
      apply in_map_iff in Hpc as (p & <- & Hp).
      rewrite List.Forall_forall in Hfit. specialize (Hfit p Hp).
      destruct (to_publish ignorePublic (clear p)) as [[two nsrc] ndst] eqn:Hpub.
      destruct (publish_bounds ignorePublic (clear p) Hfit two nsrc ndst Hpub)
        as (_ & _ & -> & Hb).
      apply Z.div_le_lower_bound; lia. }
    pose proof (Z.mul_div_le (2 ^ 31 - 13) 5 ltac:(lia)). lia.
  - intros p Hp. apply MPI_Allreduce_MAX_ge. apply in_map, in_map, Hp.
Qed.

(** The packing of the first hop on one process of [prepare_all]. *)
Lemma hop_pack_first_message (r np maxPublish : Z) (p : process) :
  sizes_fit p ->
  publish ignorePublic p <= maxPublish ->
  5 * maxPublish + 12 < 2 ^ 31 ->
  ∃ l', hop_pack ignorePublic 1 p (prepare ignorePublic r np maxPublish p) = Done l'
        ∧ hop_send 1 l' = first_message_bytes ignorePublic p
        ∧ rank l' = r ∧ procs l' = np
        ∧ bufferSize l' = 5 * maxPublish + 12
        ∧ List.length (buffer0 l') = Z.to_nat (5 * maxPublish + 12)
        ∧ List.length (buffer1 l') = Z.to_nat (5 * maxPublish + 12)
        ∧ type l' = MPITraits.PairType_type
        ∧ (sendTwo l', sourcePublish l', destPublish l') = to_publish ignorePublic p.
Proof.
  intros Hfit Hle Hint.
  destruct (to_publish ignorePublic p) as [[two nsrc] ndst] eqn:Hpub.
  destruct (publish_bounds ignorePublic p Hfit two nsrc ndst Hpub)
    as (Hs & Hd & Hp & Hb).
  rewrite Hp in Hle.
  destruct (hop_pack_first_run ignorePublic r np maxPublish p two nsrc ndst
              Hpub Hle Hint) as (pairs_s & pairs_d & Hrun).
  cbv zeta in Hrun. eexists. split; [exact Hrun|].
  pose proof (length_first_message_bytes ignorePublic p two nsrc ndst Hpub) as Hlen.
  cbn [rank procs bufferSize buffer0 buffer1 type sendTwo sourcePublish destPublish].
  split.
  { unfold hop_send, p_out. change (Z.rem 1 2 =? 0) with false. cbv iota.
    cbn [position buffer0]. apply take_blit_0. lia. }
  split; [reflexivity|]. split; [reflexivity|]. split; [reflexivity|].
  split.
  { rewrite blit_length; [apply length_new_chars|lia|].
    rewrite length_new_chars. lia. }
  split; [apply length_new_chars|]. split; reflexivity.
Qed.

End FirstMessages2.

(** X11.  The messages of the first hop.  On processes whose index sets are
    small enough for the counts and the size of the buffer to be [int]s,
    the packing of the first hop returns on every process, and the message
    a process hands to [MPI_Ssend] is, byte for byte: the four bytes read
    at the address of the [bool sendTwo], which are the [bool] and the
    three bytes that lie behind it, the number of published source pairs
    and the number of published destination pairs as two [int]s, then
    five bytes (global index and attribute) for every published pair of
    the source index set and, when source and destination are two index
    sets, for every published pair of the destination index set. *)
Theorem first_hop_messages (ignorePublic : bool) (ps : list process) :
  Forall sizes_fit ps ->
  ∃ packed,
    BuildRemote.hop_pack_all ignorePublic 1
      (BuildRemote.prepare_all ignorePublic (map BuildRemote.clear ps))
    = Done packed
    ∧ BuildRemote.hop_messages 1 packed
      = map (first_message_bytes ignorePublic) ps.
Proof.
  intros Hfit.
  destruct (maxPublish_bounds ignorePublic ps Hfit) as [HM Hle].
  set (M := BuildRemote.MPI_Allreduce_MAX
              (map (BuildRemote.publish ignorePublic) (map BuildRemote.clear ps))) in *.
  unfold BuildRemote.hop_pack_all.
  destruct (mapM_run
              (fun st => l ← BuildRemote.hop_pack ignorePublic 1 (fst st) (snd st);
                         mret (fst st, l))
              (fun st st' => BuildRemote.hop_send 1 (snd st')
                             = first_message_bytes ignorePublic (fst st))
              (BuildRemote.prepare_all ignorePublic (map BuildRemote.clear ps)))
    as (packed & Hrun & Hall).
  { apply Forall_lookup_2. intros i st Hst.
    unfold BuildRemote.prepare_all in Hst.
    apply list_lookup_imap_Some in Hst as (pc & Hpc & ->).
    rewrite map_fmap, list_lookup_fmap in Hpc.
    destruct (ps !! i) as [p|] eqn:Hp; [|discriminate]. injection Hpc as <-.
    cbn [fst snd]. fold M.
    assert (Hin : In p ps) by (apply list_elem_of_In; eapply list_elem_of_lookup_2, Hp).
    destruct (hop_pack_first_message ignorePublic (Z.of_nat i)
                (Z.of_nat (List.length (map BuildRemote.clear ps))) M
                (BuildRemote.clear p))
      as (l' & Hrun & Hsend & _).
    - rewrite List.Forall_forall in Hfit. exact (Hfit p Hin).
    - apply Hle, Hin.
    - exact HM.
    - rewrite Hrun. eexists. split; [reflexivity|]. exact Hsend. }
  exists packed. split; [exact Hrun|].
  unfold BuildRemote.hop_messages.
  rewrite !map_fmap. apply list_eq. intros i. rewrite !list_lookup_fmap.
  pose proof (Forall2_length _ _ _ Hall) as Hlen.
  unfold BuildRemote.prepare_all in Hlen. rewrite length_imap, length_map in Hlen.
  destruct (packed !! i) as [st'|] eqn:Hst'.
  - destruct (Forall2_lookup_r _ _ _ _ _ Hall Hst') as (st & Hst & HQ).
    unfold BuildRemote.prepare_all in Hst.
    apply list_lookup_imap_Some in Hst as (pc & Hpc & ->).
    rewrite map_fmap, list_lookup_fmap in Hpc.
    destruct (ps !! i) as [p|]; [|discriminate]. injection Hpc as <-.
    cbn [fmap option_fmap option_map]. rewrite HQ. reflexivity.
  - apply lookup_ge_None in Hst'. rewrite lookup_ge_None_2 by lia. reflexivity.
Qed.

(** Two processes with the index sets of scenario [S_two_sets], on which
    the byte behind the [bool] is 3: the flag of the header is sent as
    the bytes 1, 3, 0, 0, followed by the two counts. *)
Lemma first_hop_messages_witness :
  let p := fun set =>
             Process (Scenario.two_sets set set) [] (RemoteIndices.make 100 200 0)
                     (fun _ => 0) (fun k => match k with O => 3 | _ => 0 end) in
  let ps := [p Scenario.S1_rank0; p Scenario.S1_rank1] in
  ∃ packed,
    BuildRemote.hop_pack_all false 1
      (BuildRemote.prepare_all false (map BuildRemote.clear ps))
    = Done packed
    ∧ BuildRemote.hop_messages 1 packed = map (first_message_bytes false) ps
    ∧ map (take 12) (BuildRemote.hop_messages 1 packed)
      = [[1; 3; 0; 0; 3; 0; 0; 0; 3; 0; 0; 0]; [1; 3; 0; 0; 3; 0; 0; 0; 3; 0; 0; 0]].
Proof.
  cbv zeta.
  destruct (first_hop_messages false
              [Process (Scenario.two_sets Scenario.S1_rank0 Scenario.S1_rank0) []
                       (RemoteIndices.make 100 200 0)
                       (fun _ => 0) (fun k => match k with O => 3 | _ => 0 end);
               Process (Scenario.two_sets Scenario.S1_rank1 Scenario.S1_rank1) []
                       (RemoteIndices.make 100 200 0)
                       (fun _ => 0) (fun k => match k with O => 3 | _ => 0 end)])
    as (packed & Hrun & Hmessages).
  - repeat constructor.
  - exists packed. split; [exact Hrun|]. split; [exact Hmessages|].
    rewrite Hmessages. reflexivity.
Defined.

(** * One index set as source and destination *)

Section OneSet.
Import RemoteIndices BuildRemote.
Variable ignorePublic : bool.

Lemma p_out_succ (proc : Z) (l : locals) :
  0 <= proc -> p_out (proc + 1) l = p_in proc l.
Proof.
  intros Hproc. unfold p_out, p_in.
  rewrite !Z.rem_mod_nonneg by lia. rewrite !Zmod_even.
  rewrite Z.add_1_r, Z.even_succ, <- Z.negb_even.
  destruct (Z.even proc); reflexivity.
Qed.

Lemma p_in_set_p_in (proc : Z) (b : list Z) (l : locals) :
  p_in proc (set_p_in proc b l) = b.
Proof. unfold p_in, set_p_in. destruct (Z.rem proc 2 =? 0); reflexivity. Qed.

Lemma length_p_in (proc : Z) (l : locals) (n : nat) :
  List.length (buffer0 l) = n -> List.length (buffer1 l) = n ->
  List.length (p_in proc l) = n.
Proof. unfold p_in. destruct (Z.rem proc 2 =? 0); auto. Qed.

Lemma take_blit_0_le (k : nat) (bs l : list Z) :
  (k <= List.length bs)%nat -> take k (blit 0 bs l) = take k bs.
Proof.
  intros Hk. unfold blit. change (take (Z.to_nat 0) l) with (@nil Z).
  cbn [app]. apply take_app_le, Hk.
Qed.

Lemma slice_take (off n : Z) (k : nat) (l : list Z) :
  0 <= off -> 0 <= n -> (Z.to_nat (off + n) <= k)%nat ->
  slice off n l = slice off n (take k l).
Proof.
  intros H0 Hn Hk. unfold slice.
  rewrite skipn_firstn_comm, take_take. f_equal. lia.
Qed.

(** With no local pair the loop is not entered. *)
Lemma unpackIndices_loop_no_local (bound : nat) (m : memory) remote remoteEntries
      local p_in type position bufferSize index n_in :
  unpackIndices_loop bound m remote remoteEntries local 0
                     p_in type position bufferSize index n_in 0
  = Done (remote, position).
Proof. destruct bound; reflexivity. Qed.

(** [unpackIndices] with [localEntries] 0: at most one pair is
    unpacked, nothing is found. *)
Lemma unpackIndices_no_local (m : memory) (remote : RemoteIndexList) (remoteEntries : Z)
      (local : list pointer) (p_in : list Z) (position bufferSize : Z) :
  0 <= position ->
  (remoteEntries ≠ 0 -> position + 5 <= bufferSize) ->
  bufferSize <= Z.of_nat (List.length p_in) ->
  unpackIndices m remote remoteEntries local 0 p_in MPITraits.PairType_type
                position bufferSize
  = Done (remote, if remoteEntries =? 0 then position else position + 5).
Proof.
  intros H0 Hroom Hsize. unfold unpackIndices.
  destruct (Z.eqb_spec remoteEntries 0) as [Hz|Hnz]; [reflexivity|].
  destruct (unpack_pair_total p_in bufferSize position IndexPair.make0)
    as (g & a & Hrun); [lia|auto|lia|].
  rewrite Hrun. run_outcome. apply unpackIndices_loop_no_local.
Qed.

Lemma header_ints (flag : list Z) (nsrc ndst : Z) :
  List.length flag = 4%nat ->
  slice 0 4 (header flag nsrc ndst) = flag
  ∧ slice 4 4 (header flag nsrc ndst) = int_image nsrc
  ∧ slice 8 4 (header flag nsrc ndst) = int_image ndst.
Proof.
  intros Hfl. destruct (list_of_length_4 flag Hfl) as (b0 & b1 & b2 & b3 & ->).
  repeat split.
Qed.

Lemma unpackIndices_none (m : memory) (remote : RemoteIndexList)
      (local : list pointer) (localEntries : Z) (p_in : list Z)
      (type : MPI_Datatype) (position bufferSize : Z) :
  unpackIndices m remote 0 local localEntries p_in type position bufferSize
  = Done (remote, position).
Proof. reflexivity. Qed.

Lemma hop_store_two (peer : Z) (h : store) (x : RemoteIndices.t)
      (sent received : RemoteIndexList) :
  hop_store peer (S (List.length h)) (List.length h)
            (h ++ [Some received; Some sent]) x
  = Done (if bool_decide (sent = []) && bool_decide (received = [])
          then (h ++ [None; None], x)
          else (h ++ [Some received; Some sent],
                set_remoteIndices_
                  (std_map_insert peer (S (List.length h), List.length h)
                                  (remoteIndices_ x)) x)).
Proof.
  assert (H0 : ∀ c : store, (h ++ c) !! List.length h = c !! 0%nat).
  { intros c. rewrite lookup_app_r by lia. rewrite Nat.sub_diag. reflexivity. }
  assert (H1 : ∀ c : store, (h ++ c) !! S (List.length h) = c !! 1%nat).
  { intros c. rewrite lookup_app_r by lia.
    replace (S (List.length h) - List.length h)%nat with 1%nat by lia. reflexivity. }
  assert (I0 : ∀ (c : store) v, <[List.length h := v]> (h ++ c) = h ++ <[0%nat := v]> c).
  { intros c v. rewrite insert_app_r_alt by lia. rewrite Nat.sub_diag. reflexivity. }
  assert (I1 : ∀ (c : store) v,
             <[S (List.length h) := v]> (h ++ c) = h ++ <[1%nat := v]> c).
  { intros c v. rewrite insert_app_r_alt by lia.
    replace (S (List.length h) - List.length h)%nat with 1%nat by lia. reflexivity. }
  unfold hop_store, list_at, delete_list.
  rewrite H0, H1. cbn [lookup list_lookup or_fault]. run_outcome.
  destruct (bool_decide (sent = []) && bool_decide (received = [])); [|reflexivity].
  rewrite bool_decide_eq_false_2 by lia.
  rewrite ?H1. cbn [lookup list_lookup]. rewrite I1. cbn [insert list_insert].
  rewrite ?H0. cbn [lookup list_lookup]. rewrite I0. reflexivity.
Qed.

(** What a process that sends one index set does with a message of a
    process that sends one index set.  When the flag received reads as 0
    one list is made, otherwise two; they are empty and freed either
    way. *)
Lemma one_set_hop (P B proc : Z) (p : process) (l1 : locals) (m : list Z) :
  12 <= B < 2 ^ 31 -> 1 <= proc ->
  one_set_state P B (p, l1) ->
  one_set_message B m ->
  ∃ l2 st',
    hop_recv proc m l1 = Done l2
    ∧ hop_unpack proc (p, l2) = Done st'
    ∧ one_set_state P B st'
    ∧ one_set_message B (hop_send (proc + 1) (snd st')).
Proof.
  intros HB Hproc (Hmap & Htwo & Hnd & Htype & Hsize & Hb0 & Hb1 & Hrank & Hprocs)
         (n & flag & Hn & HnB & Hfl & Hhead & Hlen & Hfirst).
  cbn [fst snd] in *.
  set (inb := blit 0 m (p_in proc l1)).
  assert (Hpin : List.length (p_in proc l1) = Z.to_nat B) by (apply length_p_in; assumption).
  assert (Hinb : List.length inb = Z.to_nat B).
  { unfold inb. rewrite blit_length; [exact Hpin|lia|lia]. }
  assert (Hinb12 : take 12 inb = header flag n 0).
  { unfold inb. rewrite take_blit_0_le by lia. exact Hhead. }
  exists (set_p_in proc inb l1).
  assert (Hrecv : hop_recv proc m l1 = Done (set_p_in proc inb l1)).
  { unfold hop_recv. rewrite decide_True by lia. reflexivity. }
  set (l2 := set_p_in proc inb l1) in *.
  assert (Hl2 : sendTwo l2 = false ∧ destPublish l2 = 0
                ∧ type l2 = MPITraits.PairType_type ∧ bufferSize l2 = B
                ∧ rank l2 = rank l1 ∧ procs l2 = procs l1
                ∧ List.length (buffer0 l2) = Z.to_nat B
                ∧ List.length (buffer1 l2) = Z.to_nat B).
  { unfold l2, set_p_in. destruct (Z.rem proc 2 =? 0);
      cbn [sendTwo destPublish type bufferSize rank procs buffer0 buffer1]; auto 10. }
  destruct Hl2 as (Htwo2 & Hnd2 & Htype2 & Hsize2 & Hrank2 & Hprocs2 & Hb02 & Hb12).
  assert (Hpin2 : p_in proc l2 = inb) by apply p_in_set_p_in.
  destruct (header_ints flag n 0 Hfl) as (Hi0 & Hi1 & Hi2).
  set (two := to_int (le_value flag)).
  set (pos := if n =? 0 then 12 else 12 + 5).
  assert (Hpos : 12 <= pos <= B).
  { unfold pos. destruct (Z.eqb_spec n 0); lia. }
  assert (Hlists : hop_lists proc p l2
                   = Done (if two =? 0
                           then (set_position pos l2, heap p ++ [Some []],
                                 List.length (heap p), List.length (heap p), two)
                           else (set_position pos l2, heap p ++ [Some []; Some []],
                                 S (List.length (heap p)), List.length (heap p), two))).
  { unfold hop_lists. rewrite Hpin2, Hsize2, Htype2, Hnd2, Htwo2.
    rewrite (unpack_int_run inb B 0) by lia.
    rewrite (slice_take 0 4 12) by lia. rewrite Hinb12, Hi0. fold two.
    run_outcome.
    rewrite (unpack_int_image inb B (0 + 4) n); try lia.
    2:{ unfold int_ok. lia. }
    2:{ rewrite (slice_take (0 + 4) 4 12) by lia. rewrite Hinb12. exact Hi1. }
    run_outcome.
    rewrite (unpack_int_image inb B (0 + 4 + 4) 0); try lia.
    2:{ unfold int_ok. lia. }
    2:{ rewrite (slice_take (0 + 4 + 4) 4 12) by lia. rewrite Hinb12. exact Hi2. }
    run_outcome. cbn [new_list].
    rewrite unpackIndices_no_local; try lia.
    run_outcome. rewrite insert_at_end. fold pos.
    rewrite orb_false_r.
    destruct (two =? 0); cbn [negb]; cbv iota; [reflexivity|].
    rewrite unpackIndices_none. run_outcome.
    rewrite length_app. cbn [List.length].
    replace (List.length (heap p) + 1)%nat with (S (List.length (heap p))) by lia.
    rewrite <- app_assoc. cbn [app].
    rewrite insert_app_r_alt by lia.
    replace (S (List.length (heap p)) - List.length (heap p))%nat with 1%nat by lia.
    reflexivity. }
  assert (Hunpack : ∃ cells,
             hop_unpack proc (p, l2)
             = Done (set_this (this p) (set_heap (heap p ++ cells) p),
                     set_position pos l2)).
  { unfold hop_unpack. rewrite Hlists.
    destruct (two =? 0).
    - exists [None]. run_outcome.
      unfold hop_store, list_at.
      rewrite lookup_app_r by lia. rewrite Nat.sub_diag.
      cbn [lookup list_lookup or_fault]. run_outcome.
      rewrite !bool_decide_eq_true_2 by reflexivity. cbn [andb].
      unfold delete_list. rewrite lookup_app_r by lia. rewrite Nat.sub_diag.
      cbn [lookup list_lookup]. rewrite insert_at_end. reflexivity.
    - exists [None; None]. run_outcome.
      rewrite hop_store_two.
      rewrite !bool_decide_eq_true_2 by reflexivity. cbn [andb].
      reflexivity. }
  destruct Hunpack as [cells Hunpack].
  eexists. split; [exact Hrecv|]. split; [exact Hunpack|].
  cbn [fst snd]. split.
  - unfold one_set_state.
    cbn [fst snd this set_this set_heap sendTwo destPublish type bufferSize
         buffer0 buffer1 rank procs set_position].
    rewrite Hrank2, Hprocs2. auto 10.
  - exists n, flag. split; [exact Hn|]. split; [exact HnB|]. split; [exact Hfl|].
    unfold hop_send. cbn [position set_position].
    assert (Hout : p_out (proc + 1) (set_position pos l2) = inb).
    { rewrite p_out_succ by lia. rewrite <- Hpin2. reflexivity. }
    rewrite Hout.
    split.
    { rewrite take_take. rewrite Nat.min_l by lia. exact Hinb12. }
    rewrite length_take, Hinb.
    split; [lia|].
    intros Hnz. unfold pos in *. destruct (Z.eqb_spec n 0); [contradiction|lia].
Qed.

End OneSet.

Section OneSetRing.
Import RemoteIndices BuildRemote.
Variable ignorePublic : bool.

Lemma bind_run {A B} (e : outcome A) (k : A -> outcome B) (a : A) :
  e = Done a -> e ≫= k = k a.
Proof. intros ->. reflexivity. Qed.

(** A hop returns when the packing returns on every process and every
    process can take the message of every other. *)
Lemma hop_run (proc : Z) (R R1 R' : process * locals -> Prop) (Q : list Z -> Prop)
      (sts : list (process * locals)) :
  (∀ p l, R (p, l) ->
          ∃ l1, hop_pack ignorePublic proc p l = Done l1
                ∧ R1 (p, l1) ∧ Q (hop_send proc l1)) ->
  (∀ p l1 m, R1 (p, l1) -> Q m ->
             ∃ l2 st', hop_recv proc m l1 = Done l2
                       ∧ hop_unpack proc (p, l2) = Done st' ∧ R' st') ->
  (∀ p l1, R1 (p, l1) ->
           0 <= rank l1 < procs l1 ∧ procs l1 = Z.of_nat (List.length sts)) ->
  Forall R sts ->
  ∃ sts', hop ignorePublic proc sts = Done sts'
          ∧ Forall R' sts' ∧ List.length sts' = List.length sts.
Proof.
  intros Hpack Hstep Hranks HR.
  destruct (mapM_run
              (fun st => l ← hop_pack ignorePublic proc (fst st) (snd st);
                         mret (fst st, l))
              (fun _ st1 => R1 st1 ∧ Q (hop_send proc (snd st1))) sts)
    as (sts1 & Hrun1 & Hall1).
  { eapply Forall_impl; [exact HR|]. intros [p l] Hst. cbn [fst snd].
    destruct (Hpack p l Hst) as (l1 & -> & H1 & HQ).
    eexists. split; [reflexivity|]. split; assumption. }
  assert (Hlen1 : List.length sts1 = List.length sts)
    by (symmetry; eapply Forall2_length, Hall1).
  assert (HR1 : Forall (fun st1 => R1 st1 ∧ Q (hop_send proc (snd st1))) sts1).
  { apply Forall_lookup_2. intros i st1 Hst1.
    destruct (Forall2_lookup_r _ _ _ _ _ Hall1 Hst1) as (_ & _ & H). exact H. }
  assert (HQ : ∀ i m, hop_messages proc sts1 !! i = Some m -> Q m).
  { intros i m Hm. unfold hop_messages in Hm.
    rewrite map_fmap, list_lookup_fmap in Hm.
    destruct (sts1 !! i) as [st1|] eqn:Hst1; [|discriminate]. injection Hm as <-.
    apply (Forall_lookup_1 _ _ _ _ HR1 Hst1). }
  destruct (mapM_run
              (fun st =>
                 let l := snd st in
                 message ← or_fault OUT_OF_RANGE
                   (hop_messages proc sts1
                      !! Z.to_nat (Z.rem (rank l + procs l - 1) (procs l)));
                 l ← hop_recv proc message l;
                 mret (fst st, l))
              (fun _ st2 => ∃ st', hop_unpack proc st2 = Done st' ∧ R' st') sts1)
    as (sts2 & Hrun2 & Hall2).
  { eapply Forall_impl; [exact HR1|]. intros [p l1] [H1 _]. cbn [fst snd].
    destruct (Hranks p l1 H1) as [Hr Hp].
    destruct (lookup_lt_is_Some_2 (hop_messages proc sts1)
                (Z.to_nat (Z.rem (rank l1 + procs l1 - 1) (procs l1)))) as [m Hm].
    { unfold hop_messages. rewrite length_map, Hlen1.
      rewrite Z.rem_mod_nonneg by lia.
      pose proof (Z.mod_pos_bound (rank l1 + procs l1 - 1) (procs l1) ltac:(lia)).
      lia. }
    rewrite Hm. cbn [or_fault]. run_outcome.
    destruct (Hstep p l1 m H1 (HQ _ _ Hm)) as (l2 & st' & -> & Hun & H').
    eexists. split; [reflexivity|]. eauto. }
  assert (Hlen2 : List.length sts2 = List.length sts1)
    by (symmetry; eapply Forall2_length, Hall2).
  destruct (mapM_run (hop_unpack proc) (fun _ st' => R' st') sts2)
    as (sts' & Hrun3 & Hall3).
  { apply Forall_lookup_2. intros i st2 Hst2.
    destruct (Forall2_lookup_r _ _ _ _ _ Hall2 Hst2) as (_ & _ & H). exact H. }
  exists sts'. split.
  { unfold hop, hop_pack_all, hop_recv_all.
    rewrite (bind_run _ _ _ Hrun1). cbv beta.
    rewrite (bind_run _ _ _ Hrun2). exact Hrun3. }
  split.
  - apply Forall_lookup_2. intros i st' Hst'.
    destruct (Forall2_lookup_r _ _ _ _ _ Hall3 Hst') as (_ & _ & H). exact H.
  - apply Forall2_length in Hall3. lia.
Qed.

(** The loop returns when every hop before [last] does. *)
Lemma ring_from_run (I : Z -> list (process * locals) -> Prop) (last : Z) (turns : nat) :
  (∀ proc sts, 1 <= proc < last -> I proc sts ->
               ∃ sts', hop ignorePublic proc sts = Done sts' ∧ I (proc + 1) sts') ->
  ∀ proc sts,
    1 <= proc ->
    proc + Z.of_nat turns = last ->
    I proc sts ->
    ∃ sts', ring_from ignorePublic turns proc sts = Done sts' ∧ I last sts'.
Proof.
  intros Hstep. induction turns as [|turns IH]; intros proc sts H1 Hlast HI;
    cbn [ring_from].
  - exists sts. split; [reflexivity|]. replace last with proc by lia. exact HI.
  - destruct (Hstep proc sts ltac:(lia) HI) as (sts1 & -> & HI1). run_outcome.
    apply IH; [lia|lia|exact HI1].
Qed.

End OneSetRing.

Section OneSetRebuild.
Import RemoteIndices BuildRemote.
Variable ignorePublic : bool.

(** The message of the first hop of a process that sends one index set. *)
Lemma first_message_one_set (B : Z) (p : process) :
  source_ (this p) = dest_ (this p) ->
  ∀ two nsrc ndst,
    to_publish ignorePublic p = (two, nsrc, ndst) ->
    0 <= nsrc -> 5 * nsrc + 12 <= B ->
    two = false ∧ ndst = 0
    ∧ one_set_message B (first_message_bytes ignorePublic p).
Proof.
  intros Hsame two nsrc ndst Hpub Hn HB.
  pose proof (length_first_message_bytes ignorePublic p two nsrc ndst Hpub) as Hlen.
  destruct (to_publish_facts ignorePublic p two nsrc ndst Hpub) as (Htwo & Hnsrc & Hndst).
  rewrite Hsame, Z.eqb_refl in Htwo. cbn [negb] in Htwo. subst two.
  cbv iota in Hndst. subst ndst.
  split; [reflexivity|]. split; [reflexivity|].
  exists nsrc, (sendTwo_int p false).
  split; [exact Hn|]. split; [exact HB|]. split; [reflexivity|].
  split.
  - unfold first_message_bytes. rewrite Hpub. apply take_app_length'. reflexivity.
  - split; [lia|]. intros Hnz. lia.
Qed.

Lemma rebuild_one_set_ring (ps : list process) :
  Forall sizes_fit ps ->
  Forall (fun p => source_ (this p) = dest_ (this p)) ps ->
  (2 <= List.length ps)%nat ->
  ∃ sts',
    ring ignorePublic (prepare_all ignorePublic (map clear ps)) = Done sts'
    ∧ List.length sts' = List.length ps
    ∧ Forall (fun st' => remoteIndices_ (this (fst st')) = ∅) sts'.
Proof.
  intros Hfit Hsame Htwo.
  destruct (maxPublish_bounds ignorePublic ps Hfit) as [HM Hle].
  set (M := MPI_Allreduce_MAX (map (publish ignorePublic) (map clear ps))) in *.
  set (P := Z.of_nat (List.length ps)).
  set (B := 5 * M + 12).
  assert (HM0 : List.length ps ≠ 0%nat -> 0 <= M).
  { intros Hne. destruct ps as [|p ps']; [contradiction|].
    specialize (Hle p (or_introl eq_refl)).
    apply Forall_cons in Hfit as [Hp _].
    destruct (to_publish ignorePublic (clear p)) as [[two nsrc] ndst] eqn:Hpub.
    destruct (publish_bounds ignorePublic (clear p) Hp two nsrc ndst Hpub)
      as (? & ? & Hpeq & _).
    rewrite Hpeq in Hle. lia. }
  pose (Rp := fun (proc : Z) (st : process * locals) =>
                if proc =? 1
                then ∃ (i : nat) (p : process),
                    st = (clear p, prepare ignorePublic (Z.of_nat i) P M (clear p))
                    ∧ In p ps ∧ (i < List.length ps)%nat
                else one_set_state P B st
                     ∧ one_set_message B (hop_send proc (snd st))).
  pose (I := fun (proc : Z) (sts : list (process * locals)) =>
               List.length sts = List.length ps ∧ Forall (Rp proc) sts).
  assert (Hstart : I 1 (prepare_all ignorePublic (map clear ps))).
  { unfold I, prepare_all. rewrite length_imap, length_map. split; [reflexivity|].
    apply Forall_lookup_2. intros i st Hst.
    apply list_lookup_imap_Some in Hst as (pc & Hpc & ->).
    rewrite map_fmap, list_lookup_fmap in Hpc.
    destruct (ps !! i) as [p|] eqn:Hp; [|discriminate]. injection Hpc as <-.
    unfold Rp. cbn [Z.eqb Pos.eqb]. exists i, p.
    rewrite ?length_map. fold M P.
    split; [reflexivity|]. split.
    - apply list_elem_of_In. eapply list_elem_of_lookup_2, Hp.
    - eapply lookup_lt_Some, Hp. }
  assert (Hstep : ∀ proc sts, 1 <= proc < Z.max 1 P -> I proc sts ->
                    ∃ sts', hop ignorePublic proc sts = Done sts' ∧ I (proc + 1) sts').
  { intros proc sts Hproc [Hlen HR].
    assert (HB : 12 <= B < 2 ^ 31).
    { unfold B. split; [|lia]. assert (0 <= M) by (apply HM0; lia). lia. }
    destruct (hop_run ignorePublic proc (Rp proc) (one_set_state P B)
                (fun st' => one_set_state P B st'
                            ∧ one_set_message B (hop_send (proc + 1) (snd st')))
                (one_set_message B) sts) as (sts' & Hhop & HR' & Hlen').
    - (* the packing *)
      intros p l Hst. unfold Rp in Hst.
      destruct (Z.eqb_spec proc 1) as [->|Hne].
      + destruct Hst as (i & p0 & [= -> ->] & Hin & Hi).
        rewrite List.Forall_forall in Hfit, Hsame.
        destruct (hop_pack_first_message ignorePublic (Z.of_nat i) P M (clear p0))
          as (l' & Hrun & Hsend & Hr & Hp & Hsz & Hb0 & Hb1 & Hty & Hpub).
        { exact (Hfit p0 Hin). }
        { apply Hle, Hin. }
        { exact HM. }
        exists l'. split; [exact Hrun|].
        destruct (to_publish ignorePublic (clear p0)) as [[two nsrc] ndst] eqn:Epub.
        injection Hpub as Htwo' Hnsrc' Hndst'.
        destruct (publish_bounds ignorePublic (clear p0) (Hfit p0 Hin) two nsrc ndst Epub)
          as (Hn0 & Hd0 & Hpeq & _).
        destruct (first_message_one_set B (clear p0) (Hsame p0 Hin) two nsrc ndst Epub)
          as (-> & -> & Hmsg); [exact Hn0| |].
        { specialize (Hle p0 Hin). rewrite Hpeq in Hle. unfold B. lia. }
        split.
        * unfold one_set_state. cbn [fst snd]. rewrite Hr, Hp, Hsz, Hb0, Hb1, Hty.
          fold B. unfold P. repeat split; try assumption; try lia; reflexivity.
        * rewrite Hsend. exact Hmsg.
      + destruct Hst as [Hstate Hmsg]. exists l.
        split; [|split; assumption].
        unfold hop_pack. destruct (Z.eqb_spec proc 1); [contradiction|reflexivity].
    - (* the message of the neighbour *)
      intros p l1 m H1 Hm.
      destruct (one_set_hop P B proc p l1 m HB ltac:(lia) H1 Hm)
        as (l2 & st' & Hr & Hu & Hs' & Hm').
      exists l2, st'. auto.
    - intros p l1 (_ & _ & _ & _ & _ & _ & _ & Hr & Hp). cbn [snd] in *.
      split; [exact Hr|]. rewrite Hp, Hlen. reflexivity.
    - exact HR.
    - exists sts'. split; [exact Hhop|]. split; [lia|].
      eapply Forall_impl; [exact HR'|]. intros st' Hst'. unfold Rp.
      destruct (Z.eqb_spec (proc + 1) 1); [lia|exact Hst']. }
  destruct (ring_from_run ignorePublic I (Z.max 1 P) (List.length ps - 1) Hstep 1
              (prepare_all ignorePublic (map clear ps)))
    as (sts' & Hring & Hlen & Hend); [lia|unfold P; lia|exact Hstart|].
  assert (Hring' : ring ignorePublic (prepare_all ignorePublic (map clear ps)) = Done sts').
  { assert (Hl : List.length (prepare_all ignorePublic (map clear ps)) = List.length ps)
      by (unfold prepare_all; rewrite length_imap, length_map; reflexivity).
    unfold ring. rewrite Hl. exact Hring. }
  exists sts'. split; [exact Hring'|]. split; [exact Hlen|].
  eapply Forall_impl; [exact Hend|]. intros st' Hst'. unfold Rp in Hst'.
  destruct (Z.eqb_spec (Z.max 1 P) 1) as [Hone|_]; [unfold P in Hone; lia|].
  destruct Hst' as [(Hmap & _) _]. exact Hmap.
Qed.

End OneSetRebuild.

(** X12.  [rebuild] on processes that all use one index set as source and as
    destination, the sets small enough for the counts to be [int]s:
    whatever the index sets hold, whatever bytes lie behind the [bool
    sendTwo] and however many processes there are, the call returns on
    every process and [remoteIndices_] is empty on every process.  No
    remote index is ever found. *)
Theorem rebuild_one_set_finds_nothing (ignorePublic : bool) (ps : list process) :
  Forall sizes_fit ps ->
  Forall (fun p => RemoteIndices.source_ (this p) = RemoteIndices.dest_ (this p)) ps ->
  ∃ ps',
    rebuild ignorePublic ps = Done ps'
    ∧ List.length ps' = List.length ps
    ∧ Forall (fun p' => RemoteIndices.remoteIndices_ (this p') = ∅) ps'.
Proof.
  intros Hfit Hsame. unfold rebuild, BuildRemote.buildRemote.
  rewrite length_map.
  destruct (Z.eqb_spec (Z.of_nat (List.length ps)) 1) as [Hone|Hmore].
  - eexists. split; [reflexivity|]. rewrite length_map. split; [reflexivity|].
    rewrite map_fmap. apply Forall_fmap, Forall_true. intros p. reflexivity.
  - destruct (decide (List.length ps = 0%nat)) as [Hzero|Hnz].
    + apply length_zero_iff_nil in Hzero. subst ps.
      exists []. split; [reflexivity|]. split; [reflexivity|constructor].
    + destruct (rebuild_one_set_ring ignorePublic ps Hfit Hsame)
        as (sts' & Hring & Hlen & Hall); [lia|].
      rewrite Hring. eexists. split; [reflexivity|].
      rewrite length_map. split; [exact Hlen|].
      rewrite map_fmap. apply Forall_fmap. exact Hall.
Qed.

(** The two index sets of scenario S1, which have a pair in common, on
    processes where the bytes behind the [bool] are 3: the flag received
    does not read as 0, each process makes two lists, finds nothing and
    frees both. *)
Lemma rebuild_one_set_finds_nothing_witness :
  let p := fun set =>
             Process (Scenario.two_sets set Scenario.empty_set) []
                     (RemoteIndices.make 100 100 0) (fun _ => 0) (fun _ => 3) in
  ∃ ps',
    rebuild false [p Scenario.S1_rank0; p Scenario.S1_rank1] = Done ps'
    ∧ List.length ps' = 2%nat
    ∧ Forall (fun p' => RemoteIndices.remoteIndices_ (this p') = ∅) ps'
    ∧ Forall (fun p' => heap p' = [None; None]) ps'.
Proof.
  cbv zeta.
  destruct (rebuild_one_set_finds_nothing false
              [Process (Scenario.two_sets Scenario.S1_rank0 Scenario.empty_set) []
                       (RemoteIndices.make 100 100 0) (fun _ => 0) (fun _ => 3);
               Process (Scenario.two_sets Scenario.S1_rank1 Scenario.empty_set) []
                       (RemoteIndices.make 100 100 0) (fun _ => 0) (fun _ => 3)])
    as (ps' & Hrun & Hlen & Hnone).
  - repeat constructor.
  - repeat constructor.
  - exists ps'. split; [exact Hrun|]. split; [exact Hlen|]. split; [exact Hnone|].
    revert Hrun. vm_compute. intros [= <-]. repeat constructor.
Defined.

(** * Two processes, two index sets each *)

Section Located.
Variable ignorePublic : bool.
Variable m : memory.
Variable indexSet : Z.

Lemma with_globals_published_from (rest : list IndexPair.t) :
  ∀ k : nat,
    (∀ j d, rest !! j = Some d -> IndexSet.pairs (m indexSet) !! (k + j)%nat = Some d) ->
    with_globals m (published ignorePublic indexSet k rest)
    = Some (zip (published ignorePublic indexSet k rest)
                (map IndexPair.global (published_pairs ignorePublic rest))).
Proof.
  induction rest as [|x rest IH]; intros k Hk; [reflexivity|].
  assert (Hrest : ∀ j d, rest !! j = Some d ->
                         IndexSet.pairs (m indexSet) !! (S k + j)%nat = Some d).
  { intros j d Hj. replace (S k + j)%nat with (k + S j)%nat by lia.
    apply Hk. exact Hj. }
  cbn [published]. rewrite published_pairs_cons.
  destruct (ignorePublic || ParallelLocalIndex.isPublic (IndexPair.local x)).
  - unfold with_globals in *. cbn [mapM map zip zip_with].
    specialize (Hk 0%nat x eq_refl). rewrite Nat.add_0_r in Hk.
    assert (Hd : deref m (Pointer indexSet k) = Some x) by exact Hk.
    rewrite Hd. cbn. rewrite (IH (S k) Hrest). reflexivity.
  - apply IH, Hrest.
Qed.

Lemma with_globals_published :
  with_globals m (published ignorePublic indexSet 0 (IndexSet.pairs (m indexSet)))
  = Some (located_published ignorePublic m indexSet).
Proof.
  apply with_globals_published_from. intros j d Hj. exact Hj.
Qed.

Lemma located_from_In (rest : list IndexPair.t) (ptr : pointer) (g : Z) :
  ∀ k : nat,
    In (ptr, g) (zip (published ignorePublic indexSet k rest)
                     (map IndexPair.global (published_pairs ignorePublic rest)))
    ↔ ∃ j d, rest !! j = Some d
             ∧ ignorePublic || ParallelLocalIndex.isPublic (IndexPair.local d) = true
             ∧ ptr = Pointer indexSet (k + j) ∧ g = IndexPair.global d.
Proof.
  induction rest as [|x rest IH]; intros k.
  - cbn. split; [intros []|intros (j & d & Hj & _)]. discriminate.
  - cbn [published]. rewrite published_pairs_cons.
    destruct (ignorePublic || ParallelLocalIndex.isPublic (IndexPair.local x)) eqn:Hx.
    + cbn [map zip zip_with In]. rewrite (IH (S k)). split.
      * intros [Heq|(j & d & Hj & Hd & -> & ->)].
        -- injection Heq as <- <-. exists 0%nat, x.
           rewrite Nat.add_0_r. auto.
        -- exists (S j), d. replace (k + S j)%nat with (S k + j)%nat by lia. auto.
      * intros (j & d & Hj & Hd & -> & ->). destruct j as [|j].
        -- injection Hj as ->. left. rewrite Nat.add_0_r. reflexivity.
        -- right. exists j, d. replace (k + S j)%nat with (S k + j)%nat by lia. auto.
    + rewrite (IH (S k)). split.
      * intros (j & d & Hj & Hd & -> & ->).
        exists (S j), d. replace (k + S j)%nat with (S k + j)%nat by lia. auto.
      * intros (j & d & Hj & Hd & -> & ->). destruct j as [|j].
        -- injection Hj as ->. congruence.
        -- exists j, d. replace (k + S j)%nat with (S k + j)%nat by lia. auto.
Qed.

Lemma located_published_In (ptr : pointer) (g : Z) :
  In (ptr, g) (located_published ignorePublic m indexSet)
  ↔ ∃ k d, IndexSet.pairs (m indexSet) !! k = Some d
           ∧ ignorePublic || ParallelLocalIndex.isPublic (IndexPair.local d) = true
           ∧ ptr = Pointer indexSet k ∧ g = IndexPair.global d.
Proof. apply (located_from_In _ ptr g 0). Qed.

Lemma located_published_snd :
  map snd (located_published ignorePublic m indexSet)
  = map IndexPair.global
        (published_pairs ignorePublic (IndexSet.pairs (m indexSet))).
Proof.
  unfold located_published. rewrite !map_fmap. apply snd_zip.
  rewrite length_fmap, (length_published ignorePublic indexSet). lia.
Qed.

Lemma located_published_sorted :
  IndexSet.ascending (m indexSet) ->
  StronglySorted Z.lt (map snd (located_published ignorePublic m indexSet)).
Proof.
  intros Hasc. rewrite located_published_snd.
  apply published_pairs_sorted, Hasc.
Qed.

(** The merge of the pairs sent against the published pairs of the
    index set. *)
Lemma merge_entries_of (sent : list IndexPair.t) :
  Forall IndexPair.ok sent ->
  StronglySorted Z.lt (map IndexPair.global sent) ->
  IndexSet.ascending (m indexSet) ->
  entries_of ignorePublic sent m indexSet
             (merge_spec (map pair_record sent)
                         (located_published ignorePublic m indexSet)).
Proof.
  intros Hok Hsent Hasc e. rewrite List.Forall_forall in Hok.
  rewrite merge_spec_In.
  - split.
    + intros (r & [ptr g] & Hr & Hl & Hg & ->).
      apply in_map_iff in Hr as (s & <- & Hs).
      apply located_published_In in Hl as (k & d & Hk & Hd & -> & ->).
      cbn [fst snd pair_record] in *.
      exists s, k, d. rewrite (make_attribute s _ (Hok s Hs)). auto 10.
    + intros (s & k & d & Hs & Hk & Hd & Hg & ->).
      exists (pair_record s), (Pointer indexSet k, IndexPair.global d).
      split; [apply in_map, Hs|].
      split; [apply located_published_In; eauto 10|].
      cbn [fst snd pair_record]. rewrite (make_attribute s _ (Hok s Hs)). auto.
  - rewrite map_map. exact Hsent.
  - apply located_published_sorted, Hasc.
Qed.

End Located.

Section TwoSetHop.
Import RemoteIndices BuildRemote.
Variable ignorePublic : bool.

(** The first hop of a process with two index sets that is handed the
    message of a process with two index sets. *)
Lemma two_set_hop (r np maxPublish : Z) (p q : process) :
  sizes_fit p -> sizes_fit q ->
  publish ignorePublic p <= maxPublish ->
  publish ignorePublic q <= maxPublish ->
  5 * maxPublish + 12 < 2 ^ 31 ->
  two_sets_ok p -> two_sets_ok q ->
  stream_read ignorePublic
              (published_pairs ignorePublic (IndexSet.pairs (mem q (source_ (this q)))))
              (mem p) (dest_ (this p)) ->
  let received :=
    merge_spec (map pair_record
                    (published_pairs ignorePublic
                       (IndexSet.pairs (mem q (source_ (this q))))))
               (located_published ignorePublic (mem p) (dest_ (this p))) in
  let sent :=
    merge_spec (map pair_record
                    (published_pairs ignorePublic
                       (IndexSet.pairs (mem q (dest_ (this q))))))
               (located_published ignorePublic (mem p) (source_ (this p))) in
  ∃ l1 l2 l',
    hop_pack ignorePublic 1 p (prepare ignorePublic r np maxPublish p) = Done l1
    ∧ hop_send 1 l1 = first_message_bytes ignorePublic p
    ∧ rank l1 = r ∧ procs l1 = np
    ∧ hop_recv 1 (first_message_bytes ignorePublic q) l1 = Done l2
    ∧ hop_unpack 1 (p, l2)
      = Done (if bool_decide (sent = []) && bool_decide (received = [])
              then set_this (this p) (set_heap (heap p ++ [None; None]) p)
              else set_this
                     (set_remoteIndices_
                        (std_map_insert (Z.rem (r + np - 1) np)
                                        (S (List.length (heap p)), List.length (heap p))
                                        (remoteIndices_ (this p))) (this p))
                     (set_heap (heap p ++ [Some received; Some sent]) p),
              l').
Proof.
  intros Hfitp Hfitq Hlep Hleq Hint Hokp Hokq Hread received sent.
  set (B := 5 * maxPublish + 12) in *.
  destruct Hokp as (Hnep & Hoksp & Hascsp & Hokdp & Hascdp).
  destruct Hokq as (Hneq & Hoksq & Hascsq & Hokdq & Hascdq).
  destruct (hop_pack_first_message ignorePublic r np maxPublish p Hfitp Hlep Hint)
    as (l1 & Hpack & Hsend & Hrank & Hprocs & Hsize & Hb0 & Hb1 & Htype & Hpub).
  pose proof (hop_pack_first ignorePublic p _ l1 r np maxPublish eq_refl Hpack)
    as [Hsrcarr Hdstarr].
  fold B in Hsize, Hb0, Hb1.
  (* the counts of this process *)
  destruct (to_publish ignorePublic p) as [[twop nsp] ndp] eqn:Epubp.
  injection Hpub as Htwo1 Hns1 Hnd1.
  destruct (to_publish_facts ignorePublic p twop nsp ndp Epubp) as (Htwop & Hnsp & Hndp).
  assert (twop = true) as ->.
  { rewrite Htwop. destruct (Z.eqb_spec (source_ (this p)) (dest_ (this p)));
      [contradiction|reflexivity]. }
  specialize (Hdstarr Htwo1). cbv iota in Hndp.
  (* the counts of the sender *)
  destruct (to_publish ignorePublic q) as [[twoq nsq] ndq] eqn:Epubq.
  destruct (to_publish_facts ignorePublic q twoq nsq ndq Epubq) as (Htwoq & Hnsq & Hndq).
  assert (twoq = true) as ->.
  { rewrite Htwoq. destruct (Z.eqb_spec (source_ (this q)) (dest_ (this q)));
      [contradiction|reflexivity]. }
  cbv iota in Hndq.
  destruct (publish_bounds ignorePublic q Hfitq true nsq ndq Epubq)
    as (Hnsq0 & Hndq0 & Hpubq & _).
  rewrite Hpubq in Hleq.
  pose proof (length_first_message_bytes ignorePublic q true nsq ndq Epubq) as Hlenm.
  set (srcq := published_pairs ignorePublic (IndexSet.pairs (mem q (source_ (this q))))) in *.
  set (dstq := published_pairs ignorePublic (IndexSet.pairs (mem q (dest_ (this q))))) in *.
  set (m := first_message_bytes ignorePublic q) in *.
  (* the message in the buffer *)
  set (inb := blit 0 m (p_in 1 l1)).
  assert (Hpin : List.length (p_in 1 l1) = Z.to_nat B) by (apply length_p_in; assumption).
  assert (Hinb : List.length inb = Z.to_nat B).
  { unfold inb. rewrite blit_length; [exact Hpin|lia|lia]. }
  assert (Hrecv : hop_recv 1 m l1 = Done (set_p_in 1 inb l1)).
  { unfold hop_recv. rewrite decide_True by lia. reflexivity. }
  set (l2 := set_p_in 1 inb l1) in *.
  assert (Hl2 : sendTwo l2 = true ∧ sourcePublish l2 = nsp ∧ destPublish l2 = ndp
                ∧ type l2 = MPITraits.PairType_type ∧ bufferSize l2 = B
                ∧ rank l2 = r ∧ procs l2 = np
                ∧ sourcePairs l2 = sourcePairs l1
                ∧ destPairs l2 = destPairs_new l1).
  { unfold l2, set_p_in, destPairs. change (Z.rem 1 2 =? 0) with false. cbv iota.
    cbn [sendTwo sourcePublish destPublish type bufferSize rank procs sourcePairs
         destPairs_new]. rewrite Htwo1. auto 10. }
  destruct Hl2 as (Htwo2 & Hns2 & Hnd2 & Htype2 & Hsize2 & Hrank2 & Hprocs2 & Hsp2 & Hdp2).
  assert (Hpin2 : p_in 1 l2 = inb) by apply p_in_set_p_in.
  exists l1, l2.
  pose proof (length_sendTwo_int q true) as Hfl.
  set (flag := sendTwo_int q true) in *.
  assert (Hm : m = header flag nsq ndq ++ packed_pairs srcq ++ packed_pairs dstq).
  { unfold m, first_message_bytes. rewrite Epubq. reflexivity. }
  assert (Hhl : List.length (header flag nsq ndq) = 12%nat) by reflexivity.
  clearbody flag.
  assert (Hinb12 : take 12 inb = header flag nsq ndq).
  { unfold inb. rewrite take_blit_0_le by lia. rewrite Hm.
    apply take_app_length'. symmetry; exact Hhl. }
  destruct (header_ints flag nsq ndq Hfl) as (Hi0 & Hi1 & Hi2).
  assert (Hlsrc : Z.of_nat (List.length srcq) = nsq) by lia.
  assert (Hldst : Z.of_nat (List.length dstq) = ndq) by lia.
  (* the two streams in the buffer *)
  assert (Hinb' : inb = blit (12 + 5 * nsq) (packed_pairs dstq)
                             (blit 12 (packed_pairs srcq)
                                   (blit 0 (header flag nsq ndq) (p_in 1 l1)))).
  { unfold inb. rewrite Hm.
    rewrite <- (blit_app 0 (header flag nsq ndq)) by lia.
    rewrite <- (blit_app (0 + Z.of_nat (List.length (header flag nsq ndq)))
                         (packed_pairs srcq)).
    - rewrite Hhl, length_packed_pairs. f_equal. lia.
    - lia.
    - rewrite blit_length; lia. }
  assert (Hrs1 : holds_records inb 12 (map pair_record srcq)).
  { rewrite Hinb'. apply holds_records_blit_after.
    - lia.
    - rewrite length_map. lia.
    - rewrite !blit_length; rewrite ?blit_length; rewrite ?length_packed_pairs; lia.
    - apply holds_records_blit; [lia|]. rewrite blit_length; lia. }
  assert (Hrs2 : holds_records inb (12 + 5 * nsq) (map pair_record dstq)).
  { rewrite Hinb'. apply holds_records_blit; [lia|].
    rewrite !blit_length; rewrite ?blit_length; rewrite ?length_packed_pairs; lia. }
  (* the two calls of unpackIndices *)
  assert (Hun1 : unpackIndices (mem p) [] nsq (destPairs l2) ndp inb
                               MPITraits.PairType_type 12 B
                 = Done (received, 12 + 5 * nsq)).
  { rewrite <- Hlsrc at 1. rewrite <- (length_map pair_record srcq).
    rewrite (unpackIndices_full (mem p) [] (map pair_record srcq) (destPairs l2) ndp
               (located_published ignorePublic (mem p) (dest_ (this p))) inb 12 B).
    - cbn [app]. fold received. f_equal. f_equal.
      unfold stream_read in Hread. rewrite Hread. lia.
    - apply pair_record_ok, published_pairs_ok, Hoksq.
    - exact Hrs1.
    - lia.
    - rewrite length_map. lia.
    - lia.
    - rewrite Hdp2, Hdstarr, (length_published ignorePublic). lia.
    - rewrite Hdp2, Hdstarr, Hndp, Nat2Z.id.
      rewrite <- (length_published ignorePublic (dest_ (this p)) 0).
      rewrite firstn_all. apply with_globals_published.
    - rewrite map_map. apply published_pairs_sorted, Hascsq.
    - apply located_published_sorted, Hascdp. }
  assert (Hun2 : ∃ position',
             unpackIndices (mem p) [] ndq (sourcePairs l2) nsp inb
                           MPITraits.PairType_type (12 + 5 * nsq) B
             = Done (sent, position')).
  { eexists. rewrite <- Hldst at 1. rewrite <- (length_map pair_record dstq).
    rewrite (unpackIndices_full (mem p) [] (map pair_record dstq) (sourcePairs l2) nsp
               (located_published ignorePublic (mem p) (source_ (this p))) inb
               (12 + 5 * nsq) B).
    - cbn [app]. fold sent. reflexivity.
    - apply pair_record_ok, published_pairs_ok, Hokdq.
    - exact Hrs2.
    - lia.
    - rewrite length_map. lia.
    - lia.
    - rewrite Hsp2, Hsrcarr, (length_published ignorePublic). lia.
    - rewrite Hsp2, Hsrcarr, Hnsp, Nat2Z.id.
      rewrite <- (length_published ignorePublic (source_ (this p)) 0).
      rewrite firstn_all. apply with_globals_published.
    - rewrite map_map. apply published_pairs_sorted, Hascdq.
    - apply located_published_sorted, Hascsp. }
  destruct Hun2 as [position' Hun2].
  assert (Hlists : hop_lists 1 p l2
                   = Done (set_position position' l2,
                           heap p ++ [Some received; Some sent],
                           S (List.length (heap p)), List.length (heap p),
                           to_int (le_value flag))).
  { unfold hop_lists. rewrite Hpin2, Hsize2, Htype2, Hnd2, Hns2, Htwo2.
    rewrite (unpack_int_run inb B 0) by lia.
    rewrite (slice_take 0 4 12) by lia. rewrite Hinb12, Hi0.
    run_outcome.
    rewrite (unpack_int_image inb B (0 + 4) nsq); try lia.
    2:{ unfold int_ok. lia. }
    2:{ rewrite (slice_take (0 + 4) 4 12) by lia. rewrite Hinb12. exact Hi1. }
    run_outcome.
    rewrite (unpack_int_image inb B (0 + 4 + 4) ndq); try lia.
    2:{ unfold int_ok. lia. }
    2:{ rewrite (slice_take (0 + 4 + 4) 4 12) by lia. rewrite Hinb12. exact Hi2. }
    run_outcome. cbn [new_list].
    change (0 + 4 + 4 + 4) with 12. rewrite Hun1. run_outcome.
    rewrite insert_at_end.
    rewrite orb_true_r. cbv iota.
    rewrite length_app. cbn [List.length].
    rewrite Hun2. run_outcome.
    replace (List.length (heap p) + 1)%nat with (S (List.length (heap p))) by lia.
    rewrite <- app_assoc. cbn [app].
    replace (<[S (List.length (heap p)) := Some sent]>
               (heap p ++ [Some received; Some []]))
      with (heap p ++ [Some received; Some sent]).
    - reflexivity.
    - rewrite insert_app_r_alt by lia.
      replace (S (List.length (heap p)) - List.length (heap p))%nat with 1%nat by lia.
      reflexivity. }
  eexists. split; [exact Hpack|]. split; [exact Hsend|].
  split; [exact Hrank|]. split; [exact Hprocs|]. split; [exact Hrecv|].
  unfold hop_unpack. rewrite Hlists. run_outcome.
  rewrite hop_store_two. unfold remoteProc, set_position.
  cbn [rank procs]. rewrite Hrank2, Hprocs2.
  destruct (bool_decide (sent = []) && bool_decide (received = [])); reflexivity.
Qed.

End TwoSetHop.

Section TwoProcesses.
Import RemoteIndices BuildRemote.
Variable ignorePublic : bool.

Lemma found_after_hop (q p : process) (peer : Z) :
  two_sets_ok p -> two_sets_ok q ->
  let received :=
    merge_spec (map pair_record
                    (published_pairs ignorePublic
                       (IndexSet.pairs (mem q (source_ (this q))))))
               (located_published ignorePublic (mem p) (dest_ (this p))) in
  let sent :=
    merge_spec (map pair_record
                    (published_pairs ignorePublic
                       (IndexSet.pairs (mem q (dest_ (this q))))))
               (located_published ignorePublic (mem p) (source_ (this p))) in
  found ignorePublic q p peer
        (if bool_decide (sent = []) && bool_decide (received = [])
         then set_this (this (clear p)) (set_heap (heap (clear p) ++ [None; None]) (clear p))
         else set_this
                (set_remoteIndices_
                   (std_map_insert peer
                      (S (List.length (heap (clear p))), List.length (heap (clear p)))
                      (remoteIndices_ (this (clear p)))) (this (clear p)))
                (set_heap (heap (clear p) ++ [Some received; Some sent]) (clear p))).
Proof.
  intros (_ & _ & Hascsp & _ & Hascdp) (_ & Hoksq & Hascsq & Hokdq & Hascdq) received sent.
  exists sent, received.
  split.
  { apply merge_entries_of;
      [apply published_pairs_ok, Hoksq|apply published_pairs_sorted, Hascsq|exact Hascdp]. }
  split.
  { apply merge_entries_of;
      [apply published_pairs_ok, Hokdq|apply published_pairs_sorted, Hascdq|exact Hascsp]. }
  destruct (bool_decide (sent = []) && bool_decide (received = [])); [reflexivity|].
  exists (S (List.length (heap p))), (List.length (heap p)).
  split; [lia|]. split; [reflexivity|].
  unfold list_at. cbn [heap set_this set_heap clear].
  split.
  - rewrite lookup_app_r by lia.
    replace (S (List.length (heap p)) - List.length (heap p))%nat with 1%nat by lia.
    reflexivity.
  - rewrite lookup_app_r by lia. rewrite Nat.sub_diag. reflexivity.
Qed.

End TwoProcesses.

(** X13.  [rebuild] on two processes that have a source and a destination
    index set each, the pairs ascending in the global index, when each
    process unpacks the source pairs of the other to the end of the
    stream.  The call returns on both.  Each process then holds, under
    the rank of the other, a receive list with an entry for exactly the
    published source pairs of the other whose global index one of its
    own published destination pairs has, and a send list with an entry
    for exactly the published destination pairs of the other whose
    global index one of its own published source pairs has; an entry is
    the attribute the pair has on the other process with the pointer to
    the own pair.  When both lists are empty it holds nothing. *)
Theorem rebuild_two_processes (ignorePublic : bool) (p0 p1 : process) :
  sizes_fit p0 -> sizes_fit p1 ->
  two_sets_ok p0 -> two_sets_ok p1 ->
  stream_read ignorePublic
    (published_pairs ignorePublic
       (IndexSet.pairs (mem p1 (RemoteIndices.source_ (this p1)))))
    (mem p0) (RemoteIndices.dest_ (this p0)) ->
  stream_read ignorePublic
    (published_pairs ignorePublic
       (IndexSet.pairs (mem p0 (RemoteIndices.source_ (this p0)))))
    (mem p1) (RemoteIndices.dest_ (this p1)) ->
  ∃ p0' p1',
    rebuild ignorePublic [p0; p1] = Done [p0'; p1']
    ∧ found ignorePublic p1 p0 1 p0'
    ∧ found ignorePublic p0 p1 0 p1'.
Proof.
  intros Hfit0 Hfit1 Hok0 Hok1 Hread0 Hread1.
  destruct (maxPublish_bounds ignorePublic [p0; p1]) as [HM Hle].
  { constructor; [exact Hfit0|]. constructor; [exact Hfit1|constructor]. }
  set (M := BuildRemote.MPI_Allreduce_MAX
              (map (BuildRemote.publish ignorePublic) (map BuildRemote.clear [p0; p1]))) in *.
  pose proof (Hle p0 (or_introl eq_refl)) as Hle0.
  pose proof (Hle p1 (or_intror (or_introl eq_refl))) as Hle1.
  destruct (two_set_hop ignorePublic 0 2 M (BuildRemote.clear p0) (BuildRemote.clear p1)
              Hfit0 Hfit1 Hle0 Hle1 HM Hok0 Hok1 Hread0)
    as (l10 & l20 & l0' & Hpack0 & Hsend0 & Hrank0 & Hprocs0 & Hrecv0 & Hun0).
  destruct (two_set_hop ignorePublic 1 2 M (BuildRemote.clear p1) (BuildRemote.clear p0)
              Hfit1 Hfit0 Hle1 Hle0 HM Hok1 Hok0 Hread1)
    as (l11 & l21 & l1' & Hpack1 & Hsend1 & Hrank1 & Hprocs1 & Hrecv1 & Hun1).
  cbv zeta in Hun0, Hun1.
  change (Z.rem (0 + 2 - 1) 2) with 1 in Hun0.
  change (Z.rem (1 + 2 - 1) 2) with 0 in Hun1.
  eexists _, _. split.
  - unfold rebuild, BuildRemote.buildRemote.
    cbn [map List.length]. change (Z.of_nat 2 =? 1) with false. cbv iota.
    change (BuildRemote.prepare_all ignorePublic
              [BuildRemote.clear p0; BuildRemote.clear p1])
      with [(BuildRemote.clear p0,
             BuildRemote.prepare ignorePublic 0 2 M (BuildRemote.clear p0));
            (BuildRemote.clear p1,
             BuildRemote.prepare ignorePublic 1 2 M (BuildRemote.clear p1))].
    unfold BuildRemote.ring.
    cbn [List.length Nat.sub BuildRemote.ring_from].
    unfold BuildRemote.hop, BuildRemote.hop_pack_all.
    cbn [mapM fst snd]. rewrite Hpack0, Hpack1. run_outcome.
    unfold BuildRemote.hop_messages, BuildRemote.hop_recv_all.
    cbn [map mapM fst snd]. rewrite Hsend0, Hsend1, Hrank0, Hprocs0, Hrank1, Hprocs1.
    change (Z.to_nat (Z.rem (0 + 2 - 1) 2)) with 1%nat.
    change (Z.to_nat (Z.rem (1 + 2 - 1) 2)) with 0%nat.
    cbn [lookup list_lookup or_fault]. run_outcome.
    rewrite Hrecv0, Hrecv1. cbn [mapM]. rewrite Hun0, Hun1.
    reflexivity.
  - split.
    + apply (found_after_hop ignorePublic p1 p0 1 Hok0 Hok1).
    + apply (found_after_hop ignorePublic p0 p1 0 Hok1 Hok0).
Qed.

(** Rank 0 with the global indices 10, 20, 30 and rank 1 with 20, 30, 40
    in both index sets. *)
Lemma rebuild_two_processes_witness :
  let a := IndexSet.mk [Scenario.entry 10 0 Scenario.owner true;
                        Scenario.entry 20 1 Scenario.border true;
                        Scenario.entry 30 2 Scenario.border true] 0 in
  let b := IndexSet.mk [Scenario.entry 20 0 Scenario.border true;
                        Scenario.entry 30 1 Scenario.border true;
                        Scenario.entry 40 2 Scenario.owner true] 0 in
  let p0 := Scenario.fresh_process (Scenario.two_sets a a) 100 200 in
  let p1 := Scenario.fresh_process (Scenario.two_sets b b) 100 200 in
  ∃ p0' p1',
    rebuild false [p0; p1] = Done [p0'; p1']
    ∧ found false p1 p0 1 p0'
    ∧ found false p0 p1 0 p1'.
Proof.
  cbv zeta. apply rebuild_two_processes.
  - vm_compute. reflexivity.
  - vm_compute. reflexivity.
  - split; [vm_compute; discriminate|].
    split; [repeat constructor; vm_compute; congruence|].
    split; [repeat constructor|].
    split; [repeat constructor; vm_compute; congruence|repeat constructor].
  - split; [vm_compute; discriminate|].
    split; [repeat constructor; vm_compute; congruence|].
    split; [repeat constructor|].
    split; [repeat constructor; vm_compute; congruence|repeat constructor].
  - vm_compute. reflexivity.
  - vm_compute. reflexivity.
Defined.

(** * The other norms of a multi-type block vector *)

Section Norms.
Import MultiTypeBlockVector.

Lemma Norm_result_take (count : nat) (a : vector) :
  (count <= List.length a)%nat ->
  Norm_result count a = fold_left (fun s x => add x s) (take count a) zero.
Proof.
  induction count as [|c IH]; intros Hc; [reflexivity|].
  destruct (lookup_lt_is_Some_2 a c) as [x Hx]; [lia|].
  rewrite (take_S_r a c x Hx), fold_left_app. cbn [fold_left Norm_result].
  rewrite IH by lia. rewrite (nth_lookup_Some a c zero x Hx). reflexivity.
Qed.

Lemma two_norm2_sum (a : vector) :
  two_norm2 a = fold_left (fun s x => add x s) a zero.
Proof.
  unfold two_norm2. rewrite Norm_result_take by lia.
  rewrite firstn_all. reflexivity.
Qed.

Lemma add_comm (x y : real_type) : add x y = add y x.
Proof.
  unfold add.
  destruct x as [sx|sx| |sx mx ex], y as [sy|sy| |sy my ey];
    try reflexivity; try (destruct sx, sy; reflexivity).
  cbn [SFadd]. rewrite (Z.min_comm ey ex). rewrite Z.add_comm. reflexivity.
Qed.

Lemma dot_sum (a : vector) (s : real_type) :
  fold_left (fun result product => add result product) a s
  = fold_left (fun s x => add x s) a s.
Proof.
  revert s. induction a as [|x a IH]; intros s; [reflexivity|].
  cbn [fold_left]. rewrite (add_comm s x). apply IH.
Qed.

(** The running sum of values that are finite and not negative, from
    0.0 on: 0.0 itself, or a positive finite value or positive
    infinity. *)
Lemma add_zero_or_grown (x s : real_type) :
  finite_nonneg x -> s = zero ∨ grown s -> add x s = zero ∨ grown (add x s).
Proof.
  intros Hx [->|Hs].
  - destruct x as [[]| | |[] m e]; cbn [finite_nonneg] in Hx;
      try contradiction; try (left; reflexivity).
    right. change (add (S754_finite false m e) zero) with (S754_finite false m e).
    cbn [grown]. apply (bounded_emin m e), Hx.
  - right. apply add_grown; assumption.
Qed.

Lemma sum_zero_or_grown (a : vector) (s : real_type) :
  Forall finite_nonneg a -> s = zero ∨ grown s ->
  let r := fold_left (fun s x => add x s) a s in r = zero ∨ grown r.
Proof.
  intros Ha. revert s. induction Ha as [|x a Hx Ha IH]; intros s Hs; [exact Hs|].
  cbn [fold_left]. apply IH, add_zero_or_grown; assumption.
Qed.

(** ** The square root of a positive value *)

Lemma sqrtrem_positive (n : positive) :
  ∃ q r, Z.sqrtrem (Z.pos n) = (Z.pos q, r).
Proof.
  pose proof (Z.sqrtrem_spec (Z.pos n) ltac:(lia)) as H.
  destruct (Z.sqrtrem (Z.pos n)) as [[|q|q] r].
  - destruct H as [H1 H2]. lia.
  - eauto.
  - destruct H as [H1 H2]. lia.
Qed.

Lemma sqrt_grown (x : real_type) : grown x -> grown (sqrt x).
Proof.
  destruct x as [s|[]| |[] m e]; cbn [grown]; try tauto; intros He.
  unfold sqrt, SFsqrt, SFsqrt_core_binary.
  set (e' := Z.min (fexp prec emax (Z.div2 (Zdigits2 (Z.pos m) + e + 1))) (Z.div2 e)).
  assert (He' : emin prec emax <= e').
  { unfold e'. apply Z.min_glb.
    - unfold fexp. lia.
    - rewrite Z.div2_div. apply Z.div_le_lower_bound; [lia|].
      unfold emin, prec, emax in *. lia. }
  assert (Hs : 0 <= e - 2 * e').
  { assert (e' <= Z.div2 e) by (unfold e'; lia).
    rewrite Z.div2_div in H.
    pose proof (Z.mul_div_le e 2 ltac:(lia)). lia. }
  assert (Hm : ∃ n, match e - 2 * e' with
                    | 0 => Z.pos m
                    | Z.pos _ => Z.shiftl (Z.pos m) (e - 2 * e')
                    | Z.neg _ => 0
                    end = Z.pos n).
  { destruct (e - 2 * e') as [|k|k] eqn:Ek; [eauto| |lia].
    rewrite Z.shiftl_mul_pow2 by lia.
    assert (0 < Z.pos m * 2 ^ Z.pos k) by (apply Z.mul_pos_pos; [lia|apply Z.pow_pos_nonneg; lia]).
    destruct (Z.pos m * 2 ^ Z.pos k) as [|n|n]; [lia|eauto|lia]. }
  destruct Hm as (n & ->).
  destruct (sqrtrem_positive n) as (q & r & ->).
  apply binary_round_aux_grown, He'.
Qed.

Lemma grown_not_negative (x : real_type) : grown x -> not_negative x.
Proof. destruct x as [s|[]| |[] m e]; cbn; tauto. Qed.

End Norms.

(** X14.  [two_norm2()] adds the values of the blocks to 0.0 in the order of
    the tuple, and [two_norm()] is its square root.  When the value of a
    block is NaN both are NaN.  When the values of the blocks are finite
    and not negative neither is NaN nor negative, also when the sum
    overflows: the result is zero, positive or positive infinity. *)
Theorem two_norm_not_negative (a : MultiTypeBlockVector.vector) :
  MultiTypeBlockVector.two_norm2 a
  = fold_left (fun s x => MultiTypeBlockVector.add x s) a MultiTypeBlockVector.zero
  ∧ (In S754_nan a ->
     MultiTypeBlockVector.two_norm2 a = S754_nan
     ∧ MultiTypeBlockVector.two_norm a = S754_nan)
  ∧ (Forall MultiTypeBlockVector.finite_nonneg a ->
     MultiTypeBlockVector.not_negative (MultiTypeBlockVector.two_norm2 a)
     ∧ MultiTypeBlockVector.not_negative (MultiTypeBlockVector.two_norm a)).
Proof.
  split; [apply two_norm2_sum|]. split.
  - intros Hin. unfold MultiTypeBlockVector.two_norm.
    rewrite two_norm2_sum, (sum_nan a _ Hin). split; reflexivity.
  - intros Ha. unfold MultiTypeBlockVector.two_norm. rewrite two_norm2_sum.
    destruct (sum_zero_or_grown a MultiTypeBlockVector.zero Ha (or_introl eq_refl))
      as [->|Hg].
    + split; exact I.
    + split; [apply grown_not_negative, Hg|apply grown_not_negative, sqrt_grown, Hg].
Qed.

(** Two blocks of value [DBL_MAX]: the sum overflows, norm and squared
    norm are positive infinity. *)
Lemma two_norm_not_negative_witness :
  let a := [MultiTypeBlockVector.DBL_MAX; MultiTypeBlockVector.DBL_MAX] in
  MultiTypeBlockVector.two_norm2 a = S754_infinity false
  ∧ MultiTypeBlockVector.two_norm a = S754_infinity false
  ∧ MultiTypeBlockVector.not_negative (MultiTypeBlockVector.two_norm a).
Proof.
  cbv zeta. split; [vm_compute; reflexivity|]. split; [vm_compute; reflexivity|].
  apply (two_norm_not_negative
           [MultiTypeBlockVector.DBL_MAX; MultiTypeBlockVector.DBL_MAX]).
  repeat constructor.
Defined.

(** X15.  [operator*] and [dot] add the products of the blocks in the order
    [two_norm2()] adds the values of the blocks: on the same values they
    give the same result, bit for bit. *)
Theorem dot_is_two_norm2 (a : MultiTypeBlockVector.vector) :
  MultiTypeBlockVector.dot a = MultiTypeBlockVector.two_norm2 a.
Proof.
  unfold MultiTypeBlockVector.dot. rewrite two_norm2_sum. apply dot_sum.
Qed.

(** X16.  The specialisation of the infinity norm without NaN tracking
    returns NaN exactly when the norm of the last block is NaN: a NaN in a
    block before the last is lost, although the result for the blocks
    before the last is computed with NaN tracking. *)
Theorem InfinityNorm_false_nan (count' : nat) (a : MultiTypeBlockVector.vector) :
  MultiTypeBlockVector.InfinityNorm_false_result count' a = S754_nan
  ↔ nth count' a MultiTypeBlockVector.zero = S754_nan.
Proof.
  unfold MultiTypeBlockVector.InfinityNorm_false_result, MultiTypeBlockVector.max.
  destruct (nth count' a MultiTypeBlockVector.zero) as [s|s| |s m e] eqn:Ex;
    destruct (MultiTypeBlockVector.result count' a) as [s'|s'| |s' m' e'] eqn:Er;
    cbn [SFltb SFcompare];
    repeat match goal with
           | |- context [if ?b then _ else _] => destruct b
           | |- context [match ?c with Eq => _ | Lt => _ | Gt => _ end] => destruct c
           end;
    split; intros H; try discriminate H; try reflexivity.
Qed.

(** * The local index and the datatype handles *)

(** X17.  The members of a [ParallelLocalIndex].  Every index made by a
    constructor has members that fit their types, and the setters keep
    it so: such an index can be packed.  A constructed index has the
    state [VALID], the flag it was given and the local index as a
    [uint32_t] (0 without one).  The attribute is stored as a [char] and
    read back as the value of that [char]: an attribute from -128 to 127
    comes back as it was given, any other as the value of its low byte
    read as a signed [char].  A setter changes what its getter returns
    and nothing else; an assigned local index is kept as a [uint32_t],
    the state comes back as it was set. *)
Theorem ParallelLocalIndex_members
        (localIndex attribute index : Z) (isPublic : bool)
        (s : LocalIndexState) (x : ParallelLocalIndex.t) :
  let made := ParallelLocalIndex.make3 localIndex attribute isPublic in
  (ParallelLocalIndex.ok made
   ∧ ParallelLocalIndex.ok (ParallelLocalIndex.make2 attribute isPublic)
   ∧ ParallelLocalIndex.ok ParallelLocalIndex.make0)
  ∧ (ParallelLocalIndex.ok x ->
     ParallelLocalIndex.ok (ParallelLocalIndex.setAttribute attribute x)
     ∧ ParallelLocalIndex.ok (ParallelLocalIndex.setState s x)
     ∧ ParallelLocalIndex.ok (ParallelLocalIndex.assign index x))
  ∧ (ParallelLocalIndex.local made = localIndex mod 2 ^ 32
     ∧ ParallelLocalIndex.to_uint32_t made = localIndex mod 2 ^ 32
     ∧ ParallelLocalIndex.attribute made = of_char (attribute mod 256)
     ∧ ParallelLocalIndex.isPublic made = isPublic
     ∧ ParallelLocalIndex.state made = VALID)
  ∧ (-128 <= attribute < 128 ->
     ParallelLocalIndex.attribute made = attribute
     ∧ ParallelLocalIndex.attribute (ParallelLocalIndex.setAttribute attribute x)
       = attribute)
  ∧ ParallelLocalIndex.make2 attribute isPublic
    = ParallelLocalIndex.make3 0 attribute isPublic
  ∧ ParallelLocalIndex.make0 = ParallelLocalIndex.make3 0 0 false
  ∧ (ParallelLocalIndex.attribute (ParallelLocalIndex.setAttribute attribute x)
     = of_char (attribute mod 256)
     ∧ ParallelLocalIndex.local (ParallelLocalIndex.setAttribute attribute x)
       = ParallelLocalIndex.local x
     ∧ ParallelLocalIndex.isPublic (ParallelLocalIndex.setAttribute attribute x)
       = ParallelLocalIndex.isPublic x
     ∧ ParallelLocalIndex.state (ParallelLocalIndex.setAttribute attribute x)
       = ParallelLocalIndex.state x)
  ∧ (ParallelLocalIndex.state (ParallelLocalIndex.setState s x) = s
     ∧ ParallelLocalIndex.local (ParallelLocalIndex.setState s x)
       = ParallelLocalIndex.local x
     ∧ ParallelLocalIndex.attribute (ParallelLocalIndex.setState s x)
       = ParallelLocalIndex.attribute x
     ∧ ParallelLocalIndex.isPublic (ParallelLocalIndex.setState s x)
       = ParallelLocalIndex.isPublic x)
  ∧ (ParallelLocalIndex.to_uint32_t (ParallelLocalIndex.assign index x)
     = index mod 2 ^ 32
     ∧ ParallelLocalIndex.attribute (ParallelLocalIndex.assign index x)
       = ParallelLocalIndex.attribute x
     ∧ ParallelLocalIndex.isPublic (ParallelLocalIndex.assign index x)
       = ParallelLocalIndex.isPublic x
     ∧ ParallelLocalIndex.state (ParallelLocalIndex.assign index x)
       = ParallelLocalIndex.state x).
Proof.
  cbv zeta.
  assert (Hc : ∀ v, byte_ok (to_char v)).
  { intros v. unfold byte_ok, to_char. apply Z.mod_pos_bound. lia. }
  assert (Hu : ∀ v, uint32_ok (to_uint32 v)).
  { intros v. unfold uint32_ok, to_uint32. apply Z.mod_pos_bound. lia. }
  assert (H0 : uint32_ok 0) by (unfold uint32_ok; lia).
  assert (Hb0 : byte_ok 0) by (unfold byte_ok; lia).
  assert (Hround : -128 <= attribute < 128 -> of_char (to_char attribute) = attribute).
  { intros Ha. unfold of_char, to_char.
    destruct (Z.lt_ge_cases attribute 0) as [Hneg|Hpos].
    - replace (attribute mod 256) with (attribute + 256).
      + destruct (Z.ltb_spec (attribute + 256) 128); lia.
      + apply Z.mod_unique with (-1); lia.
    - rewrite Z.mod_small by lia.
      destruct (Z.ltb_spec attribute 128); lia. }
  split.
  { unfold ParallelLocalIndex.ok, ParallelLocalIndex.make3, ParallelLocalIndex.make2,
      ParallelLocalIndex.make0.
    cbn [ParallelLocalIndex.localIndex_ ParallelLocalIndex.attribute_
         ParallelLocalIndex.public_ ParallelLocalIndex.state_].
    auto 20. }
  split.
  { intros (Hl & Ha & Hp & Hs).
    unfold ParallelLocalIndex.ok, ParallelLocalIndex.setAttribute,
      ParallelLocalIndex.setState, ParallelLocalIndex.assign.
    cbn [ParallelLocalIndex.localIndex_ ParallelLocalIndex.attribute_
         ParallelLocalIndex.public_ ParallelLocalIndex.state_].
    auto 20. }
  split.
  { repeat split; destruct isPublic; reflexivity. }
  split.
  { intros Ha. split; exact (Hround Ha). }
  split; [reflexivity|]. split; [reflexivity|].
  split; [repeat split|]. split; [|repeat split].
  split; [destruct s; reflexivity|repeat split].
Qed.

(** An index made with the attribute 1, then given the attribute 2 or
    marked as deleted; the attribute 200 comes back as -56. *)
Lemma ParallelLocalIndex_members_witness :
  let x := ParallelLocalIndex.make3 7 1 true in
  ParallelLocalIndex.ok x
  ∧ ParallelLocalIndex.ok (ParallelLocalIndex.setState DELETED x)
  ∧ ParallelLocalIndex.attribute (ParallelLocalIndex.setAttribute 2 x) = 2
  ∧ ParallelLocalIndex.attribute (ParallelLocalIndex.setAttribute 200 x) = -56
  ∧ ParallelLocalIndex.state (ParallelLocalIndex.setState DELETED x) = DELETED.
Proof.
  cbv zeta.
  destruct (ParallelLocalIndex_members 7 2 0 true DELETED
              (ParallelLocalIndex.make3 7 1 true))
    as (_ & Hkeep & _ & Hround & _ & _ & _ & (Hs & _) & _).
  destruct (ParallelLocalIndex_members 7 1 0 true DELETED
              (ParallelLocalIndex.make3 7 1 true))
    as ((Hok & _) & _).
  destruct (ParallelLocalIndex_members 7 200 0 true DELETED
              (ParallelLocalIndex.make3 7 1 true))
    as (_ & _ & _ & _ & _ & _ & (Ha & _) & _).
  split; [exact Hok|]. split; [apply Hkeep, Hok|].
  split; [apply Hround; lia|]. split; [exact Ha|exact Hs].
Defined.

Section Statics.
Import MPITraits.

Lemma getType_ParallelLocalIndex_rep (rep : Z) :
  getType_ParallelLocalIndex rep = getType_ParallelLocalIndex 0.
Proof.
  unfold getType_ParallelLocalIndex, rebase, MPI_Address.
  cbn -[Z.add Z.sub].
  assert (Hd : ∀ a off, a + off - (a + 0) = off) by (intros; lia).
  rewrite !Hd. reflexivity.
Qed.

Lemma getType_ParallelLocalIndex_static_ok (rep : Z) (s : statics) :
  statics_ok s ->
  fst (getType_ParallelLocalIndex_static rep s) = getType_ParallelLocalIndex 0
  ∧ statics_ok (snd (getType_ParallelLocalIndex_static rep s))
  ∧ type_IndexPair (snd (getType_ParallelLocalIndex_static rep s)) = type_IndexPair s.
Proof.
  intros [Hl Hp]. unfold getType_ParallelLocalIndex_static.
  destruct Hl as [Hl|Hl]; rewrite Hl; cbn [fst snd].
  - rewrite getType_ParallelLocalIndex_rep.
    split; [reflexivity|]. split; [|reflexivity].
    split; [right; reflexivity|exact Hp].
  - split; [reflexivity|]. split; [|reflexivity]. split; [right; exact Hl|exact Hp].
Qed.

End Statics.

(** X18.  [getType()] of the index pair, with the static members.  Whatever
    calls of the two [getType()] came before and wherever the arrays
    [rep] of this call lie, the call returns the handle [PairType_type],
    leaves it in the static member, and every later call returns it and
    changes nothing. *)
Theorem getType_static (rep rep' : Z) (s : MPITraits.statics) :
  MPITraits.statics_ok s ->
  ∃ s',
    MPITraits.getType_IndexPair_static rep rep' s = (MPITraits.PairType_type, s')
    ∧ MPITraits.statics_ok s'
    ∧ MPITraits.type_IndexPair s' = Some MPITraits.PairType_type
    ∧ ∀ rep1 rep1',
        MPITraits.getType_IndexPair_static rep1 rep1' s'
        = (MPITraits.PairType_type, s').
Proof.
  intros Hok.
  assert (Hlater : ∀ s', MPITraits.type_IndexPair s' = Some MPITraits.PairType_type ->
                         ∀ rep1 rep1',
                           MPITraits.getType_IndexPair_static rep1 rep1' s'
                           = (MPITraits.PairType_type, s')).
  { intros s' Hs' rep1 rep1'. unfold MPITraits.getType_IndexPair_static.
    rewrite Hs'. reflexivity. }
  destruct (MPITraits.type_IndexPair s) as [t|] eqn:Hp.
  - destruct Hok as [Hl [Hnone|Hsome]]; [congruence|].
    rewrite Hp in Hsome. injection Hsome as ->.
    exists s. split; [apply Hlater, Hp|].
    split; [split; [exact Hl|right; exact Hp]|]. split; [exact Hp|].
    apply Hlater, Hp.
  - unfold MPITraits.getType_IndexPair_static. rewrite Hp.
    destruct (getType_ParallelLocalIndex_static_ok rep' s Hok) as (Ht & Hok' & _).
    destruct (MPITraits.getType_ParallelLocalIndex_static rep' s) as [t s1].
    cbn [fst snd] in Ht, Hok'. subst t.
    assert (Htype : MPI_Type_struct 4 [1; 1; 1; 1]
                      (MPITraits.rebase 4
                         [MPI_Address rep 0; MPI_Address rep IndexPair.offset_global_;
                          MPI_Address rep IndexPair.offset_local_;
                          MPI_Address rep IndexPair.sizeof])
                      [MPI_LB; MPITraits.getType_int;
                       MPITraits.getType_ParallelLocalIndex 0; MPI_UB]
                    = MPITraits.PairType_type).
    { apply (getType_IndexPair_rep rep 0). }
    rewrite Htype. eexists. split; [reflexivity|].
    cbn [MPITraits.type_IndexPair].
    split; [|split; [reflexivity|intros rep1 rep1'; reflexivity]].
    destruct Hok' as [Hl _]. split; [exact Hl|right; reflexivity].
Qed.

(** The first call in a process and a call at other addresses after
    it. *)
Lemma getType_static_witness :
  ∃ s',
    MPITraits.getType_IndexPair_static 4096 8192 MPITraits.no_type
    = (MPITraits.PairType_type, s')
    ∧ MPITraits.getType_IndexPair_static 64 128 s' = (MPITraits.PairType_type, s').
Proof.
  destruct (getType_static 4096 8192 MPITraits.no_type) as (s' & H1 & _ & _ & H2).
  - split; left; reflexivity.
  - exists s'. split; [exact H1|apply H2].
Defined.
